(** * WatchDog-V1: a two-way folder mirror

    Shallow embedding of [src/main.py]: the path mapping done with
    [os.path.relpath] and [os.path.join], the live-mirror handler
    [MyEventHandler.on_any_event] and the start-up pass
    [sync_folders_with_progress], over a model of a POSIX directory tree
    without symbolic links. *)

From stdpp Require Import gmap strings list fin_maps.
From Stdlib Require Import ZArith Ascii Lia.

Local Open Scope Z_scope.

(** ** Exceptions

    The Python exceptions the modelled library calls can raise. *)

Inductive exn : Type :=
  | ValueError
  | FileNotFoundError
  | NotADirectoryError
  | IsADirectoryError
  | FileExistsError
  | SameFileError
  | ShutilError
  | OSError.

(** What a call comes to: a value, a raised exception, or (for the
    recursive walks only) the recursion budget of the model used up. *)
Inductive result (A : Type) : Type :=
  | Ok (a : A)
  | Raise (e : exn)
  | OutOfFuel.
Arguments Ok {A} a.
Arguments Raise {A} e.
Arguments OutOfFuel {A}.

#[global] Instance exn_eq_dec : EqDecision exn.
Proof. solve_decision. Defined.

#[global] Instance result_eq_dec {A} `{EqDecision A} : EqDecision (result A).
Proof. solve_decision. Defined.

Definition bind_result {A B} (r : result A) (f : A → result B) : result B :=
  match r with
  | Ok a => f a
  | Raise e => Raise e
  | OutOfFuel => OutOfFuel
  end.

(** ** [posixpath]: the pure path functions of the Python library

    [main.py] calls [os.path.relpath] and [os.path.join]; [shutil] and
    [os.makedirs] call [os.path.split] and [os.path.basename].  They are
    modelled after CPython's [posixpath.py], on [string]. *)

Module posixpath.

Definition is_sep (c : ascii) : bool := Ascii.eqb c "/".

(** [s.split('/')] *)
Fixpoint split_sep (s : string) : list string :=
  match s with
  | EmptyString => [EmptyString]
  | String c s' =>
      if is_sep c then EmptyString :: split_sep s'
      else match split_sep s' with
           | [] => [String c EmptyString]
           | w :: ws => String c w :: ws
           end
  end.

(** ['/'.join(comps)] *)
Fixpoint join_sep (comps : list string) : string :=
  match comps with
  | [] => ""
  | [c] => c
  | c :: cs => c +:+ "/" +:+ join_sep cs
  end.

Definition isabs (s : string) : bool :=
  match s with
  | String c _ => is_sep c
  | EmptyString => false
  end.

Fixpoint endswith_sep (s : string) : bool :=
  match s with
  | EmptyString => false
  | String c EmptyString => is_sep c
  | String _ s' => endswith_sep s'
  end.

Definition nonempty (s : string) : bool :=
  match s with EmptyString => false | _ => true end.

(** [os.path.join(a, b)]: one step of the loop of [posixpath.join]. *)
Definition join (a b : string) : string :=
  if isabs b then b
  else if negb (nonempty a) || endswith_sep a then a +:+ b
  else a +:+ "/" +:+ b.

(** [os.path.join(a, *p)] *)
Definition join_all (a : string) (p : list string) : string :=
  fold_left join p a.

(** The number of leading slashes [normpath] keeps: two for exactly two,
    one for one or for three and more, none otherwise. *)
Definition initial_slashes (path : string) : nat :=
  match path with
  | String c1 rest =>
      if is_sep c1 then
        match rest with
        | String c2 rest2 =>
            if is_sep c2 then
              match rest2 with
              | String c3 _ => if is_sep c3 then 1%nat else 2%nat
              | EmptyString => 2%nat
              end
            else 1%nat
        | EmptyString => 1%nat
        end
      else 0%nat
  | EmptyString => 0%nat
  end.

Definition is_dotdot (c : string) : bool := bool_decide (c = "..").
Definition is_skipped (c : string) : bool :=
  bool_decide (c = "") || bool_decide (c = ".").

(** The body of the [for comp in comps] loop of [normpath]. *)
Definition norm_step (slashes : nat) (new_comps : list string) (comp : string)
  : list string :=
  if is_skipped comp then new_comps
  else if negb (is_dotdot comp)
          || (bool_decide (slashes = 0%nat) && bool_decide (new_comps = []))
          || (bool_decide (new_comps ≠ []) && is_dotdot (List.last new_comps ""))
       then new_comps ++ [comp]
       else removelast new_comps.

Definition norm_comps (slashes : nat) (comps : list string) : list string :=
  fold_left (norm_step slashes) comps [].

Fixpoint slashes_str (n : nat) : string :=
  match n with
  | O => ""
  | S n' => "/" +:+ slashes_str n'
  end.

Definition normpath (path : string) : string :=
  if negb (nonempty path) then "."
  else
    let k := initial_slashes path in
    let p := slashes_str k +:+ join_sep (norm_comps k (split_sep path)) in
    if nonempty p then p else ".".

(** [os.path.abspath(path)], with [cwd] the value of [os.getcwd()]. *)
Definition abspath (cwd path : string) : string :=
  normpath (if isabs path then path else join cwd path).

(** [[x for x in abspath(p).split(sep) if x]] *)
Definition abs_list (cwd path : string) : list string :=
  List.filter nonempty (split_sep (abspath cwd path)).

(** [len(commonprefix([l1, l2]))] for two lists of components. *)
Fixpoint common_len (l1 l2 : list string) : nat :=
  match l1, l2 with
  | x :: l1', y :: l2' => if bool_decide (x = y) then S (common_len l1' l2') else O
  | _, _ => O
  end.

(** [os.path.relpath(path, start)] *)
Definition relpath (cwd path start : string) : result string :=
  if negb (nonempty path) then Raise ValueError
  else
    let start_list := abs_list cwd start in
    let path_list := abs_list cwd path in
    let i := common_len start_list path_list in
    let rel_list := repeat ".." (List.length start_list - i) ++ drop i path_list in
    match rel_list with
    | [] => Ok "."
    | a :: p => Ok (join_all a p)
    end.

(** [os.path.split(p)]: head and tail around the last slash, the head
    stripped of trailing slashes unless it is all slashes. *)
Fixpoint rfind_split (p : string) : string * string :=
  match p with
  | EmptyString => ("", "")
  | String c p' =>
      let '(h, t) := rfind_split p' in
      if nonempty h then (String c h, t)
      else if is_sep c then (String c "", t)
      else ("", String c t)
  end.

Fixpoint all_sep (s : string) : bool :=
  match s with
  | EmptyString => true
  | String c s' => is_sep c && all_sep s'
  end.

Fixpoint rstrip_sep (s : string) : string :=
  match s with
  | EmptyString => ""
  | String c s' =>
      let r := rstrip_sep s' in
      if negb (nonempty r) && is_sep c then "" else String c r
  end.

Definition split (p : string) : string * string :=
  let '(head, tail) := rfind_split p in
  if nonempty head && negb (all_sep head) then (rstrip_sep head, tail)
  else (head, tail).

Definition basename (p : string) : string := snd (rfind_split p).
Definition dirname (p : string) : string := fst (split p).

End posixpath.

(** ** PathMapper: the two lines every user of the mapping runs

    [relative_path = os.path.relpath(path, from_root)] followed by
    [os.path.join(to_root, relative_path)] (lines 53-54, 84, 101-102 and
    119-120 of [main.py]). *)

Definition map_path (cwd path from_root to_root : string) : result string :=
  match posixpath.relpath cwd path from_root with
  | Ok relative_path => Ok (posixpath.join to_root relative_path)
  | Raise e => Raise e
  | OutOfFuel => OutOfFuel
  end.

(** Mapping [path] from [r1] to [r2] and the result back from [r2] to [r1]. *)
Definition round_trip (cwd path r1 r2 : string) : result string :=
  bind_result (map_path cwd path r1 r2) (λ q, map_path cwd q r2 r1).

(** [path] is [root] or lies below it: the components of its absolute
    normal form extend those of [root]. *)
Definition descendant (cwd root path : string) : Prop :=
  posixpath.abs_list cwd root `prefix_of` posixpath.abs_list cwd path.

(** The relative path [relpath] returns for a path whose components
    extend those of its start by [ns]. *)
Definition rel_of (ns : list string) : string :=
  match ns with [] => "." | _ => posixpath.join_sep ns end.

(** What [os.path.join m x] puts in front of a relative [x]. *)
Definition join_prefix (m : string) : string :=
  if negb (posixpath.nonempty m) || posixpath.endswith_sep m then m
  else m +:+ "/".

(** ** The directory tree

    A tree maps the absolute key of every file and directory (the list of
    its names from the root) to its node.  The root has key [[]].  Regular
    files carry their content and modification time.  A directory carries
    the time stamp it was made with: the kernel also stamps a directory
    whenever an entry is added to it, removed from it or renamed in it, and
    that is not modelled.  The scan reads the modification time of a
    directory only where a file of one folder faces a directory of the
    other (lines 108 and 126); what is proved about the scan either
    excludes that case ([no_conflict]) or does not depend on time stamps.
    The handler reads it only where [shutil.move] falls back to copying a
    directory with its time stamps.  There are no symbolic links and no
    permissions. *)

Inductive node : Type :=
  | File (content : string) (mtime : Z)
  | Dir (mtime : Z).

#[global] Instance node_eq_dec : EqDecision node.
Proof. solve_decision. Defined.

Abbreviation key := (list string).
Abbreviation tree := (gmap (list string) node).

Definition is_dir_node (o : option node) : bool :=
  match o with Some (Dir _) => true | _ => false end.
Definition is_file_node (o : option node) : bool :=
  match o with Some (File _ _) => true | _ => false end.

(** A name a directory entry can have. *)
Fixpoint has_sep (s : string) : bool :=
  match s with
  | EmptyString => false
  | String c s' => posixpath.is_sep c || has_sep s'
  end.
Definition proper_name (c : string) : Prop :=
  c ≠ "" ∧ c ≠ "." ∧ c ≠ ".." ∧ has_sep c = false.
#[global] Instance proper_name_dec c : Decision (proper_name c).
Proof. unfold proper_name. apply _. Defined.

(** Well-formed trees: the root is a directory, every other entry has a
    proper name and lives in a directory. *)
Definition wf_entry (t : tree) (k : key) (n : node) : Prop :=
  k = [] ∨ (is_dir_node (t !! removelast k) = true ∧ proper_name (List.last k "")).
Definition wf_tree (t : tree) : Prop :=
  is_dir_node (t !! ([] : key)) = true ∧ map_Forall (wf_entry t) t.

#[global] Instance wf_entry_dec t k n : Decision (wf_entry t k n).
Proof. unfold wf_entry. apply _. Defined.
#[global] Instance wf_tree_dec t : Decision (wf_tree t).
Proof. unfold wf_tree. apply _. Defined.

(** Nothing of [t] is missing in [t']: every key of [t] is still there,
    a file where it was a file and a directory where it was one. *)
Definition same_kind (n n' : node) : Prop :=
  match n, n' with
  | File _ _, File _ _ | Dir _, Dir _ => True
  | _, _ => False
  end.
Definition kept (t t' : tree) : Prop :=
  ∀ k n, t !! k = Some n → ∃ n', t' !! k = Some n' ∧ same_kind n n'.

(** *** Path resolution, as the kernel does it for each system call *)

Definition namei_step (t : tree) (cur : result key) (comp : string) : result key :=
  match cur with
  | Ok k =>
      match t !! k with
      | Some (Dir _) =>
          if posixpath.is_skipped comp then Ok k
          else if posixpath.is_dotdot comp then Ok (removelast k)
          else Ok (k ++ [comp])
      | Some (File _ _) => Raise NotADirectoryError
      | None => Raise FileNotFoundError
      end
  | Raise e => Raise e
  | OutOfFuel => OutOfFuel
  end.

Arguments namei_step : simpl never.

Definition full_path (cwd path : string) : string :=
  if posixpath.isabs path then path else posixpath.join cwd path.

Definition namei (cwd : string) (t : tree) (path : string) : result key :=
  if negb (posixpath.nonempty path) then Raise FileNotFoundError
  else fold_left (namei_step t) (posixpath.split_sep (full_path cwd path)) (Ok []).

(** Whether the last component of [path], trailing slashes apart, is a
    name.  [rmdir] and [rename] refuse a path that ends in [.] or [..] or
    that has no component at all, the root (EINVAL, ENOTEMPTY, EBUSY). *)
Definition last_name (path : string) : bool :=
  let c := List.last (List.filter posixpath.nonempty (posixpath.split_sep path)) "" in
  negb (posixpath.is_skipped c) && negb (posixpath.is_dotdot c).

(** The entries of directory [k], as [(name, node)] pairs. *)
Definition entry_of (k : key) (kn : key * node) : option (string * node) :=
  if decide (kn.1 ≠ [] ∧ removelast kn.1 = k) then Some (List.last kn.1 "", kn.2)
  else None.
Definition entries (t : tree) (k : key) : list (string * node) :=
  omap (entry_of k) (map_to_list t).

(** Keys at or below [k]. *)
Definition under (k : key) (k' : key) : Prop := k `prefix_of` k'.

(** *** System calls and library calls on a tree

    [cwd] is the working directory of the process, [now] the clock value
    stamped on the directories a call creates. *)

Section Calls.
Variable cwd : string.
Variable now : Z.

(** [os.stat(path)] *)
Definition stat (t : tree) (path : string) : result node :=
  bind_result (namei cwd t path) (λ k,
    match t !! k with
    | Some n => Ok n
    | None => Raise FileNotFoundError
    end).

(** [os.path.exists], [os.path.isdir], [os.path.getmtime] *)
Definition path_exists (t : tree) (path : string) : bool :=
  match stat t path with Ok _ => true | _ => false end.
Definition isdir (t : tree) (path : string) : bool :=
  match stat t path with Ok (Dir _) => true | _ => false end.
Definition getmtime (t : tree) (path : string) : result Z :=
  bind_result (stat t path) (λ n,
    match n with File _ mt => Ok mt | Dir mt => Ok mt end).

(** [os.path.samefile] as [shutil._samefile] uses it: [False] when either
    [stat] fails. *)
Definition samefile (t : tree) (a b : string) : bool :=
  match namei cwd t a, namei cwd t b with
  | Ok ka, Ok kb =>
      bool_decide (ka = kb) && bool_decide (is_Some (t !! ka))
  | _, _ => false
  end.

(** [os.scandir(top)], split into directory names and other names as
    [os.walk] does. *)
Definition scandir (t : tree) (top : string) : result (list string * list string) :=
  bind_result (namei cwd t top) (λ k,
    match t !! k with
    | Some (Dir _) =>
        let es := entries t k in
        Ok (fst <$> List.filter (λ e, is_dir_node (Some e.2)) es,
            fst <$> List.filter (λ e, is_file_node (Some e.2)) es)
    | Some (File _ _) => Raise NotADirectoryError
    | None => Raise FileNotFoundError
    end).

(** [os.mkdir(path)] *)
Definition mkdir (t : tree) (path : string) : result tree :=
  bind_result (namei cwd t path) (λ k,
    match t !! k with
    | Some _ => Raise FileExistsError
    | None => Ok (<[k := Dir now]> t)
    end).

(** [os.makedirs(name, exist_ok=exist_ok)].  The recursion is on the head
    of [os.path.split(name)], a shorter string: the length of [name] is
    fuel enough. *)
Fixpoint makedirs_go (fuel : nat) (exist_ok : bool) (t : tree) (name : string)
  : tree * result unit :=
  match fuel with
  | O => (t, OutOfFuel)
  | S fuel' =>
      let '(head, tail) := posixpath.split name in
      let '(head, tail) :=
        if negb (posixpath.nonempty tail) then posixpath.split head
        else (head, tail) in
      let do_mkdir (t1 : tree) : tree * result unit :=
        match mkdir t1 name with
        | Ok t2 => (t2, Ok tt)
        | Raise e =>
            if negb exist_ok || negb (isdir t1 name) then (t1, Raise e)
            else (t1, Ok tt)
        | OutOfFuel => (t1, OutOfFuel)
        end in
      if posixpath.nonempty head && posixpath.nonempty tail
         && negb (path_exists t head)
      then
        let '(t1, r) := makedirs_go fuel' exist_ok t head in
        match r with
        | Ok _ | Raise FileExistsError =>
            if bool_decide (tail = ".") then (t1, Ok tt) else do_mkdir t1
        | Raise e => (t1, Raise e)
        | OutOfFuel => (t1, OutOfFuel)
        end
      else do_mkdir t
  end.

Definition makedirs_tree (exist_ok : bool) (t : tree) (name : string)
  : tree * result unit :=
  makedirs_go (S (String.length name)) exist_ok t name.

(** [shutil.copy2(src, dst)]: [copyfile] then [copystat], so that the
    destination gets the content and the modification time of [src].  (As
    said for the tree, the directory that gets a new entry keeps its time
    stamp here; so it does in [remove_tree] and [rename_tree] below.) *)
Definition copyfile_tree (t : tree) (src dst : string) : tree * result unit :=
  if samefile t src dst then (t, Raise SameFileError)
  else
    match stat t src with
    | Ok (File content mtime) =>
        match namei cwd t dst with
        | Ok kd =>
            match t !! kd with
            | Some (Dir _) => (t, Raise IsADirectoryError)
            | _ => (<[kd := File content mtime]> t, Ok tt)
            end
        | Raise e => (t, Raise e)
        | OutOfFuel => (t, OutOfFuel)
        end
    | Ok (Dir _) => (t, Raise IsADirectoryError)
    | Raise e => (t, Raise e)
    | OutOfFuel => (t, OutOfFuel)
    end.

Definition copy2_tree (t : tree) (src dst : string) : tree * result unit :=
  let dst := if isdir t dst then posixpath.join dst (posixpath.basename src)
             else dst in
  copyfile_tree t src dst.

(** [os.remove(path)] *)
Definition remove_tree (t : tree) (path : string) : tree * result unit :=
  match namei cwd t path with
  | Ok k =>
      match t !! k with
      | Some (File _ _) => (delete k t, Ok tt)
      | Some (Dir _) => (t, Raise IsADirectoryError)
      | None => (t, Raise FileNotFoundError)
      end
  | Raise e => (t, Raise e)
  | OutOfFuel => (t, OutOfFuel)
  end.

(** The tree without the keys at or below [k]. *)
Definition prune (k : key) (t : tree) : tree :=
  filter (λ kn, ¬ under k kn.1) t.

(** The entries at or below [k], moved to the same place below [k']. *)
Definition graft_entry (k k' : key) (kn : key * node) : option (key * node) :=
  if decide (under k kn.1) then Some (k' ++ drop (List.length k) kn.1, kn.2)
  else None.
Definition graft (k k' : key) (t : tree) : tree :=
  list_to_map (omap (graft_entry k k') (map_to_list t)).

(** [shutil.rmtree(path)]: the content of the directory is removed, then
    [os.rmdir(path)] removes the directory itself.  On a path that ends in
    [.] or [..], or on the root, [rmdir] fails: the directory is left,
    emptied, and the error is raised, which is that of the resolution when
    the path went through a directory that has just been removed. *)
Definition rmtree_tree (t : tree) (path : string) : tree * result unit :=
  match namei cwd t path with
  | Ok k =>
      match t !! k with
      | Some (Dir mt) =>
          if last_name path then (prune k t, Ok tt)
          else
            let t1 := <[k := Dir mt]> (prune k t) in
            match namei cwd t1 path with
            | Raise e => (t1, Raise e)
            | _ => (t1, Raise OSError)
            end
      | Some (File _ _) => (t, Raise NotADirectoryError)
      | None => (t, Raise FileNotFoundError)
      end
  | Raise e => (t, Raise e)
  | OutOfFuel => (t, OutOfFuel)
  end.

(** [os.rename(src, dst)]; the kernel refuses a path that ends in [.] or
    [..] on either side. *)
Definition rename_tree (t : tree) (src dst : string) : result tree :=
  bind_result (namei cwd t src) (λ ks,
  bind_result (namei cwd t dst) (λ kd,
    let moved := graft ks kd t ∪ prune kd (prune ks t) in
    if negb (last_name src && last_name dst) then Raise OSError else
    match t !! ks with
    | None => Raise FileNotFoundError
    | Some (File _ _) =>
        if bool_decide (ks = kd) then Ok t
        else if is_dir_node (t !! kd) then Raise IsADirectoryError
        else Ok moved
    | Some (Dir _) =>
        if bool_decide (ks = kd) then Ok t
        else if is_file_node (t !! kd) then Raise NotADirectoryError
        else if bool_decide (under ks kd) then Raise OSError
        else if is_dir_node (t !! kd) && bool_decide (entries t kd ≠ [])
        then Raise OSError
        else Ok moved
    end)).

(** [shutil._basename] and [shutil._destinsrc] *)
Definition shutil_basename (path : string) : string :=
  posixpath.basename (posixpath.rstrip_sep path).

Definition destinsrc (src dst : string) : bool :=
  let src := posixpath.abspath cwd src in
  let dst := posixpath.abspath cwd dst in
  let src := if posixpath.endswith_sep src then src else src +:+ "/" in
  let dst := if posixpath.endswith_sep dst then dst else dst +:+ "/" in
  String.prefix src dst.

(** [shutil.copytree(src, dst)] as [shutil.move] calls it: [os.makedirs(dst)]
    makes a new directory (and fails when [dst] exists), into which the
    subtree of [src] is copied with its modification times. *)
Definition copytree_tree (t : tree) (src dst : string) : tree * result unit :=
  match scandir t src with
  | Ok _ =>
      let '(t1, r) := makedirs_tree false t dst in
      match r with
      | Ok _ =>
          match namei cwd t1 src, namei cwd t1 dst with
          | Ok ks, Ok kd => (graft ks kd t1 ∪ t1, Ok tt)
          | _, _ => (t1, Raise OSError)
          end
      | Raise e => (t1, Raise e)
      | OutOfFuel => (t1, OutOfFuel)
      end
  | Raise e => (t, Raise e)
  | OutOfFuel => (t, OutOfFuel)
  end.

Definition seq_tree (r1 : tree * result unit) (f : tree → tree * result unit)
  : tree * result unit :=
  match r1 with
  | (t1, Ok _) => f t1
  | other => other
  end.

(** [shutil.move(src, dst)] *)
Definition move_tree (t : tree) (src dst : string) : tree * result unit :=
  let finish (real_dst : string) : tree * result unit :=
    match rename_tree t src real_dst with
    | Ok t1 => (t1, Ok tt)
    | OutOfFuel => (t, OutOfFuel)
    | Raise _ =>
        if isdir t src then
          if destinsrc src dst then (t, Raise ShutilError)
          else seq_tree (copytree_tree t src real_dst) (λ t1, rmtree_tree t1 src)
        else seq_tree (copy2_tree t src real_dst) (λ t1, remove_tree t1 src)
    end in
  if isdir t dst then
    if samefile t src dst then
      match rename_tree t src dst with
      | Ok t1 => (t1, Ok tt)
      | Raise e => (t, Raise e)
      | OutOfFuel => (t, OutOfFuel)
      end
    else
      let real_dst := posixpath.join dst (shutil_basename src) in
      if path_exists t real_dst then (t, Raise ShutilError)
      else finish real_dst
  else finish dst.

End Calls.

(** ** The process: a tree and what it has printed and called

    The log keeps, in order, every library call made to change the tree,
    with its outcome, and every line printed.  The [tqdm] progress bars
    only display counts and are left out. *)

Inductive call : Type :=
  | CallMakedirs (name : string)
  | CallCopy2 (src dst : string)
  | CallRemove (path : string)
  | CallRmtree (path : string)
  | CallMove (src dst : string).

Inductive entry : Type :=
  | Completed (c : call)
  | Failed (c : call) (e : exn)
  | Print (line : string)
  | PrintError (event_type src_path : string) (e : exn).

#[global] Instance call_eq_dec : EqDecision call.
Proof. solve_decision. Defined.
#[global] Instance entry_eq_dec : EqDecision entry.
Proof. solve_decision. Defined.

Record world : Type := World { fs : tree; log : list entry }.

(** The calls that only add to a tree or overwrite a file. *)
Definition creating (c : call) : Prop :=
  match c with
  | CallMakedirs _ | CallCopy2 _ _ => True
  | _ => False
  end.
Definition creates (en : entry) : Prop :=
  match en with
  | Completed c | Failed c _ => creating c
  | _ => False
  end.
Definition is_failed (en : entry) : Prop :=
  match en with Failed _ _ => True | _ => False end.
#[global] Instance is_failed_dec en : Decision (is_failed en).
Proof. destruct en; simpl; apply _. Defined.

Definition M (A : Type) : Type := world → world * result A.

Definition ret {A} (a : A) : M A := λ w, (w, Ok a).
Definition bind {A B} (m : M A) (f : A → M B) : M B :=
  λ w, match m w with
       | (w1, Ok a) => f a w1
       | (w1, Raise e) => (w1, Raise e)
       | (w1, OutOfFuel) => (w1, OutOfFuel)
       end.
Definition lift {A} (r : result A) : M A := λ w, (w, r).
Definition read {A} (f : tree → A) : M A := λ w, (w, Ok (f (fs w))).

(** A call on the tree, logged with its outcome. *)
Definition logged (c : call) (op : tree → tree * result unit) : M unit :=
  λ w, match op (fs w) with
       | (t1, Ok _) => (World t1 (log w ++ [Completed c]), Ok tt)
       | (t1, Raise e) => (World t1 (log w ++ [Failed c e]), Raise e)
       | (t1, OutOfFuel) => (World t1 (log w), OutOfFuel)
       end.

(** [print(line)].  [stdout en] is the exception that writing [en] to the
    standard output of the process raises, if any: [UnicodeEncodeError] (a
    [ValueError]) for a file name the stream cannot encode,
    [BrokenPipeError] (an [OSError]) once the reader has gone.  A line that
    is refused is not in the log. *)
Definition print (stdout : entry → option exn) (en : entry) : M unit :=
  λ w, match stdout en with
       | None => (World (fs w) (log w ++ [en]), Ok tt)
       | Some e => (w, Raise e)
       end.

(** [try: m except Exception as e: h e] *)
Definition try_except {A} (m : M A) (h : exn → M A) : M A :=
  λ w, match m w with
       | (w1, Raise e) => h e w1
       | other => other
       end.

#[global] Instance M_ret : MRet M := @ret.
#[global] Instance M_bind : MBind M := λ A B f m, bind m f.

(** [for x in l: body x] *)
Fixpoint for_each {A} (l : list A) (body : A → M unit) : M unit :=
  match l with
  | [] => ret tt
  | x :: l' => bind (body x) (λ _, for_each l' body)
  end.

Section Program.
Variable cwd : string.
Variable now : Z.
Variable stdout : entry → option exn.

Definition getmtime_now (path : string) : M Z :=
  λ w, (w, getmtime cwd (fs w) path).

(** [for top, dirs, files in os.walk(top): body top dirs files].  The
    generator lists a directory when it reaches it, after the body has run
    for everything before it; a directory it cannot list is skipped. *)
Fixpoint walk_for (fuel : nat) (body : string → list string → list string → M unit)
  (top : string) : M unit :=
  match fuel with
  | O => lift OutOfFuel
  | S fuel' => λ w,
      match scandir cwd (fs w) top with
      | Ok (dirs, files) =>
          (body top dirs files;;
           for_each dirs (λ dirname,
             walk_for fuel' body (posixpath.join top dirname))) w
      | Raise _ => (w, Ok tt)
      | OutOfFuel => (w, OutOfFuel)
      end
  end.

(** The body of [for file in files] (lines 106-110): copy when the
    destination is missing or strictly older. *)
Definition sync_file (src_dir dest_dir file : string) : M unit :=
  let src_file := posixpath.join src_dir file in
  let dest_file := posixpath.join dest_dir file in
  dest_file_exists ← read (λ t, path_exists cwd t dest_file);
  newer ← (if negb dest_file_exists then ret true
           else (src_mtime ← getmtime_now src_file;
                 dest_mtime ← getmtime_now dest_file;
                 ret (src_mtime >? dest_mtime)) : M bool);
  if (newer : bool)
  then logged (CallCopy2 src_file dest_file) (λ t, copy2_tree cwd t src_file dest_file)
  else ret tt.

(** The body of [for src_dir, _, files in os.walk(src)] (lines 101-110). *)
Definition sync_dir (src dest src_dir : string) (files : list string) : M unit :=
  relative_dir ← lift (posixpath.relpath cwd src_dir src);
  let dest_dir := posixpath.join dest relative_dir in
  dest_dir_exists ← read (λ t, path_exists cwd t dest_dir);
  (if negb dest_dir_exists
   then logged (CallMakedirs dest_dir) (λ t, makedirs_tree cwd now false t dest_dir)
   else ret tt);;
  for_each files (sync_file src_dir dest_dir).

(** Lines 100-110 of [main.py], and again lines 118-128 with the two
    folders exchanged.  The walks of lines 94-97 and 112-115 only collect
    the file names whose number is the total of the progress bar; they
    read the tree and change nothing, and are left out. *)
Definition sync_pass (fuel : nat) (src dest : string) : M unit :=
  walk_for fuel (λ src_dir _ files, sync_dir src dest src_dir files) src.

(** [sync_folders_with_progress(src, dest)] *)
Definition sync_folders_with_progress (fuel : nat) (src dest : string) : M unit :=
  sync_pass fuel src dest;;
  sync_pass fuel dest src.

(** Lines 147-148 of [main.py]: the scan, called on the two folders and
    then on the two folders exchanged. *)
Definition startup_sync (fuel : nat) (a b : string) : M unit :=
  sync_folders_with_progress fuel a b;;
  sync_folders_with_progress fuel b a.

(** ** The live mirror *)

Record FileSystemEvent : Type := Event {
  event_type : string;
  src_path : string;
  dest_path : string
}.

Record MyEventHandler : Type := Handler {
  self_src_path : string;
  self_dest_path : string
}.

(** The body of the [try] of [on_any_event] (lines 53-87). *)
Definition handle_event (self : MyEventHandler) (event : FileSystemEvent) : M unit :=
  relative_path ← lift (posixpath.relpath cwd (src_path event) (self_src_path self));
  let dest_path' := posixpath.join (self_dest_path self) relative_path in
  if bool_decide (event_type event = "created") then
    src_is_dir ← read (λ t, isdir cwd t (src_path event));
    if (src_is_dir : bool) then
      logged (CallMakedirs dest_path') (λ t, makedirs_tree cwd now true t dest_path');;
      print stdout (Print ("Directory created: " +:+ src_path event +:+ " -> " +:+ dest_path'))
    else
      logged (CallCopy2 (src_path event) dest_path')
             (λ t, copy2_tree cwd t (src_path event) dest_path');;
      print stdout (Print ("File created: " +:+ src_path event +:+ " -> " +:+ dest_path'))
  else if bool_decide (event_type event = "modified") then
    src_is_dir ← read (λ t, isdir cwd t (src_path event));
    if negb src_is_dir then
      logged (CallCopy2 (src_path event) dest_path')
             (λ t, copy2_tree cwd t (src_path event) dest_path');;
      print stdout (Print ("File modified: " +:+ src_path event +:+ " -> " +:+ dest_path'))
    else ret tt
  else if bool_decide (event_type event = "deleted") then
    dest_is_dir ← read (λ t, isdir cwd t dest_path');
    if (dest_is_dir : bool) then
      logged (CallRmtree dest_path') (λ t, rmtree_tree cwd t dest_path');;
      print stdout (Print ("Directory deleted: " +:+ dest_path'))
    else
      dest_exists ← read (λ t, path_exists cwd t dest_path');
      if (dest_exists : bool) then
        logged (CallRemove dest_path') (λ t, remove_tree cwd t dest_path');;
        print stdout (Print ("File deleted: " +:+ dest_path'))
      else ret tt
  else if bool_decide (event_type event = "moved") then
    rel_new ← lift (posixpath.relpath cwd (dest_path event) (self_src_path self));
    let new_dest_path := posixpath.join (self_dest_path self) rel_new in
    logged (CallMove dest_path' new_dest_path)
           (λ t, move_tree cwd now t dest_path' new_dest_path);;
    print stdout (Print ("Moved: " +:+ src_path event +:+ " -> " +:+ new_dest_path))
  else ret tt.

(** [MyEventHandler.on_any_event(self, event)]: the [print] of the
    [except] clause (line 90) is outside the [try]; what it raises leaves
    the method. *)
Definition on_any_event (self : MyEventHandler) (event : FileSystemEvent) : M unit :=
  try_except (handle_event self event)
    (λ e, print stdout (PrintError (event_type event) (src_path event) e)).

(** The observer thread: the events delivered, handled one after another;
    an exception that leaves the handler ends the thread. *)
Definition dispatch (self : MyEventHandler) (events : list FileSystemEvent) : M unit :=
  for_each events (on_any_event self).

End Program.

(** ** What the handler prints

    The line printed after the copy of a created or modified file (lines
    64 and 70). *)
Definition copy_line (et src p : string) : string :=
  (if bool_decide (et = "created") then "File created: " else "File modified: ")
  +:+ src +:+ " -> " +:+ p.

(** ** What a pass is expected to leave

    [push s d] is what the destination holds after the source node [s] has
    been offered to the destination node [d]: a missing directory is made,
    a file is copied when the destination is missing or strictly older. *)
Definition push (now : Z) (s d : option node) : option node :=
  match s, d with
  | Some (File c m), None => Some (File c m)
  | Some (File c m), Some (File c' m') => if m >? m' then Some (File c m) else d
  | Some (Dir _), None => Some (Dir now)
  | _, _ => d
  end.

(** The node at key [k] after a pass from the folder at [ks] to the folder
    at [kd]. *)
Definition pass_at (now : Z) (t : tree) (ks kd : key) (k : key) : option node :=
  if decide (kd `prefix_of` k)
  then push now (t !! (ks ++ drop (List.length kd) k)) (t !! k)
  else t !! k.

(** The condition of lines 108 and 126 on a source file with modification
    time [m]: the destination holds nothing, or a file that is strictly
    older. *)
Definition outdated (m : Z) (d : option node) : Prop :=
  d = None ∨ ∃ c' m', d = Some (File c' m') ∧ m > m'.
#[global] Instance outdated_dec m d : Decision (outdated m d).
Proof.
  destruct d as [[c' m'|mt]|].
  - destruct (decide (m > m')) as [H|H]; [left; right; by eauto|right].
    by intros [?|(? & ? & [= _ <-] & ?)].
  - right. by intros [?|(? & ? & ? & ?)].
  - left. by left.
Defined.

(** The log [l] has a completed call of [copy2] from a path at the key [k1]
    to a path at the key [k2]. *)
Definition copied (cwd : string) (l : list entry) (k1 k2 : key) : Prop :=
  ∃ s d, Completed (CallCopy2 s d) ∈ l
         ∧ posixpath.abs_list cwd s = k1 ∧ posixpath.abs_list cwd d = k2.
#[global] Instance copied_dec cwd l k1 k2 : Decision (copied cwd l k1 k2).
Proof.
  set (P := λ en, match en with
                  | Completed (CallCopy2 s d) =>
                      posixpath.abs_list cwd s = k1 ∧ posixpath.abs_list cwd d = k2
                  | _ => False
                  end).
  assert (∀ en, Decision (P en)) as HP by (intros [[]| | |]; simpl; apply _).
  destruct (decide (Exists P l)) as [H|H]; [left|right].
  - apply Exists_exists in H as (en & Hen & HPen).
    destruct en as [[]| | |]; try done. destruct HPen. by eexists _, _.
  - intros (s & d & Hen & H1 & H2). apply H, Exists_exists.
    by exists (Completed (CallCopy2 s d)).
Defined.

(** Two folders can be reconciled when no relative path is a file in one
    and a directory in the other. *)
Definition compatible (o1 o2 : option node) : Prop :=
  match o1, o2 with
  | Some (File _ _), Some (Dir _) | Some (Dir _), Some (File _ _) => False
  | _, _ => True
  end.
#[global] Instance compatible_dec o1 o2 : Decision (compatible o1 o2).
Proof. destruct o1 as [[]|], o2 as [[]|]; simpl; apply _. Defined.

Definition no_conflict (t : tree) (ka kb : key) : Prop :=
  map_Forall (λ k n, ka `prefix_of` k →
                     compatible (Some n) (t !! (kb ++ drop (List.length ka) k))) t.
#[global] Instance no_conflict_dec t ka kb : Decision (no_conflict t ka kb).
Proof. unfold no_conflict. apply _. Defined.

(** Every key is shorter than [fuel]: the walks have budget enough. *)
Definition shallow (t : tree) (fuel : nat) : Prop :=
  map_Forall (λ (k : key) (_ : node), (List.length k < fuel)%nat) t.
#[global] Instance shallow_dec t fuel : Decision (shallow t fuel).
Proof. unfold shallow. apply _. Defined.

(** Neither folder lies in the other. *)
Definition apart (ka kb : key) : Prop :=
  ¬ ka `prefix_of` kb ∧ ¬ kb `prefix_of` ka.
#[global] Instance apart_dec ka kb : Decision (apart ka kb).
Proof. unfold apart. apply _. Defined.

(** The preconditions of a scan of the folders [a] and [b], which resolve
    to the keys [ka] and [kb]: a well-formed tree, two directories neither
    of which lies in the other, no file facing a directory, and budget
    enough for the depth of the tree. *)
Definition syncable (cwd : string) (t : tree) (fuel : nat)
    (a b : string) (ka kb : key) : Prop :=
  posixpath.isabs cwd = true ∧ wf_tree t
  ∧ namei cwd t a = Ok ka ∧ namei cwd t b = Ok kb
  ∧ is_dir_node (t !! ka) = true ∧ is_dir_node (t !! kb) = true
  ∧ apart ka kb ∧ no_conflict t ka kb ∧ shallow t fuel.

#[global] Instance syncable_dec cwd t fuel a b ka kb :
  Decision (syncable cwd t fuel a b ka kb).
Proof. unfold syncable. apply _. Defined.

(** Files of the two folders with equal modification times have equal
    content. *)
Definition tie_free (t : tree) (ka kb : key) : Prop :=
  map_Forall (λ k n, ka `prefix_of` k →
    match n, t !! (kb ++ drop (List.length ka) k) with
    | File c m, Some (File c' m') => m = m' → c = c'
    | _, _ => True
    end) t.
#[global] Instance tie_free_dec t ka kb : Decision (tie_free t ka kb).
Proof.
  unfold tie_free. apply map_Forall_dec. intros k n.
  destruct n as [c m|]; [|apply _].
  destruct (t !! (kb ++ drop (List.length ka) k)) as [[c' m'|]|]; apply _.
Defined.

(** The most recently modified of two copies of a file. *)
Definition newest (a b : option node) : option node :=
  match a, b with
  | Some (File c m), Some (File c' m') => if m' >? m then b else a
  | Some (File _ _), _ => a
  | _, Some (File _ _) => b
  | _, _ => None
  end.

(** ** Example trees *)

(** The scenario of the specification: [notes/todo.txt] is newer in [A],
    [photo.png] is in [B] only; and [A] has an empty directory. *)
Definition tree_notes : tree :=
  list_to_map [
    ([], Dir 0); (["A"], Dir 1); (["B"], Dir 1);
    (["A"; "notes"], Dir 2); (["A"; "notes"; "todo.txt"], File "new" 10);
    (["A"; "empty"], Dir 2);
    (["B"; "notes"], Dir 2); (["B"; "notes"; "todo.txt"], File "old" 5);
    (["B"; "photo.png"], File "img" 7) ].

(** The same file name with the same modification time and two contents. *)
Definition tree_tie : tree :=
  list_to_map [
    ([], Dir 0); (["A"], Dir 1); (["B"], Dir 1);
    (["A"; "f"], File "x" 5); (["B"; "f"], File "y" 5) ].

(** After [/A/x] has been renamed over the empty directory [/A/y]: the
    mirror [/B] still has [x] with its file and the empty [y]. *)
Definition tree_renamed : tree :=
  list_to_map [
    ([], Dir 0); (["A"], Dir 1); (["B"], Dir 1);
    (["A"; "y"], Dir 2); (["A"; "y"; "f"], File "data" 3);
    (["B"; "x"], Dir 2); (["B"; "x"; "f"], File "data" 3);
    (["B"; "y"], Dir 4) ].

(** [/A/f] has been renamed to [/A/g]; the mirror has [f]. *)
Definition tree_moved_file : tree :=
  list_to_map [
    ([], Dir 0); (["A"], Dir 1); (["B"], Dir 1);
    (["A"; "g"], File "data" 3); (["B"; "f"], File "data" 3) ].

(** [/A/d] is a directory with a file, [/B/d] is a file; [/B/only.txt] is
    on the [B] side only. *)
Definition tree_blocked : tree :=
  list_to_map [
    ([], Dir 0); (["A"], Dir 1); (["B"], Dir 1);
    (["A"; "d"], Dir 2); (["A"; "d"; "f"], File "x" 3);
    (["B"; "d"], File "y" 4); (["B"; "only.txt"], File "z" 5) ].

(** [/A/x/y] has been made, directory in directory; the mirror has
    neither yet. *)
Definition tree_deep : tree :=
  list_to_map [
    ([], Dir 0); (["A"], Dir 1); (["B"], Dir 1);
    (["A"; "x"], Dir 2); (["A"; "x"; "y"], Dir 3) ].

(** Before the first run: [/A] has its files, [/B] is not there. *)
Definition tree_first_run : tree :=
  list_to_map [
    ([], Dir 0); (["A"], Dir 1);
    (["A"; "notes"], Dir 2); (["A"; "notes"; "todo.txt"], File "new" 10);
    (["A"; "empty"], Dir 2) ].

(** [/A/B] is the second folder, inside the first. *)
Definition tree_nested : tree :=
  list_to_map [
    ([], Dir 0); (["A"], Dir 1); (["A"; "f"], File "x" 5); (["A"; "B"], Dir 2) ].

(** [/A/f] has been moved to [/A/d/f]; the mirror has [f] and no [d]. *)
Definition tree_moved_deeper : tree :=
  list_to_map [
    ([], Dir 0); (["A"], Dir 1); (["B"], Dir 1);
    (["A"; "d"], Dir 2); (["A"; "d"; "f"], File "data" 3);
    (["B"; "f"], File "data" 3) ].

(** ** Two standard outputs *)

(** One that takes every line. *)
Definition stdout_open : entry → option exn := λ _, None.

(** One whose reader has gone: every write raises [BrokenPipeError]. *)
Definition stdout_closed : entry → option exn := λ _, Some OSError.


(** * Properties *)

(** ** Strings and their components *)

Module path_facts.
Import posixpath.

Lemma str_app_cons c a b : String c a +:+ b = String c (a +:+ b).
Proof. reflexivity. Qed.
Lemma str_app_nil_l a : "" +:+ a = a.
Proof. reflexivity. Qed.
Lemma str_app_nil_r a : a +:+ "" = a.
Proof. induction a as [|c a IH]; [done|]. by rewrite str_app_cons, IH. Qed.
Lemma str_app_assoc a b c : (a +:+ b) +:+ c = a +:+ (b +:+ c).
Proof. induction a as [|x a IH]; [done|]. by rewrite !str_app_cons, IH. Qed.

Lemma is_sep_slash c : is_sep c = true ↔ c = "/"%char.
Proof. unfold is_sep. apply Ascii.eqb_eq. Qed.

Lemma nonempty_true s : nonempty s = true ↔ s ≠ "".
Proof. destruct s; simpl; split; congruence. Qed.
Lemma nonempty_false s : nonempty s = false ↔ s = "".
Proof. destruct s; simpl; split; congruence. Qed.

Lemma split_sep_nonnil s : split_sep s ≠ [].
Proof.
  destruct s as [|c s]; simpl; [done|].
  destruct (is_sep c); [done|]. by destruct (split_sep s).
Qed.

Lemma split_sep_cons_sep s : split_sep (String "/" s) = "" :: split_sep s.
Proof. reflexivity. Qed.

Lemma split_sep_app_sep a b :
  split_sep (a +:+ "/" +:+ b) = split_sep a ++ split_sep b.
Proof.
  induction a as [|c a IH]; [done|].
  rewrite str_app_cons. simpl. rewrite IH.
  destruct (is_sep c); [done|].
  pose proof (split_sep_nonnil a). by destruct (split_sep a).
Qed.

Lemma split_sep_no_sep c : has_sep c = false → split_sep c = [c].
Proof.
  induction c as [|x c IH]; simpl; [done|].
  intros [Hx Hc]%orb_false_iff. rewrite Hx, (IH Hc). done.
Qed.

Lemma split_sep_has_sep s : Forall (λ c, has_sep c = false) (split_sep s).
Proof.
  induction s as [|x s IH]; simpl; [by repeat constructor|].
  destruct (is_sep x) eqn:Hx; [by constructor|].
  destruct (split_sep s) as [|w ws].
  - constructor; [simpl; by rewrite Hx|constructor].
  - inversion IH; subst. constructor; [|done]. simpl. by rewrite Hx.
Qed.

Lemma split_sep_join_sep ns :
  ns ≠ [] → Forall (λ c, has_sep c = false) ns → split_sep (join_sep ns) = ns.
Proof.
  induction ns as [|c ns IH]; [done|]. intros _ Hns.
  inversion Hns as [|?? Hc Hns']; subst.
  destruct ns as [|c' ns]; [by apply split_sep_no_sep|].
  change (join_sep (c :: c' :: ns)) with (c +:+ "/" +:+ join_sep (c' :: ns)).
  rewrite split_sep_app_sep, split_sep_no_sep by done.
  by rewrite IH.
Qed.

Lemma endswith_sep_app a : endswith_sep a = true → ∃ a', a = a' +:+ "/".
Proof.
  induction a as [|c a IH]; simpl; [done|].
  destruct a as [|c' a].
  - intros ->%is_sep_slash. by exists "".
  - intros [a' Ha]%IH. exists (String c a'). by rewrite str_app_cons, <- Ha.
Qed.

Lemma endswith_sep_snoc a : endswith_sep (a +:+ "/") = true.
Proof.
  induction a as [|c a IH]; [done|]. rewrite str_app_cons. simpl.
  destruct (a +:+ "/") eqn:E; [by destruct a|done].
Qed.

Lemma endswith_sep_app_r a b : b ≠ "" → endswith_sep (a +:+ b) = endswith_sep b.
Proof.
  intros Hb. induction a as [|c a IH]; [done|]. rewrite str_app_cons. simpl.
  destruct (a +:+ b) eqn:E; [|done].
  destruct a; [by rewrite str_app_nil_l in E|done].
Qed.

Lemma split_sep_snoc_sep a : split_sep (a +:+ "/") = split_sep a ++ [""].
Proof. by rewrite <- (str_app_nil_r (a +:+ "/")), str_app_assoc, split_sep_app_sep. Qed.

Lemma isabs_app a b : a ≠ "" → isabs (a +:+ b) = isabs a.
Proof. by destruct a. Qed.

Lemma proper_not_abs c : proper_name c → isabs c = false.
Proof.
  intros (Hne & _ & _ & Hs). destruct c as [|x c]; [done|].
  simpl in *. by apply orb_false_iff in Hs as [-> _].
Qed.

Lemma proper_not_skipped c : proper_name c → is_skipped c = false.
Proof.
  intros (? & ? & _). unfold is_skipped.
  by rewrite !bool_decide_eq_false_2.
Qed.

Lemma proper_not_dotdot c : proper_name c → is_dotdot c = false.
Proof. intros (? & ? & ? & _). unfold is_dotdot. by rewrite bool_decide_eq_false_2. Qed.

Lemma proper_no_sep ns :
  Forall proper_name ns → Forall (λ c, has_sep c = false) ns.
Proof. intros H. eapply Forall_impl; [done|]. by intros c (_ & _ & _ & ?). Qed.

Lemma join_sep_cons c ns :
  ns ≠ [] → join_sep (c :: ns) = c +:+ "/" +:+ join_sep ns.
Proof. by destruct ns. Qed.

Lemma join_sep_proper_nonempty ns :
  ns ≠ [] → Forall proper_name ns → join_sep ns ≠ "".
Proof.
  destruct ns as [|c ns]; [done|]. intros _ Hns.
  inversion Hns as [|?? (Hc & _) _]; subst.
  destruct ns; simpl; [done|]. by destruct c.
Qed.

Lemma join_sep_proper_not_abs ns :
  Forall proper_name ns → isabs (join_sep ns) = false.
Proof.
  destruct ns as [|c ns]; [done|]. intros Hns.
  inversion Hns as [|?? Hc _]; subst.
  pose proof (proper_not_abs _ Hc). destruct Hc as (Hne & _).
  destruct ns; simpl; [done|]. by rewrite isabs_app.
Qed.

(** [os.path.join] on a relative second argument appends it, with a slash
    in between unless the first ends in one or is empty. *)
Lemma join_rel a b :
  isabs b = false →
  join a b = if negb (nonempty a) || endswith_sep a then a +:+ b else a +:+ "/" +:+ b.
Proof. unfold join. by intros ->. Qed.

Lemma no_sep_endswith c : has_sep c = false → endswith_sep c = false.
Proof.
  induction c as [|x c IH]; simpl; [done|].
  intros [Hx Hc]%orb_false_iff. destruct c; [done|]. by apply IH.
Qed.

Lemma join_plain a b :
  a ≠ "" → endswith_sep a = false → isabs b = false → join a b = a +:+ "/" +:+ b.
Proof.
  intros Ha He Hb. rewrite join_rel by done.
  apply nonempty_true in Ha. by rewrite Ha, He.
Qed.

Lemma join_all_proper a ns :
  a ≠ "" → endswith_sep a = false → ns ≠ [] → Forall proper_name ns →
  join_all a ns = a +:+ "/" +:+ join_sep ns.
Proof.
  unfold join_all. revert a. induction ns as [|c ns IH]; intros a Ha He Hne Hns; [done|].
  inversion Hns as [|?? Hc Hns']; subst. simpl fold_left.
  rewrite (join_plain a c) by auto using proper_not_abs.
  destruct ns as [|c' ns]; [done|].
  rewrite IH; [|by destruct a| |done|done].
  - by rewrite !str_app_assoc.
  - destruct Hc as (Hc & _ & _ & Hs).
    rewrite !endswith_sep_app_r by (by destruct c).
    by apply no_sep_endswith.
Qed.

Lemma join_all_join_sep c ns :
  Forall proper_name (c :: ns) → join_all c ns = join_sep (c :: ns).
Proof.
  intros Hns. inversion Hns as [|?? Hc Hns']; subst.
  destruct ns as [|c' ns]; [done|].
  destruct Hc as (Hc & _ & _ & Hs).
  rewrite join_all_proper; auto using no_sep_endswith.
Qed.

(** *** [normpath] on absolute paths *)

Lemma norm_step_skipped k acc c : is_skipped c = true → norm_step k acc c = acc.
Proof. unfold norm_step. by intros ->. Qed.

Lemma norm_step_proper k acc c : proper_name c → norm_step k acc c = acc ++ [c].
Proof.
  intros Hc. unfold norm_step.
  by rewrite proper_not_skipped, proper_not_dotdot.
Qed.

Lemma norm_step_pos k acc c : k ≠ 0%nat → norm_step k acc c = norm_step 1 acc c.
Proof.
  intros Hk. unfold norm_step.
  by rewrite (bool_decide_eq_false_2 (k = 0%nat)), (bool_decide_eq_false_2 (1 = 0)%nat).
Qed.

Lemma norm_fold_pos k l acc :
  k ≠ 0%nat → fold_left (norm_step k) l acc = fold_left (norm_step 1) l acc.
Proof.
  intros Hk. revert acc. induction l as [|c l IH]; intros acc; [done|].
  simpl. by rewrite IH, norm_step_pos.
Qed.

Lemma norm_fold_proper k ns acc :
  Forall proper_name ns → fold_left (norm_step k) ns acc = acc ++ ns.
Proof.
  revert acc. induction ns as [|c ns IH]; intros acc Hns; simpl.
  - by rewrite List.app_nil_r.
  - inversion Hns; subst. rewrite norm_step_proper, IH by done.
    by rewrite <- List.app_assoc.
Qed.

Lemma proper_last_not_dotdot acc :
  Forall proper_name acc → is_dotdot (List.last acc "") = false.
Proof.
  induction acc as [|c acc IH]; [done|]. intros Hacc.
  inversion Hacc; subst. destruct acc as [|c' acc]; [by apply proper_not_dotdot|].
  by apply IH.
Qed.

Lemma Forall_removelast {A} (P : A → Prop) l : Forall P l → Forall P (removelast l).
Proof.
  induction l as [|x l IH]; [done|]. intros Hl. inversion Hl; subst.
  destruct l; [constructor|]. constructor; [done|]. by apply IH.
Qed.

Lemma not_skipped_dotdot_proper c :
  has_sep c = false → is_skipped c = false → is_dotdot c = false → proper_name c.
Proof.
  unfold is_skipped, is_dotdot. intros Hs [H1 H2]%orb_false_iff H3.
  apply bool_decide_eq_false in H1, H2, H3. done.
Qed.

Lemma norm_fold_clean l acc :
  Forall (λ c, has_sep c = false) l → Forall proper_name acc →
  Forall proper_name (fold_left (norm_step 1) l acc).
Proof.
  revert acc. induction l as [|c l IH]; intros acc Hl Hacc; [done|].
  inversion Hl; subst. simpl. apply IH; [done|].
  unfold norm_step. destruct (is_skipped c) eqn:Hsk; [done|].
  destruct (is_dotdot c) eqn:Hdd; simpl.
  - rewrite proper_last_not_dotdot, andb_false_r by done.
    by apply Forall_removelast.
  - apply Forall_app; split; [done|]. apply Forall_singleton.
    by apply not_skipped_dotdot_proper.
Qed.

Lemma isabs_initial_slashes s : isabs s = true → initial_slashes s ≠ 0%nat.
Proof.
  destruct s as [|c1 s]; simpl; [done|]. intros ->.
  destruct s as [|c2 s]; [done|]. destruct (is_sep c2); [|done].
  destruct s as [|c3 s]; [done|]. by destruct (is_sep c3).
Qed.

Lemma slashes_str_S k s : slashes_str (S k) +:+ s = String "/" (slashes_str k +:+ s).
Proof. reflexivity. Qed.

Lemma split_sep_slashes k s :
  split_sep (slashes_str k +:+ s) = repeat "" k ++ split_sep s.
Proof.
  induction k as [|k IH]; [done|].
  by rewrite slashes_str_S, split_sep_cons_sep, IH.
Qed.

Lemma filter_nonempty_repeat k l :
  List.filter nonempty (repeat "" k ++ l) = List.filter nonempty l.
Proof. induction k; simpl; auto. Qed.

Lemma filter_nonempty_proper ns :
  Forall proper_name ns → List.filter nonempty ns = ns.
Proof.
  induction 1 as [|c ns (Hc & _) _ IH]; [done|]. simpl.
  apply nonempty_true in Hc. by rewrite Hc, IH.
Qed.

Lemma filter_split_join ns :
  Forall proper_name ns → List.filter nonempty (split_sep (join_sep ns)) = ns.
Proof.
  intros Hns. destruct ns as [|c ns]; [done|].
  rewrite split_sep_join_sep by auto using proper_no_sep.
  by apply filter_nonempty_proper.
Qed.

Lemma isabs_full_path cwd q : isabs cwd = true → isabs (full_path cwd q) = true.
Proof.
  intros Hcwd. unfold full_path. destruct (isabs q) eqn:Hq; [done|].
  rewrite join_rel by done.
  destruct (_ || _); by rewrite isabs_app by (by destruct cwd).
Qed.

(** The components of an absolute path are what the loop of [normpath]
    leaves of its split. *)
Lemma abs_list_eq cwd q :
  isabs cwd = true →
  abs_list cwd q = norm_comps 1 (split_sep (full_path cwd q)).
Proof.
  intros Hcwd. pose proof (isabs_full_path cwd q Hcwd) as Habs.
  unfold abs_list, abspath. fold (full_path cwd q).
  set (F := full_path cwd q) in *. unfold normpath.
  assert (nonempty F = true) as -> by (by destruct F). simpl negb. cbv iota.
  pose proof (isabs_initial_slashes F Habs) as Hk.
  set (k := initial_slashes F) in *.
  unfold norm_comps. rewrite (norm_fold_pos k) by done.
  set (cs := fold_left (norm_step 1) (split_sep F) []).
  assert (Forall proper_name cs) as Hcs.
  { apply norm_fold_clean; [apply split_sep_has_sep|constructor]. }
  assert (nonempty (slashes_str k +:+ join_sep cs) = true) as ->.
  { destruct k; [done|]. by rewrite slashes_str_S. }
  by rewrite split_sep_slashes, filter_nonempty_repeat, filter_split_join.
Qed.

Lemma abs_list_proper cwd q : isabs cwd = true → Forall proper_name (abs_list cwd q).
Proof.
  intros Hcwd. rewrite abs_list_eq by done.
  apply norm_fold_clean; [apply split_sep_has_sep|constructor].
Qed.

(** *** Joining a relative path onto a root *)

Lemma join_nonempty a b : b ≠ "" → join a b ≠ "".
Proof.
  intros Hb. unfold join. destruct (isabs b); [done|].
  destruct (_ || _); destruct a; try done; by destruct b.
Qed.

Lemma app_nonempty a b : a ≠ "" → a +:+ b ≠ "".
Proof. by destruct a. Qed.

Lemma join_ne a x :
  a ≠ "" → isabs x = false →
  join a x = if endswith_sep a then a +:+ x else a +:+ "/" +:+ x.
Proof.
  intros Ha Hx. rewrite join_rel by done.
  apply nonempty_true in Ha. by rewrite Ha.
Qed.

Lemma join_empty_l x : isabs x = false → join "" x = x.
Proof. intros Hx. unfold join. by rewrite Hx. Qed.

Lemma full_path_join cwd R x :
  isabs cwd = true → isabs x = false →
  full_path cwd (join R x) = join (full_path cwd R) x.
Proof.
  intros Hcwd Hx. assert (cwd ≠ "") as Hne by (by destruct cwd).
  unfold full_path. destruct (decide (R = "")) as [->|HR].
  - rewrite join_empty_l, Hx by done. simpl isabs. cbv iota.
    rewrite (join_ne cwd "") by done. rewrite !(join_ne _ x); [|destruct (endswith_sep cwd); by apply app_nonempty|done..].
    destruct (endswith_sep cwd) eqn:He.
    + by rewrite str_app_nil_r, He.
    + by rewrite str_app_nil_r, endswith_sep_snoc, str_app_assoc.
  - rewrite (join_ne R x) by done.
    assert (isabs (if endswith_sep R then R +:+ x else R +:+ "/" +:+ x) = isabs R) as ->.
    { destruct (endswith_sep R); by rewrite isabs_app. }
    destruct (isabs R) eqn:HabsR; [by rewrite join_ne|].
    rewrite (join_ne cwd R) by done.
    rewrite (join_ne cwd);
      [|done|destruct (endswith_sep R); by rewrite isabs_app].
    rewrite (join_ne _ x); [|destruct (endswith_sep cwd); by apply app_nonempty|done].
    destruct (endswith_sep cwd), (endswith_sep R) eqn:He;
      rewrite ?endswith_sep_app_r by done; rewrite ?He;
      by rewrite ?str_app_assoc.
Qed.

(** The split of a joined path: the components of the root, without the
    empty component a trailing slash of the root leaves, then those of the
    relative part. *)
Lemma split_sep_join F x :
  F ≠ "" → isabs x = false →
  ∃ l, split_sep (join F x) = l ++ split_sep x
       ∧ (split_sep F = l ∨ split_sep F = l ++ [""]).
Proof.
  intros HF Hx. rewrite join_rel by done.
  apply nonempty_true in HF. rewrite HF. simpl negb. rewrite orb_false_l.
  destruct (endswith_sep F) eqn:He.
  - apply endswith_sep_app in He as [F' ->].
    exists (split_sep F'). rewrite str_app_assoc, split_sep_app_sep.
    split; [done|]. right. apply split_sep_snoc_sep.
  - exists (split_sep F). by rewrite split_sep_app_sep; auto.
Qed.

Lemma abs_list_join cwd R x :
  isabs cwd = true → isabs x = false →
  abs_list cwd (join R x) =
    fold_left (norm_step 1) (split_sep x) (abs_list cwd R).
Proof.
  intros Hcwd Hx. rewrite !abs_list_eq, full_path_join by done.
  pose proof (isabs_full_path cwd R Hcwd) as Habs.
  destruct (split_sep_join (full_path cwd R) x) as (l & -> & [->| ->]);
    [by destruct (full_path cwd R)|done|..];
    unfold norm_comps; rewrite !fold_left_app; [done|].
  simpl. by rewrite norm_step_skipped.
Qed.

Lemma abs_list_join_names cwd R ns :
  isabs cwd = true → ns ≠ [] → Forall proper_name ns →
  abs_list cwd (join R (join_sep ns)) = abs_list cwd R ++ ns.
Proof.
  intros Hcwd Hne Hns.
  rewrite abs_list_join by auto using join_sep_proper_not_abs.
  rewrite split_sep_join_sep by auto using proper_no_sep.
  by apply norm_fold_proper.
Qed.

Lemma abs_list_join_dot cwd R :
  isabs cwd = true → abs_list cwd (join R ".") = abs_list cwd R.
Proof. intros Hcwd. by rewrite abs_list_join. Qed.

(** *** [relpath] below its start *)

Lemma common_len_app (l ns : list string) : common_len l (l ++ ns) = List.length l.
Proof.
  induction l as [|c l IH]; simpl; [by destruct ns|].
  by rewrite bool_decide_eq_true_2, IH.
Qed.

Lemma relpath_under cwd p R ns :
  isabs cwd = true → p ≠ "" →
  abs_list cwd p = abs_list cwd R ++ ns →
  relpath cwd p R = Ok (rel_of ns).
Proof.
  intros Hcwd Hp Hpl. unfold relpath.
  apply nonempty_true in Hp. rewrite Hp. simpl negb. cbv iota.
  assert (Forall proper_name ns) as Hns.
  { pose proof (abs_list_proper cwd p Hcwd) as H. rewrite Hpl in H.
    by apply Forall_app in H as [_ ?]. }
  rewrite Hpl, common_len_app, Nat.sub_diag, drop_app_length. simpl.
  destruct ns as [|a ns]; [done|]. by rewrite join_all_join_sep.
Qed.

Lemma rel_of_not_abs ns : Forall proper_name ns → isabs (rel_of ns) = false.
Proof. destruct ns; [done|]. apply join_sep_proper_not_abs. Qed.

Lemma abs_list_join_rel cwd R ns :
  isabs cwd = true → Forall proper_name ns →
  abs_list cwd (join R (rel_of ns)) = abs_list cwd R ++ ns.
Proof.
  intros Hcwd Hns. destruct ns as [|c ns].
  - by rewrite abs_list_join_dot, List.app_nil_r.
  - by apply abs_list_join_names.
Qed.

Lemma rel_of_nonempty ns : Forall proper_name ns → rel_of ns ≠ "".
Proof. destruct ns; [done|]. by apply join_sep_proper_nonempty. Qed.

End path_facts.

(** ** Calls return or raise: the recursion budget of [makedirs] is enough *)

Module fuel_facts.
Import posixpath path_facts.

Lemma str_length_app a b :
  String.length (a +:+ b) = (String.length a + String.length b)%nat.
Proof. induction a as [|c a IH]; [done|]. rewrite str_app_cons. simpl. by rewrite IH. Qed.

Lemma rfind_split_app p : p = (rfind_split p).1 +:+ (rfind_split p).2.
Proof.
  induction p as [|c p IH]; [done|]. simpl.
  destruct (rfind_split p) as [h t]. simpl in IH.
  destruct (nonempty h) eqn:Hh; simpl.
  - by rewrite str_app_cons, <- IH.
  - apply nonempty_false in Hh. subst h. rewrite str_app_nil_l in IH. subst p.
    by destruct (is_sep c).
Qed.

Lemma rstrip_sep_length s : (String.length (rstrip_sep s) ≤ String.length s)%nat.
Proof.
  induction s as [|c s IH]; simpl; [done|].
  destruct (negb (nonempty (rstrip_sep s)) && is_sep c); simpl; lia.
Qed.

Lemma split_length p :
  (String.length (split p).1 + String.length (split p).2 ≤ String.length p)%nat.
Proof.
  unfold split. pose proof (rfind_split_app p) as Hp.
  destruct (rfind_split p) as [h t]. simpl in Hp.
  apply (f_equal String.length) in Hp. rewrite str_length_app in Hp.
  pose proof (rstrip_sep_length h).
  destruct (nonempty h && negb (all_sep h)); simpl; lia.
Qed.

Lemma nonempty_length s : nonempty s = true → (0 < String.length s)%nat.
Proof. destruct s; simpl; [done|lia]. Qed.

Section Fuel.
Variable cwd : string.
Variable now : Z.

Lemma namei_fold_fuel t l r :
  r ≠ OutOfFuel → fold_left (namei_step t) l r ≠ OutOfFuel.
Proof.
  revert r. induction l as [|c l IH]; intros r Hr; [done|].
  simpl. apply IH. destruct r as [k|e|]; [|done..]. unfold namei_step.
  destruct (t !! k) as [[]|]; [done| |done].
  destruct (is_skipped c); [done|]. by destruct (is_dotdot c).
Qed.

Lemma namei_fuel t p : namei cwd t p ≠ OutOfFuel.
Proof. unfold namei. destruct (negb _); [done|]. by apply namei_fold_fuel. Qed.

Lemma relpath_fuel p start : relpath cwd p start ≠ OutOfFuel.
Proof. unfold relpath. destruct (negb _); [done|]. by destruct (_ ++ _). Qed.

Lemma stat_fuel t p : stat cwd t p ≠ OutOfFuel.
Proof.
  unfold stat. pose proof (namei_fuel t p).
  destruct (namei cwd t p) as [k|e|]; simpl; [|done..]. by destruct (t !! k).
Qed.

Lemma mkdir_fuel t p : mkdir cwd now t p ≠ OutOfFuel.
Proof.
  unfold mkdir. pose proof (namei_fuel t p).
  destruct (namei cwd t p) as [k|e|]; simpl; [|done..]. by destruct (t !! k).
Qed.

Lemma makedirs_go_fuel fuel exist_ok t name :
  (String.length name < fuel)%nat → (makedirs_go cwd now fuel exist_ok t name).2 ≠ OutOfFuel.
Proof.
  revert t name. induction fuel as [|fuel IH]; intros t name Hlen; [lia|].
  simpl. pose proof (split_length name) as Hs1.
  destruct (split name) as [h1 t1]. simpl in Hs1.
  assert (∀ t1', (match mkdir cwd now t1' name with
                  | Ok t2 => (t2, Ok tt)
                  | Raise e =>
                      if negb exist_ok || negb (isdir cwd t1' name)
                      then (t1', Raise e) else (t1', Ok tt)
                  | OutOfFuel => (t1', OutOfFuel)
                  end).2 ≠ (OutOfFuel : result unit)) as Hmk.
  { intros t1'. pose proof (mkdir_fuel t1' name).
    destruct (mkdir cwd now t1' name); [done| |done].
    by destruct (_ || _). }
  set (ht := if negb (nonempty t1) then split h1 else (h1, t1)).
  assert (nonempty ht.2 = true → String.length ht.1 < String.length name)%nat as Hht.
  { unfold ht. destruct (nonempty t1) eqn:Ht1; simpl.
    - intros _. apply nonempty_length in Ht1. lia.
    - pose proof (split_length h1). intros ?%nonempty_length. lia. }
  destruct ht as [head tail]. simpl in Hht.
  destruct (nonempty head && nonempty tail && negb (path_exists cwd t head)) eqn:Hc;
    [|apply Hmk].
  apply andb_true_iff in Hc as [[_ Htl]%andb_true_iff _].
  specialize (IH t head ltac:(specialize (Hht Htl); lia)).
  destruct (makedirs_go cwd now fuel exist_ok t head) as [t1' r]. simpl in IH.
  destruct r as [[]|e|]; [| |done].
  - destruct (bool_decide _); [done|apply Hmk].
  - destruct e; try done; (destruct (bool_decide _); [done|apply Hmk]).
Qed.

Lemma makedirs_tree_fuel exist_ok t name :
  (makedirs_tree cwd now exist_ok t name).2 ≠ OutOfFuel.
Proof. apply makedirs_go_fuel. lia. Qed.

Lemma copyfile_tree_fuel t src dst : (copyfile_tree cwd t src dst).2 ≠ OutOfFuel.
Proof.
  unfold copyfile_tree. destruct (samefile cwd t src dst); [done|].
  pose proof (stat_fuel t src). destruct (stat cwd t src) as [[]|e|]; [|done..].
  pose proof (namei_fuel t dst). destruct (namei cwd t dst) as [k|e|]; [|done..].
  by destruct (t !! k) as [[]|].
Qed.

Lemma copy2_tree_fuel t src dst : (copy2_tree cwd t src dst).2 ≠ OutOfFuel.
Proof. apply copyfile_tree_fuel. Qed.

Lemma remove_tree_fuel t p : (remove_tree cwd t p).2 ≠ OutOfFuel.
Proof.
  unfold remove_tree. pose proof (namei_fuel t p).
  destruct (namei cwd t p) as [k|e|]; [|done..]. by destruct (t !! k) as [[]|].
Qed.

Lemma rmtree_tree_fuel t p : (rmtree_tree cwd t p).2 ≠ OutOfFuel.
Proof.
  unfold rmtree_tree. pose proof (namei_fuel t p).
  destruct (namei cwd t p) as [k|e|]; [|done..].
  destruct (t !! k) as [[|mt]|]; [done| |done]. destruct (last_name p); [done|].
  cbv zeta. by destruct (namei cwd (<[k := Dir mt]> (prune k t)) p).
Qed.

Lemma rename_tree_fuel t src dst : rename_tree cwd t src dst ≠ OutOfFuel.
Proof.
  unfold rename_tree. pose proof (namei_fuel t src).
  destruct (namei cwd t src) as [ks|e|]; simpl; [|done..].
  pose proof (namei_fuel t dst).
  destruct (namei cwd t dst) as [kd|e|]; simpl; [|done..].
  destruct (negb _); [done|].
  destruct (t !! ks) as [[]|]; [| |done];
    repeat (match goal with |- context [if ?b then _ else _] => destruct b end); done.
Qed.

Lemma copytree_tree_fuel t src dst : (copytree_tree cwd now t src dst).2 ≠ OutOfFuel.
Proof.
  unfold copytree_tree.
  assert (scandir cwd t src ≠ OutOfFuel) as Hsc.
  { unfold scandir. pose proof (namei_fuel t src).
    destruct (namei cwd t src) as [k|e|]; simpl; [|done..].
    by destruct (t !! k) as [[]|]. }
  destruct (scandir cwd t src); [|done..].
  pose proof (makedirs_tree_fuel false t dst) as Hm.
  destruct (makedirs_tree cwd now false t dst) as [t1 r]. simpl in Hm.
  destruct r; [|done..].
  by destruct (namei cwd t1 src), (namei cwd t1 dst).
Qed.

Lemma seq_tree_fuel r1 f :
  r1.2 ≠ OutOfFuel → (∀ t, (f t).2 ≠ OutOfFuel) → (seq_tree r1 f).2 ≠ OutOfFuel.
Proof. destruct r1 as [t1 [| |]]; simpl; auto. Qed.

Lemma move_tree_fuel t src dst : (move_tree cwd now t src dst).2 ≠ OutOfFuel.
Proof.
  unfold move_tree.
  assert (∀ real_dst,
    (match rename_tree cwd t src real_dst with
     | Ok t1 => (t1, Ok tt)
     | OutOfFuel => (t, OutOfFuel)
     | Raise _ =>
         if isdir cwd t src then
           if destinsrc cwd src dst then (t, Raise ShutilError)
           else seq_tree (copytree_tree cwd now t src real_dst)
                         (λ t1, rmtree_tree cwd t1 src)
         else seq_tree (copy2_tree cwd t src real_dst)
                       (λ t1, remove_tree cwd t1 src)
     end).2 ≠ (OutOfFuel : result unit)) as Hfin.
  { intros real_dst. pose proof (rename_tree_fuel t src real_dst).
    destruct (rename_tree cwd t src real_dst); [done| |done].
    destruct (isdir cwd t src).
    - destruct (destinsrc cwd src dst); [done|].
      apply seq_tree_fuel; [apply copytree_tree_fuel|intros; apply rmtree_tree_fuel].
    - apply seq_tree_fuel; [apply copy2_tree_fuel|intros; apply remove_tree_fuel]. }
  destruct (isdir cwd t dst); [|apply Hfin].
  destruct (samefile cwd t src dst).
  - pose proof (rename_tree_fuel t src dst). by destruct (rename_tree cwd t src dst).
  - destruct (path_exists cwd t _); [done|apply Hfin].
Qed.

End Fuel.
End fuel_facts.

(** ** Path resolution *)

Module namei_facts.
Import posixpath path_facts.

Section Namei.
Variable cwd : string.
Hypothesis cwd_abs : isabs cwd = true.

Lemma namei_step_Ok t r c k :
  namei_step t r c = Ok k →
  ∃ k0, r = Ok k0 ∧ is_dir_node (t !! k0) = true
        ∧ k = (if is_skipped c then k0
               else if is_dotdot c then removelast k0 else k0 ++ [c]).
Proof.
  destruct r as [k0|e|]; unfold namei_step; [|done..].
  destruct (t !! k0) as [[]|] eqn:Hk0; [done| |done].
  intros Hk. exists k0. rewrite Hk0. split; [done|]. split; [done|].
  destruct (is_skipped c); [congruence|]. destruct (is_dotdot c); congruence.
Qed.

Lemma namei_step_dir t k c :
  is_dir_node (t !! k) = true →
  namei_step t (Ok k) c = Ok (if is_skipped c then k
                              else if is_dotdot c then removelast k else k ++ [c]).
Proof.
  unfold namei_step. destruct (t !! k) as [[]|]; [done| |done]. intros _.
  destruct (is_skipped c); [done|]. by destruct (is_dotdot c).
Qed.

Lemma namei_step_proper t k c :
  is_dir_node (t !! k) = true → proper_name c →
  namei_step t (Ok k) c = Ok (k ++ [c]).
Proof.
  intros Hk Hc. rewrite namei_step_dir by done.
  by rewrite proper_not_skipped, proper_not_dotdot.
Qed.

Lemma namei_fold_error t l (r : result key) :
  (∀ k, r ≠ Ok k) → fold_left (namei_step t) l r = r.
Proof.
  intros Hr. induction l as [|c l IH]; [done|]. simpl.
  destruct r as [k|e|]; [by destruct (Hr k)|done..].
Qed.

(** A skipped component changes nothing for the step after it. *)
Lemma namei_step_skip t r c c' :
  is_skipped c = true → namei_step t (namei_step t r c) c' = namei_step t r c'.
Proof.
  intros Hc. destruct r as [k|e|]; [|done..]. unfold namei_step.
  destruct (t !! k) as [[]|] eqn:Hk; [done| |done]. rewrite Hc. by rewrite Hk.
Qed.

Lemma namei_fold_skips t r j c' :
  namei_step t (fold_left (namei_step t) (repeat "" j) r) c' = namei_step t r c'.
Proof.
  revert r. induction j as [|j IH]; intros r; [done|].
  simpl. by rewrite IH, namei_step_skip.
Qed.

Lemma namei_fold_snoc_skip t l r k :
  fold_left (namei_step t) (l ++ [""]) r = Ok k → fold_left (namei_step t) l r = Ok k.
Proof.
  rewrite fold_left_app. simpl. intros (k0 & Hk0 & _ & ->)%namei_step_Ok. done.
Qed.

Lemma namei_nonempty t p k : namei cwd t p = Ok k → p ≠ "".
Proof. unfold namei. by destruct p. Qed.

Lemma namei_unfold t p :
  p ≠ "" → namei cwd t p = fold_left (namei_step t) (split_sep (full_path cwd p)) (Ok []).
Proof. unfold namei. by destruct p. Qed.

(** Resolution of a path joined onto a resolved root. *)
Lemma namei_join t R x kR :
  namei cwd t R = Ok kR → isabs x = false →
  namei cwd t (join R x) = fold_left (namei_step t) (split_sep x) (Ok kR).
Proof.
  intros HR Hx. pose proof (namei_nonempty _ _ _ HR) as HRne.
  rewrite namei_unfold in HR by done.
  rewrite namei_unfold.
  2:{ unfold join. rewrite Hx. destruct (_ || _); by apply app_nonempty. }
  rewrite full_path_join by done.
  assert (full_path cwd R ≠ "") as HF.
  { pose proof (isabs_full_path cwd R cwd_abs). by destruct (full_path cwd R). }
  destruct (split_sep_join (full_path cwd R) x HF Hx) as (l & -> & [Hl|Hl]);
    rewrite fold_left_app.
  - by rewrite <- Hl, HR.
  - rewrite Hl in HR. by rewrite (namei_fold_snoc_skip _ _ _ _ HR).
Qed.

Lemma namei_join_name t R c kR :
  namei cwd t R = Ok kR → is_dir_node (t !! kR) = true → proper_name c →
  namei cwd t (join R c) = Ok (kR ++ [c]).
Proof.
  intros HR Hd Hc. rewrite (namei_join t R c kR) by auto using proper_not_abs.
  pose proof Hc as (? & ? & ? & Hs). rewrite split_sep_no_sep by done.
  cbn [fold_left]. by apply namei_step_proper.
Qed.

Lemma namei_join_dot t R kR :
  namei cwd t R = Ok kR → is_dir_node (t !! kR) = true →
  namei cwd t (join R ".") = Ok kR.
Proof.
  intros HR Hd. rewrite (namei_join t R "." kR) by done.
  change (split_sep ".") with ["."]. cbn [fold_left]. by rewrite namei_step_dir.
Qed.

Lemma namei_fold_names t k ns :
  Forall proper_name ns →
  (∀ r', r' `prefix_of` ns → r' ≠ ns → is_dir_node (t !! (k ++ r')) = true) →
  fold_left (namei_step t) ns (Ok k) = Ok (k ++ ns).
Proof.
  revert k. induction ns as [|c ns IH]; intros k Hns Hd; simpl fold_left.
  - by rewrite List.app_nil_r.
  - inversion Hns; subst. rewrite namei_step_proper; [| |done].
    + rewrite IH; [by rewrite <- List.app_assoc|done|].
      intros r' Hr' Hne. rewrite <- List.app_assoc. apply Hd.
      * by apply prefix_cons.
      * simpl. congruence.
    + specialize (Hd [] (prefix_nil _)). rewrite List.app_nil_r in Hd. by apply Hd.
Qed.

Lemma namei_join_rel t R kR ns :
  namei cwd t R = Ok kR → is_dir_node (t !! kR) = true → Forall proper_name ns →
  (∀ r', r' `prefix_of` ns → r' ≠ ns → is_dir_node (t !! (kR ++ r')) = true) →
  namei cwd t (join R (rel_of ns)) = Ok (kR ++ ns).
Proof.
  intros HR Hd Hns Hpre. destruct ns as [|c ns].
  - rewrite List.app_nil_r. by apply namei_join_dot.
  - unfold rel_of. rewrite (namei_join t R _ kR) by auto using join_sep_proper_not_abs.
    rewrite split_sep_join_sep by auto using proper_no_sep.
    by apply namei_fold_names.
Qed.

(** What the kernel resolves is what [abspath] computes. *)
Lemma namei_fold_norm t l k0 k :
  Forall (λ c, has_sep c = false) l → Forall proper_name k0 →
  fold_left (namei_step t) l (Ok k0) = Ok k →
  fold_left (norm_step 1) l k0 = k ∧ Forall proper_name k.
Proof.
  revert k0. induction l as [|c l IH]; intros k0 Hl Hk0 Hf; simpl in *.
  { by injection Hf as <-. }
  inversion Hl; subst.
  destruct (namei_step t (Ok k0) c) as [k1|e|] eqn:Hstep.
  2,3: by rewrite namei_fold_error in Hf.
  apply namei_step_Ok in Hstep as (k0' & [= <-] & Hd & ->).
  unfold norm_step. destruct (is_skipped c) eqn:Hsk; [by apply IH|].
  destruct (is_dotdot c) eqn:Hdd; simpl.
  - rewrite proper_last_not_dotdot, andb_false_r by done.
    apply IH; [done|by apply Forall_removelast|done].
  - apply IH; [done| |done]. apply Forall_app; split; [done|].
    apply Forall_singleton. by apply not_skipped_dotdot_proper.
Qed.

Lemma namei_abs_list t p k :
  namei cwd t p = Ok k → abs_list cwd p = k ∧ Forall proper_name k.
Proof.
  intros Hp. pose proof (namei_nonempty _ _ _ Hp).
  rewrite namei_unfold in Hp by done. rewrite abs_list_eq by done.
  by apply (namei_fold_norm t); [apply split_sep_has_sep|constructor|].
Qed.

(** Resolution only looks at which keys are directories. *)
Lemma namei_fold_mono t t' l r k :
  (∀ k0, is_dir_node (t !! k0) = true → is_dir_node (t' !! k0) = true) →
  fold_left (namei_step t) l r = Ok k → fold_left (namei_step t') l r = Ok k.
Proof.
  intros Hmono. revert r. induction l as [|c l IH]; intros r Hf; [done|].
  simpl in *. destruct (namei_step t r c) as [k1|e|] eqn:Hstep.
  2,3: by rewrite namei_fold_error in Hf.
  apply namei_step_Ok in Hstep as (k0 & -> & Hd & ->).
  rewrite namei_step_dir by auto. by apply IH.
Qed.

Lemma namei_mono t t' p k :
  (∀ k0, is_dir_node (t !! k0) = true → is_dir_node (t' !! k0) = true) →
  namei cwd t p = Ok k → namei cwd t' p = Ok k.
Proof.
  intros Hmono Hp. pose proof (namei_nonempty _ _ _ Hp).
  rewrite namei_unfold in * by done. by eapply namei_fold_mono.
Qed.

End Namei.
End namei_facts.

(** ** [os.path.split] and resolution *)

Module split_facts.
Import posixpath path_facts.

Lemma rfind_split_eq p : p = (rfind_split p).1 +:+ (rfind_split p).2.
Proof.
  induction p as [|c p IH]; [done|]. simpl.
  destruct (rfind_split p) as [h t]. simpl in IH.
  destruct (nonempty h) eqn:Hh; simpl.
  - by rewrite str_app_cons, <- IH.
  - apply nonempty_false in Hh. subst h. rewrite str_app_nil_l in IH. subst p.
    by destruct (is_sep c).
Qed.

Lemma rfind_split_tail p : has_sep (rfind_split p).2 = false.
Proof.
  induction p as [|c p IH]; [done|]. simpl.
  destruct (rfind_split p) as [h t]. simpl in IH.
  destruct (nonempty h); [done|].
  destruct (is_sep c) eqn:Hc; simpl; [done|]. by rewrite Hc.
Qed.

Lemma rfind_split_head p :
  (rfind_split p).1 = "" ∨ endswith_sep (rfind_split p).1 = true.
Proof.
  induction p as [|c p IH]; [by left|]. simpl.
  destruct (rfind_split p) as [h t]. simpl in IH.
  destruct (nonempty h) eqn:Hh; simpl.
  - right. destruct IH as [->|IH]; [done|]. by destruct h.
  - destruct (is_sep c) eqn:Hc; simpl; auto.
Qed.

Lemma rstrip_sep_spec s :
  ∃ j, s = rstrip_sep s +:+ slashes_str j ∧ endswith_sep (rstrip_sep s) = false.
Proof.
  induction s as [|c s (j & Hs & He)]; [by exists 0%nat|]. simpl.
  destruct (nonempty (rstrip_sep s)) eqn:Hr; simpl.
  - exists j. rewrite str_app_cons, <- Hs. split; [done|].
    by destruct (rstrip_sep s).
  - apply nonempty_false in Hr. rewrite Hr in *. rewrite str_app_nil_l in Hs.
    destruct (is_sep c) eqn:Hc.
    + apply is_sep_slash in Hc as ->. exists (S j). by rewrite Hs.
    + exists j. rewrite str_app_cons, str_app_nil_l, <- Hs. by simpl.
Qed.

Lemma all_sep_rstrip s : all_sep s = false → rstrip_sep s ≠ "".
Proof.
  induction s as [|c s IH]; simpl; [done|].
  destruct (is_sep c); simpl; [|by destruct (negb _)].
  intros Hs%IH. apply nonempty_true in Hs. by rewrite Hs.
Qed.

Lemma all_sep_slashes s : all_sep s = true → s = slashes_str (String.length s).
Proof.
  induction s as [|c s IH]; simpl; [done|].
  intros [->%is_sep_slash Hs]%andb_true_iff. by rewrite <- IH.
Qed.

Lemma split_sep_app_slashes a j :
  split_sep (a +:+ slashes_str j) = split_sep a ++ repeat "" j.
Proof.
  revert a. induction j as [|j IH]; intros a; simpl.
  - by rewrite str_app_nil_r, List.app_nil_r.
  - change ("/" +:+ slashes_str j) with (String "/" (slashes_str j)).
    replace (a +:+ String "/" (slashes_str j)) with ((a +:+ "/") +:+ slashes_str j)
      by by rewrite str_app_assoc.
    rewrite IH, split_sep_snoc_sep, <- List.app_assoc. done.
Qed.

Lemma full_path_app cwd h y :
  h ≠ "" → full_path cwd (h +:+ y) = full_path cwd h +:+ y.
Proof.
  intros Hh. unfold full_path. rewrite isabs_app by done.
  destruct (isabs h) eqn:Habs; [done|].
  unfold join. rewrite isabs_app, Habs by done.
  destruct (_ || _); by rewrite !str_app_assoc.
Qed.

Section Split.
Variable cwd : string.
Hypothesis cwd_abs : isabs cwd = true.
Import namei_facts.

(** Resolving a path is resolving the head of its [split], then its tail. *)
Lemma namei_split t p :
  (split p).1 ≠ "" → (split p).2 ≠ "" →
  namei cwd t p = namei_step t (namei cwd t (split p).1) (split p).2.
Proof.
  unfold split. pose proof (rfind_split_eq p) as Hp.
  pose proof (rfind_split_tail p) as Ht. pose proof (rfind_split_head p) as Hh.
  destruct (rfind_split p) as [hraw tl]. simpl in *.
  destruct (nonempty hraw && negb (all_sep hraw)) eqn:Hc; simpl; intros Hne Htl.
  - apply andb_true_iff in Hc as [_ Hns%negb_true_iff].
    destruct (rstrip_sep_spec hraw) as (j & Hj & He).
    set (h := rstrip_sep hraw) in *.
    destruct j as [|j].
    { rewrite str_app_nil_r in Hj. rewrite <- Hj in He.
      destruct Hh as [->|Hh]; [done|congruence]. }
    rewrite (namei_unfold cwd t p) by (rewrite Hp, Hj; by repeat apply app_nonempty).
    rewrite (namei_unfold cwd t h) by done.
    rewrite Hp, Hj, str_app_assoc, full_path_app by done.
    change (slashes_str (S j) +:+ tl) with ("/" +:+ slashes_str j +:+ tl).
    rewrite split_sep_app_sep.
    rewrite split_sep_slashes, (split_sep_no_sep tl) by done.
    rewrite !fold_left_app. cbn [fold_left]. by rewrite namei_fold_skips.
  - assert (all_sep hraw = true) as Hall.
    { apply andb_false_iff in Hc as [Hc|Hc].
      - apply nonempty_false in Hc. by subst.
      - by apply negb_false_iff in Hc. }
    apply all_sep_slashes in Hall.
    destruct (String.length hraw) as [|m]; [by rewrite Hall in Hne|].
    rewrite (namei_unfold cwd t p) by (rewrite Hp; by apply app_nonempty).
    rewrite (namei_unfold cwd t hraw) by done.
    rewrite Hp, Hall. unfold full_path.
    rewrite isabs_app by done. simpl isabs. cbv iota.
    rewrite split_sep_slashes, (split_sep_no_sep tl) by done.
    rewrite <- (str_app_nil_r (slashes_str (S m))).
    rewrite split_sep_slashes. change (split_sep "") with (repeat "" 1).
    rewrite <- repeat_app, fold_left_app. cbn [fold_left].
    by rewrite !namei_fold_skips.
Qed.

End Split.
End split_facts.

(** ** Trees: well-formedness and directory listings *)

Module tree_facts.
Import posixpath path_facts.

Lemma key_snoc_inv (k : key) : k ≠ [] → k = removelast k ++ [List.last k ""].
Proof. intros Hk. by apply app_removelast_last. Qed.

Lemma wf_lookup t k c n :
  wf_tree t → t !! (k ++ [c]) = Some n →
  is_dir_node (t !! k) = true ∧ proper_name c.
Proof.
  intros [_ Hwf] Hk. apply (map_Forall_lookup_1 _ _ _ _ Hwf) in Hk.
  destruct Hk as [Hk|Hk]; [by destruct k|].
  by rewrite removelast_last, last_last in Hk.
Qed.

Lemma wf_root t : wf_tree t → is_dir_node (t !! ([] : key)) = true.
Proof. by intros [? _]. Qed.

(** Below a key that is no directory there is nothing. *)
Lemma wf_none_below t k s :
  wf_tree t → is_dir_node (t !! k) = false → s ≠ [] → t !! (k ++ s) = None.
Proof.
  intros Hwf Hk. induction s as [|c s IH] using rev_ind; [done|]. intros _.
  destruct (t !! (k ++ s ++ [c])) as [n|] eqn:Hn; [|done].
  rewrite List.app_assoc in Hn. apply (wf_lookup _ _ _ _ Hwf) in Hn as [Hd _].
  destruct s as [|c' s'] using rev_ind.
  - rewrite List.app_nil_r in Hd. congruence.
  - rewrite IH in Hd; [done|]. by destruct s'.
Qed.

Lemma wf_names t k s :
  wf_tree t → is_Some (t !! (k ++ s)) → Forall proper_name s.
Proof.
  intros Hwf. induction s as [|c s IH] using rev_ind; [constructor|].
  intros [n Hn]. rewrite List.app_assoc in Hn.
  apply (wf_lookup _ _ _ _ Hwf) in Hn as [Hd Hc].
  apply Forall_app. split; [|by apply Forall_singleton].
  apply IH. by destruct (t !! (k ++ s)).
Qed.

Lemma wf_prefix_dir t k s :
  wf_tree t → is_Some (t !! (k ++ s)) → s ≠ [] → is_dir_node (t !! k) = true.
Proof.
  intros Hwf Hs Hne. destruct (is_dir_node (t !! k)) eqn:Hk; [done|].
  rewrite (wf_none_below t k s) in Hs by done. by destruct Hs.
Qed.

Lemma wf_insert t kp c n :
  wf_tree t → is_dir_node (t !! kp) = true → proper_name c →
  is_dir_node (t !! (kp ++ [c])) = false →
  wf_tree (<[kp ++ [c] := n]> t).
Proof.
  intros Hwf Hkp Hc Hold.
  assert (kp ++ [c] ≠ kp) as Hne.
  { intros Heq. apply (f_equal List.length) in Heq. rewrite length_app in Heq.
    simpl in Heq. lia. }
  split.
  - rewrite lookup_insert_ne by (by destruct kp). by apply wf_root.
  - apply map_Forall_lookup_2. intros k n' Hk.
    destruct (decide (k = kp ++ [c])) as [->|Hkne].
    + right. rewrite removelast_last, last_last, lookup_insert_ne by done. done.
    + rewrite lookup_insert_ne in Hk by done.
      destruct (decide (k = [])) as [->|Hnil]; [by left|right].
      rewrite (key_snoc_inv k Hnil) in Hk.
      apply (wf_lookup _ _ _ _ Hwf) in Hk as [Hd Hp]. split; [|done].
      rewrite lookup_insert_ne; [done|]. intros Heq. rewrite <- Heq in Hd. congruence.
Qed.

(** *** Listings *)

Lemma entry_of_Some k kn c n :
  entry_of k kn = Some (c, n) ↔ kn = (k ++ [c], n).
Proof.
  unfold entry_of. destruct kn as [k' n']. simpl. split.
  - case_decide as Hd; [|done]. destruct Hd as [Hne <-]. intros [= <- <-].
    by rewrite <- key_snoc_inv.
  - intros [= -> ->]. rewrite decide_True.
    + by rewrite last_last.
    + split; [by destruct k|apply removelast_last].
Qed.

Lemma elem_of_entries t k c n :
  (c, n) ∈ entries t k ↔ t !! (k ++ [c]) = Some n.
Proof.
  unfold entries. rewrite list_elem_of_omap. split.
  - intros (kn & Hin & ->%entry_of_Some). by apply elem_of_map_to_list in Hin.
  - intros Hk. exists (k ++ [c], n). split; [by apply elem_of_map_to_list|].
    by apply entry_of_Some.
Qed.

Lemma NoDup_omap_inj {A B} (f : A → option B) (l : list A) :
  NoDup l →
  (∀ x y z, x ∈ l → y ∈ l → f x = Some z → f y = Some z → x = y) →
  NoDup (omap f l).
Proof.
  induction 1 as [|x l Hx Hl IH]; intros Hinj; [constructor|]. simpl.
  assert (NoDup (omap f l)) as IH'.
  { apply IH. intros ?????. apply Hinj; by constructor. }
  destruct (f x) as [z|] eqn:Hfx; [|done]. constructor; [|done].
  intros (y & Hy & Hfy)%list_elem_of_omap.
  assert (x = y) as -> by (by eapply Hinj; [constructor|constructor|..]). done.
Qed.

Lemma NoDup_entries t k : NoDup (entries t k).*1.
Proof.
  apply NoDup_fmap_fst.
  - intros c n1 n2 H1%elem_of_entries H2%elem_of_entries. congruence.
  - apply NoDup_omap_inj; [apply NoDup_map_to_list|].
    intros x y [c n] _ _ Hx%entry_of_Some Hy%entry_of_Some. congruence.
Qed.

Lemma NoDup_fst_filter {A B} (f : A * B → bool) (l : list (A * B)) :
  NoDup l.*1 → NoDup (List.filter f l).*1.
Proof.
  induction l as [|x l IH]; [done|]. simpl. intros [Hx Hl]%NoDup_cons.
  destruct (f x); [|by apply IH]. simpl. apply NoDup_cons. split; [|by apply IH].
  intros (y & Hy1 & Hy2)%list_elem_of_fmap. apply Hx.
  apply list_elem_of_fmap. exists y. split; [done|].
  apply list_elem_of_In in Hy2. apply filter_In in Hy2 as [? _].
  by apply list_elem_of_In.
Qed.

Lemma elem_of_fst_filter {A B} (f : A * B → bool) (l : list (A * B)) a :
  a ∈ (List.filter f l).*1 ↔ ∃ b, (a, b) ∈ l ∧ f (a, b) = true.
Proof.
  rewrite list_elem_of_fmap. split.
  - intros ([a' b] & -> & Hin). exists b. simpl.
    apply list_elem_of_In, filter_In in Hin as [Hin ?]. by apply list_elem_of_In in Hin.
  - intros (b & Hin & Hf). exists (a, b). split; [done|].
    apply list_elem_of_In, filter_In. by apply list_elem_of_In in Hin.
Qed.

Section Listing.
Variable cwd : string.

Lemma scandir_dir t top k :
  namei cwd t top = Ok k → is_dir_node (t !! k) = true →
  ∃ dirs files,
    scandir cwd t top = Ok (dirs, files)
    ∧ NoDup dirs ∧ NoDup files
    ∧ (∀ d, d ∈ dirs ↔ is_dir_node (t !! (k ++ [d])) = true)
    ∧ (∀ f, f ∈ files ↔ is_file_node (t !! (k ++ [f])) = true).
Proof.
  intros Hk Hd. unfold scandir. rewrite Hk. simpl.
  destruct (t !! k) as [[]|] eqn:Htk; [done| |done].
  eexists _, _. split; [done|].
  split; [apply NoDup_fst_filter, NoDup_entries|].
  split; [apply NoDup_fst_filter, NoDup_entries|].
  split; intros c; rewrite elem_of_fst_filter; simpl.
  - split.
    + intros (n & Hin%elem_of_entries & Hn). by rewrite Hin.
    + destruct (t !! (k ++ [c])) as [n|] eqn:Hc; [|done]. intros Hn.
      exists n. by rewrite elem_of_entries.
  - split.
    + intros (n & Hin%elem_of_entries & Hn). by rewrite Hin.
    + destruct (t !! (k ++ [c])) as [n|] eqn:Hc; [|done]. intros Hn.
      exists n. by rewrite elem_of_entries.
Qed.

End Listing.
End tree_facts.

(** ** The last component of a resolved path *)

Module last_facts.
Import posixpath path_facts namei_facts tree_facts.

Lemma last_app_r {A} (a b : list A) d : b ≠ [] → List.last (a ++ b) d = List.last b d.
Proof.
  intros Hb. induction a as [|x a IH]; [done|].
  simpl. rewrite IH. destruct (a ++ b) eqn:E; [|done].
  by apply app_eq_nil in E as [_ ?].
Qed.

Lemma last_name_snoc_empty l :
  List.last (List.filter nonempty (l ++ [""])) "" = List.last (List.filter nonempty l) "".
Proof. by rewrite List.filter_app, List.app_nil_r. Qed.

Lemma last_name_snoc l c :
  c ≠ "" → List.last (List.filter nonempty (l ++ [c])) "" = c.
Proof.
  intros Hc%nonempty_true. rewrite List.filter_app. simpl. rewrite Hc.
  by rewrite last_last.
Qed.

Lemma relative_first_component p :
  p ≠ "" → isabs p = false → List.filter nonempty (split_sep p) ≠ [].
Proof.
  destruct p as [|c p]; [done|]. simpl. intros _ ->.
  by destruct (split_sep p).
Qed.

Section Last.
Variable cwd : string.

Lemma last_name_full_path p :
  p ≠ "" →
  List.last (List.filter nonempty (split_sep (full_path cwd p))) ""
  = List.last (List.filter nonempty (split_sep p)) "".
Proof.
  intros Hp. unfold full_path. destruct (isabs p) eqn:Habs; [done|].
  destruct (decide (cwd = "")) as [->|Hcwd]; [by rewrite join_empty_l|].
  destruct (split_sep_join cwd p) as (l & -> & _); [done..|].
  rewrite List.filter_app. by apply last_app_r, relative_first_component.
Qed.

(** A path that ends in a name resolves to an entry of a directory. *)
Lemma fold_last_name t l r k :
  Forall (λ c, has_sep c = false) l →
  fold_left (namei_step t) l r = Ok k →
  (let c := List.last (List.filter nonempty l) "" in
   negb (is_skipped c) && negb (is_dotdot c)) = true →
  ∃ k1 c, k = k1 ++ [c] ∧ is_dir_node (t !! k1) = true ∧ proper_name c.
Proof.
  revert k. induction l as [|c l IH] using rev_ind; intros k Hl Hf Hlast; [done|].
  apply Forall_app in Hl as [Hl Hc]. rewrite Forall_singleton in Hc.
  rewrite fold_left_app in Hf. cbn [fold_left] in Hf.
  apply namei_step_Ok in Hf as (k0 & Hk0 & Hd & ->).
  destruct (decide (c = "")) as [->|Hne].
  - cbv zeta in Hlast. rewrite last_name_snoc_empty in Hlast.
    change (is_skipped "") with true. cbv iota. by apply IH.
  - cbv zeta in Hlast. rewrite last_name_snoc in Hlast by done.
    apply andb_true_iff in Hlast as [Hs%negb_true_iff Hdd%negb_true_iff].
    rewrite Hs, Hdd. exists k0, c. split; [done|]. split; [done|].
    by apply not_skipped_dotdot_proper.
Qed.

Lemma namei_last_name t p k :
  namei cwd t p = Ok k → last_name p = true →
  ∃ k1 c, k = k1 ++ [c] ∧ is_dir_node (t !! k1) = true ∧ proper_name c.
Proof.
  intros Hk Hlast. pose proof (namei_nonempty _ _ _ _ Hk) as Hp.
  rewrite namei_unfold in Hk by done.
  apply (fold_last_name t _ _ _ (split_sep_has_sep _) Hk).
  cbv zeta. by rewrite last_name_full_path.
Qed.

Lemma namei_last_name_key t p k : namei cwd t p = Ok k → last_name p = true → k ≠ [].
Proof.
  intros Hk Hlast. destruct (namei_last_name t p k Hk Hlast) as (k1 & c & -> & _).
  by destruct k1.
Qed.

Lemma wf_parent t k :
  wf_tree t → is_Some (t !! k) → is_dir_node (t !! removelast k) = true.
Proof.
  intros Hwf Hk. destruct (decide (k = [])) as [->|Hne]; [by apply wf_root|].
  rewrite (key_snoc_inv k Hne) in Hk. destruct Hk as [n Hn].
  by apply (wf_lookup _ _ _ _ Hwf) in Hn as [? _].
Qed.

(** What resolves to something that is no directory ends in a name. *)
Lemma fold_not_dir t l k0 k :
  wf_tree t → is_dir_node (t !! k0) = true →
  fold_left (namei_step t) l (Ok k0) = Ok k →
  is_dir_node (t !! k) = false →
  (let c := List.last (List.filter nonempty l) "" in
   negb (is_skipped c) && negb (is_dotdot c)) = true.
Proof.
  intros Hwf Hk0. revert k. induction l as [|c l IH] using rev_ind; intros k Hf Hnd.
  { simpl in Hf. injection Hf as <-. congruence. }
  rewrite fold_left_app in Hf. cbn [fold_left] in Hf.
  apply namei_step_Ok in Hf as (k1 & Hk1 & Hd & ->).
  destruct (is_skipped c) eqn:Hs; [congruence|].
  destruct (is_dotdot c) eqn:Hdd.
  { rewrite wf_parent in Hnd; [done..|]. by destruct (t !! k1). }
  assert (c ≠ "") as Hne by (by intros ->).
  cbv zeta. rewrite last_name_snoc by done. by rewrite Hs, Hdd.
Qed.

Lemma namei_not_dir t p k :
  wf_tree t → namei cwd t p = Ok k → is_dir_node (t !! k) = false →
  last_name p = true.
Proof.
  intros Hwf Hk Hnd. pose proof (namei_nonempty _ _ _ _ Hk) as Hp.
  rewrite namei_unfold in Hk by done. unfold last_name.
  rewrite <- last_name_full_path by done.
  by apply (fold_not_dir t _ [] k Hwf (wf_root t Hwf)).
Qed.

End Last.
End last_facts.

(** ** What the calls of the scan do on resolved paths *)

Module call_facts.
Import posixpath path_facts namei_facts split_facts tree_facts.

Lemma endswith_join_sep ns :
  ns ≠ [] → Forall proper_name ns → endswith_sep (join_sep ns) = false.
Proof.
  induction ns as [|c ns IH]; [done|]. intros _ Hns.
  inversion Hns as [|?? Hc Hns']; subst. destruct Hc as (Hc & _ & _ & Hs).
  destruct ns as [|c' ns]; [by apply no_sep_endswith|].
  rewrite join_sep_cons by done.
  rewrite !endswith_sep_app_r; [by apply IH|by apply join_sep_proper_nonempty|].
  by apply app_nonempty.
Qed.

Lemma endswith_rel_of ns : Forall proper_name ns → endswith_sep (rel_of ns) = false.
Proof. destruct ns; [done|]. by apply endswith_join_sep. Qed.

Lemma endswith_join a x :
  x ≠ "" → isabs x = false → endswith_sep (join a x) = endswith_sep x.
Proof.
  intros Hx Habs. rewrite join_rel by done.
  destruct (_ || _); by rewrite !endswith_sep_app_r by (done || by apply app_nonempty).
Qed.

Lemma basename_nonempty p : p ≠ "" → endswith_sep p = false → (split p).2 ≠ "".
Proof.
  intros Hp He. unfold split. pose proof (rfind_split_eq p) as Heq.
  pose proof (rfind_split_head p) as Hh.
  destruct (rfind_split p) as [h tl]. simpl in *.
  assert (tl ≠ "") as Htl.
  { intros ->. rewrite str_app_nil_r in Heq. subst h.
    destruct Hh as [?|?]; congruence. }
  by destruct (_ && _).
Qed.

Section Calls.
Variable cwd : string.
Hypothesis cwd_abs : isabs cwd = true.
Variable now : Z.

Lemma path_exists_Some t p k :
  namei cwd t p = Ok k → is_Some (t !! k) → path_exists cwd t p = true.
Proof. intros Hk [n Hn]. unfold path_exists, stat. by rewrite Hk; simpl; rewrite Hn. Qed.

Lemma path_exists_None t p k :
  namei cwd t p = Ok k → t !! k = None → path_exists cwd t p = false.
Proof. intros Hk Hn. unfold path_exists, stat. by rewrite Hk; simpl; rewrite Hn. Qed.

Lemma path_exists_inv t p :
  path_exists cwd t p = true → ∃ k, namei cwd t p = Ok k ∧ is_Some (t !! k).
Proof.
  unfold path_exists, stat. destruct (namei cwd t p) as [k|e|]; simpl; [|done..].
  destruct (t !! k) eqn:Hk; [|done]. eauto.
Qed.

Lemma getmtime_file t p k c m :
  namei cwd t p = Ok k → t !! k = Some (File c m) → getmtime cwd t p = Ok m.
Proof. intros Hk Hn. unfold getmtime, stat. by rewrite Hk; simpl; rewrite Hn. Qed.

Lemma isdir_node t p k :
  namei cwd t p = Ok k → isdir cwd t p = is_dir_node (t !! k).
Proof.
  intros Hk. unfold isdir, stat. rewrite Hk. simpl.
  by destruct (t !! k) as [[]|].
Qed.

(** [makedirs] of a path whose parent exists is one [mkdir]. *)
Lemma makedirs_go_direct fuel exist_ok t name k :
  (split name).2 ≠ "" → namei cwd t name = Ok k →
  makedirs_go cwd now (S fuel) exist_ok t name =
    match mkdir cwd now t name with
    | Ok t2 => (t2, Ok tt)
    | Raise e =>
        if negb exist_ok || negb (isdir cwd t name) then (t, Raise e)
        else (t, Ok tt)
    | OutOfFuel => (t, OutOfFuel)
    end.
Proof.
  intros Htl Hk. simpl. pose proof (namei_split cwd t name) as Hsp.
  destruct (split name) as [head tl]. simpl in *.
  apply nonempty_true in Htl as Htl'. rewrite Htl'. simpl negb. cbv iota.
  destruct (nonempty head) eqn:Hh; [|done]. simpl.
  apply nonempty_true in Hh. rewrite Hsp in Hk by done.
  apply namei_step_Ok in Hk as (k0 & Hk0 & Hd & _).
  rewrite (path_exists_Some t head k0), Htl';
    [done|done|by destruct (t !! k0)].
Qed.

Lemma makedirs_fresh exist_ok t name k :
  (split name).2 ≠ "" → namei cwd t name = Ok k → t !! k = None →
  makedirs_tree cwd now exist_ok t name = (<[k := Dir now]> t, Ok tt).
Proof.
  intros Htl Hk Hn. unfold makedirs_tree.
  rewrite (makedirs_go_direct _ _ _ _ k) by done.
  unfold mkdir. rewrite Hk. simpl. by rewrite Hn.
Qed.

Lemma copy2_file t src dst ks kd c m :
  namei cwd t src = Ok ks → t !! ks = Some (File c m) →
  namei cwd t dst = Ok kd → is_dir_node (t !! kd) = false → ks ≠ kd →
  copy2_tree cwd t src dst = (<[kd := File c m]> t, Ok tt).
Proof.
  intros Hs Hsn Hd Hdn Hne. unfold copy2_tree.
  rewrite (isdir_node t dst kd), Hdn by done.
  unfold copyfile_tree, samefile, stat. rewrite Hs, Hd. simpl.
  rewrite bool_decide_eq_false_2 by done. simpl. rewrite Hsn.
  by destruct (t !! kd) as [[]|].
Qed.

End Calls.
End call_facts.

(** * The claims *)

Section PathMapper.
Import posixpath path_facts.

Lemma join_all_starts a p :
  Forall (λ c, isabs c = false) p → a ≠ "" → ∃ rest, join_all a p = a +:+ rest.
Proof.
  unfold join_all. revert a. induction p as [|c p IH]; intros a Hp Ha.
  - exists "". by rewrite str_app_nil_r.
  - inversion Hp as [|?? Hc Hp']; subst. simpl.
    destruct (IH (join a c) Hp') as [rest Hrest].
    { rewrite join_ne by done. destruct (endswith_sep a); by apply app_nonempty. }
    rewrite Hrest, join_ne by done.
    destruct (endswith_sep a); rewrite !str_app_assoc; eauto.
Qed.

Lemma common_len_le (l1 l2 : list string) : (common_len l1 l2 ≤ List.length l1)%nat.
Proof.
  revert l2. induction l1 as [|x l1 IH]; intros [|y l2]; simpl; try lia.
  case_bool_decide; [|lia]. specialize (IH l2). lia.
Qed.

Lemma common_len_full (l1 l2 : list string) :
  common_len l1 l2 = List.length l1 → l1 `prefix_of` l2.
Proof.
  revert l2. induction l1 as [|x l1 IH]; intros l2 Hlen.
  - apply prefix_nil.
  - destruct l2 as [|y l2]; simpl in Hlen; [done|].
    case_bool_decide; [|done]. subst. apply prefix_cons, IH. lia.
Qed.

(** C5, as the code has it: mapping a path that is not below [from_root]
    raises nothing; it returns [to_root] joined with a relative path that
    climbs out of [from_root] through [..]. *)
Theorem map_path_outside_root cwd path from_root to_root :
  path ≠ "" → ¬ descendant cwd from_root path →
  ∃ rest, map_path cwd path from_root to_root = Ok (join to_root (".." +:+ rest)).
Proof.
  intros Hp Hout. unfold map_path, relpath.
  apply nonempty_true in Hp. rewrite Hp. simpl negb. cbv iota.
  set (sl := abs_list cwd from_root). set (pl := abs_list cwd path).
  pose proof (common_len_le sl pl) as Hle.
  assert (common_len sl pl ≠ List.length sl) as Hlt.
  { intros Heq. apply Hout. by apply common_len_full. }
  destruct (List.length sl - common_len sl pl)%nat as [|n] eqn:Hn; [lia|].
  simpl repeat. simpl app.
  destruct (join_all_starts ".." (repeat ".." n ++ drop (common_len sl pl) pl))
    as [rest ->]; [|done|by eexists].
  apply Forall_app; split.
  - apply Forall_forall. intros c Hc. apply list_elem_of_In, repeat_spec in Hc.
    by subst.
  - apply Forall_drop. unfold pl, abs_list.
    apply Forall_forall. intros c [Hc1 Hc2]%list_elem_of_In%filter_In.
    pose proof (split_sep_has_sep (abspath cwd path)) as Hs.
    rewrite Forall_forall in Hs. apply list_elem_of_In, Hs in Hc1.
    destruct c as [|x c]; [done|]. simpl in *. by apply orb_false_iff in Hc1 as [-> _].
Qed.

Lemma map_path_outside_root_witness :
  ("/x/y" : string) ≠ "" ∧ ¬ descendant "/" "/srv/a" "/x/y"
  ∧ ∃ rest, map_path "/" "/x/y" "/srv/a" "/srv/b" = Ok (join "/srv/b" (".." +:+ rest)).
Proof.
  assert (¬ descendant "/" "/srv/a" "/x/y") as Hout.
  { intros [k Hk]. vm_compute in Hk. discriminate. }
  split; [done|]. split; [done|].
  by apply map_path_outside_root.
Defined.

(** C5 as stated fails: [/x/y] is not below [/srv/a], and mapping it to
    [/srv/b] returns a path instead of raising. *)
Lemma map_path_outside_root_returns :
  ¬ descendant "/" "/srv/a" "/x/y"
  ∧ map_path "/" "/x/y" "/srv/a" "/srv/b" = Ok "/srv/b/../../x/y"
  ∧ ∀ e, map_path "/" "/x/y" "/srv/a" "/srv/b" ≠ Raise e.
Proof.
  split; [|split; [reflexivity|discriminate]].
  intros [k Hk]. vm_compute in Hk. discriminate.
Qed.

Lemma map_path_below cwd p r1 r2 ns :
  isabs cwd = true → p ≠ "" →
  abs_list cwd p = abs_list cwd r1 ++ ns →
  map_path cwd p r1 r2 = Ok (join r2 (rel_of ns))
  ∧ abs_list cwd (join r2 (rel_of ns)) = abs_list cwd r2 ++ ns.
Proof.
  intros Hcwd Hp Hpl. unfold map_path.
  rewrite (relpath_under cwd p r1 ns) by done. split; [done|].
  apply abs_list_join_rel; [done|].
  pose proof (abs_list_proper cwd p Hcwd) as H. rewrite Hpl in H.
  by apply Forall_app in H as [_ ?].
Qed.

(** C8, as the code has it: for a path [p] at or below [r1], mapping to
    [r2] and back returns [r1] joined with the normalised relative path of
    [p].  That path has the absolute components of [p], and is the string
    [p] itself when [p] is written as [r1] joined with that relative path. *)
Theorem round_trip_below cwd p r1 r2 ns :
  isabs cwd = true → p ≠ "" →
  abs_list cwd p = abs_list cwd r1 ++ ns →
  ∃ q, round_trip cwd p r1 r2 = Ok q
       ∧ abs_list cwd q = abs_list cwd p
       ∧ (p = join r1 (rel_of ns) → q = p).
Proof.
  intros Hcwd Hp Hpl. exists (join r1 (rel_of ns)).
  assert (Forall proper_name ns) as Hns.
  { pose proof (abs_list_proper cwd p Hcwd) as H. rewrite Hpl in H.
    by apply Forall_app in H as [_ ?]. }
  destruct (map_path_below cwd p r1 r2 ns) as [H1 H2]; [done..|].
  unfold round_trip. rewrite H1. simpl.
  destruct (map_path_below cwd (join r2 (rel_of ns)) r2 r1 ns) as [H3 H4];
    [done|by apply join_nonempty, rel_of_nonempty|done|].
  rewrite H3. split; [done|]. split; [by rewrite H4|done].
Qed.

Lemma round_trip_below_witness :
  isabs "/home" = true ∧ ("A/notes/todo.txt" : string) ≠ ""
  ∧ abs_list "/home" "A/notes/todo.txt" = abs_list "/home" "A" ++ ["notes"; "todo.txt"]
  ∧ ∃ q, round_trip "/home" "A/notes/todo.txt" "A" "B" = Ok q
         ∧ abs_list "/home" q = abs_list "/home" "A/notes/todo.txt"
         ∧ ("A/notes/todo.txt" = join "A" (rel_of ["notes"; "todo.txt"]) → q = "A/notes/todo.txt").
Proof.
  split; [reflexivity|]. split; [done|]. split; [reflexivity|].
  apply (round_trip_below "/home" "A/notes/todo.txt" "A" "B" ["notes"; "todo.txt"]);
    [reflexivity|done|reflexivity].
Defined.

(** C8 as stated fails: the round trip of the root itself, which the scan
    maps on its first iteration, comes back with [/.] appended, and a path
    below the root that is not normalised comes back normalised. *)
Lemma round_trip_not_identity :
  descendant "/" "/srv/a" "/srv/a"
  ∧ round_trip "/" "/srv/a" "/srv/a" "/srv/b" = Ok "/srv/a/."
  ∧ descendant "/" "/srv/a" "/srv/a/x//y"
  ∧ round_trip "/" "/srv/a/x//y" "/srv/a" "/srv/b" = Ok "/srv/a/x/y".
Proof.
  split; [by exists []|]. split; [reflexivity|].
  split; [by exists ["x"; "y"]|reflexivity].
Qed.

End PathMapper.

Section Handler.
Import posixpath path_facts fuel_facts.
Variable cwd : string.
Variable now : Z.
Variable stdout : entry → option exn.

(** A computation that returns or raises in every world. *)
Let total {A} (m : M A) : Prop := ∀ w, (m w).2 ≠ OutOfFuel.

Lemma total_bind {A B} (m : M A) (f : A → M B) :
  total m → (∀ a, total (f a)) → total (m ≫= f).
Proof.
  intros Hm Hf w. unfold mbind, M_bind, bind. specialize (Hm w).
  destruct (m w) as [w1 [a|e|]]; [apply Hf|done..].
Qed.
Lemma total_ret {A} (a : A) : total (mret a).
Proof. by intros w. Qed.
Lemma total_ret' {A} (a : A) : total (ret a).
Proof. by intros w. Qed.
Lemma total_read {A} (f : tree → A) : total (read f).
Proof. by intros w. Qed.
Lemma total_print c : total (print stdout c).
Proof. intros w. unfold print. by destruct (stdout c). Qed.
Lemma total_logged c op : (∀ t, (op t).2 ≠ OutOfFuel) → total (logged c op).
Proof.
  intros Hop w. unfold logged. specialize (Hop (fs w)).
  by destruct (op (fs w)) as [t1 [| |]].
Qed.
Lemma total_lift {A} (r : result A) : r ≠ OutOfFuel → total (lift r).
Proof. by intros Hr w. Qed.

Lemma handle_event_total self event : total (handle_event cwd now stdout self event).
Proof.
  unfold handle_event.
  apply total_bind; [apply total_lift, relpath_fuel|intros rel].
  repeat case_bool_decide.
  - apply total_bind; [apply total_read|intros []].
    + apply total_bind; [|intros; apply total_print].
      apply total_logged. intros. apply makedirs_tree_fuel.
    + apply total_bind; [|intros; apply total_print].
      apply total_logged. intros. apply copy2_tree_fuel.
  - apply total_bind; [apply total_read|intros []]; simpl; [apply total_ret'|].
    apply total_bind; [|intros; apply total_print].
    apply total_logged. intros. apply copy2_tree_fuel.
  - apply total_bind; [apply total_read|intros []].
    + apply total_bind; [|intros; apply total_print].
      apply total_logged. intros. apply rmtree_tree_fuel.
    + apply total_bind; [apply total_read|intros []]; [|apply total_ret'].
      apply total_bind; [|intros; apply total_print].
      apply total_logged. intros. apply remove_tree_fuel.
  - apply total_bind; [apply total_lift, relpath_fuel|intros rel'].
    apply total_bind; [|intros; apply total_print].
    apply total_logged. intros. apply move_tree_fuel.
  - apply total_ret'.
Qed.

(** What the [except] clause makes of an exception of the body. *)
Lemma on_any_event_raised self event w w1 e :
  handle_event cwd now stdout self event w = (w1, Raise e) →
  on_any_event cwd now stdout self event w
  = match stdout (PrintError (event_type event) (src_path event) e) with
    | None =>
        (World (fs w1) (log w1 ++ [PrintError (event_type event) (src_path event) e]),
         Ok tt)
    | Some e' => (w1, Raise e')
    end.
Proof. intros He. unfold on_any_event, try_except, print. by rewrite He. Qed.

(** On a standard output that takes every line the handler returns. *)
Lemma on_any_event_returns self event w :
  (∀ en, stdout en = None) →
  ∃ w1, on_any_event cwd now stdout self event w = (w1, Ok tt).
Proof.
  intros Hout. pose proof (handle_event_total self event w) as Ht.
  destruct (handle_event cwd now stdout self event w) as [w1 [[]|e|]] eqn:He;
    [|rewrite (on_any_event_raised _ _ _ _ _ He), Hout; by eexists|done].
  exists w1. unfold on_any_event, try_except. by rewrite He.
Qed.

(** Every list of events is then handled to its end. *)
Lemma dispatch_returns self events w :
  (∀ en, stdout en = None) →
  ∃ w1, dispatch cwd now stdout self events w = (w1, Ok tt).
Proof.
  intros Hout. revert w. induction events as [|ev evs IH]; intros w; [by eexists|].
  destruct (on_any_event_returns self ev w Hout) as [w1 Hw1].
  unfold dispatch. cbn [for_each]. unfold bind at 1. rewrite Hw1. apply IH.
Qed.


End Handler.


Section NothingRemoved.
Import posixpath path_facts.
Variable cwd : string.
Variable now : Z.

Lemma same_kind_refl n : same_kind n n.
Proof. by destruct n. Qed.
Lemma same_kind_trans n1 n2 n3 : same_kind n1 n2 → same_kind n2 n3 → same_kind n1 n3.
Proof. by destruct n1, n2, n3. Qed.

Lemma kept_refl t : kept t t.
Proof. intros k n Hk. eauto using same_kind_refl. Qed.
Lemma kept_trans t1 t2 t3 : kept t1 t2 → kept t2 t3 → kept t1 t3.
Proof.
  intros H12 H23 k n Hk. destruct (H12 k n Hk) as (n2 & Hk2 & Hs2).
  destruct (H23 k n2 Hk2) as (n3 & Hk3 & Hs3). eauto using same_kind_trans.
Qed.

Lemma kept_insert_fresh t k n : t !! k = None → kept t (<[k := n]> t).
Proof.
  intros Hk k' n' Hk'. exists n'. split; [|apply same_kind_refl].
  rewrite lookup_insert_ne; [done|congruence].
Qed.

Lemma kept_insert_file t k c m :
  is_dir_node (t !! k) = false → kept t (<[k := File c m]> t).
Proof.
  intros Hk k' n' Hk'. destruct (decide (k = k')) as [->|Hne].
  - rewrite lookup_insert_eq. eexists. split; [done|].
    rewrite Hk' in Hk. by destruct n'.
  - rewrite lookup_insert_ne by done. eauto using same_kind_refl.
Qed.

Lemma mkdir_kept t p t' : mkdir cwd now t p = Ok t' → kept t t'.
Proof.
  unfold mkdir. destruct (namei cwd t p) as [k|e|]; simpl; [|done..].
  destruct (t !! k) eqn:Hk; [done|]. intros [= <-]. by apply kept_insert_fresh.
Qed.

Lemma makedirs_go_kept fuel exist_ok t name :
  kept t (makedirs_go cwd now fuel exist_ok t name).1.
Proof.
  revert t name. induction fuel as [|fuel IH]; intros t name; [apply kept_refl|].
  simpl. destruct (split name) as [h1 t1].
  assert (∀ t1', kept t1' (match mkdir cwd now t1' name with
                  | Ok t2 => (t2, Ok tt)
                  | Raise e =>
                      if negb exist_ok || negb (isdir cwd t1' name)
                      then (t1', Raise e) else (t1', Ok tt)
                  | OutOfFuel => (t1', OutOfFuel)
                  end).1) as Hmk.
  { intros t1'. destruct (mkdir cwd now t1' name) eqn:Hm; simpl.
    - by eapply mkdir_kept.
    - destruct (_ || _); apply kept_refl.
    - apply kept_refl. }
  destruct (if negb (nonempty t1) then split h1 else (h1, t1)) as [head tail].
  destruct (nonempty head && nonempty tail && negb (path_exists cwd t head));
    [|apply Hmk].
  specialize (IH t head).
  destruct (makedirs_go cwd now fuel exist_ok t head) as [t1' r]. simpl in IH.
  destruct r as [[]|e|]; [| |done].
  - destruct (bool_decide _); [done|]. eapply kept_trans; [done|apply Hmk].
  - destruct e; try done;
      (destruct (bool_decide _); [done|]; eapply kept_trans; [done|apply Hmk]).
Qed.

Lemma copy2_tree_kept t src dst : kept t (copy2_tree cwd t src dst).1.
Proof.
  unfold copy2_tree, copyfile_tree.
  destruct (samefile cwd t src _); [apply kept_refl|].
  destruct (stat cwd t src) as [[c m|]|e|]; try apply kept_refl.
  destruct (namei cwd t _) as [kd|e|]; try apply kept_refl.
  destruct (t !! kd) as [[]|] eqn:Hkd; simpl; try apply kept_refl.
  - apply kept_insert_file. by rewrite Hkd.
  - by apply kept_insert_fresh.
Qed.

(** Computations that keep what is there and log only creating calls. *)
Let gentle {A} (m : M A) : Prop :=
  ∀ w, kept (fs w) (fs (m w).1)
       ∧ ∃ l, log (m w).1 = log w ++ l ∧ Forall creates l.

Lemma gentle_pure {A} (m : M A) : (∀ w, (m w).1 = w) → gentle m.
Proof.
  intros Hm w. rewrite Hm. split; [apply kept_refl|].
  exists []. by rewrite List.app_nil_r.
Qed.

Lemma gentle_bind {A B} (m : M A) (f : A → M B) :
  gentle m → (∀ a, gentle (f a)) → gentle (m ≫= f).
Proof.
  intros Hm Hf w. unfold mbind, M_bind, bind.
  destruct (Hm w) as (Hk & l & Hl & Hc).
  destruct (m w) as [w1 [a|e|]]; simpl in *; [|by eauto..].
  destruct (Hf a w1) as (Hk' & l' & Hl' & Hc'). split.
  - by eapply kept_trans.
  - exists (l ++ l'). rewrite Hl', Hl, List.app_assoc. split; [done|].
    by apply Forall_app.
Qed.

Lemma gentle_logged c op :
  creating c → (∀ t, kept t (op t).1) → gentle (logged c op).
Proof.
  intros Hc Hop w. unfold logged. specialize (Hop (fs w)).
  destruct (op (fs w)) as [t1 [[]|e|]]; simpl in *; (split; [done|]).
  - exists [Completed c]. split; [done|]. by apply Forall_singleton.
  - exists [Failed c e]. split; [done|]. by apply Forall_singleton.
  - exists []. by rewrite List.app_nil_r.
Qed.

Lemma gentle_for_each {A} (l : list A) (body : A → M unit) :
  (∀ a, gentle (body a)) → gentle (for_each l body).
Proof.
  intros Hb. induction l as [|a l IH]; simpl.
  - by apply gentle_pure.
  - apply (gentle_bind (body a) (λ _, for_each l body)); auto.
Qed.

Lemma gentle_walk_for fuel body top :
  (∀ d ds fs, gentle (body d ds fs)) → gentle (walk_for cwd fuel body top).
Proof.
  intros Hb. revert top. induction fuel as [|fuel IH]; intros top.
  - by apply gentle_pure.
  - intros w. simpl.
    destruct (scandir cwd (fs w) top) as [[dirs files]|e|];
      [|by apply (gentle_pure (λ w, (w, Ok tt)))
       |by apply (gentle_pure (λ w, (w, OutOfFuel)))].
    apply (gentle_bind (body top dirs files)); [done|].
    intros _. by apply gentle_for_each.
Qed.

Lemma gentle_sync_file src_dir dest_dir file :
  gentle (sync_file cwd src_dir dest_dir file).
Proof.
  unfold sync_file. apply gentle_bind; [by apply gentle_pure|intros ex].
  apply gentle_bind.
  - destruct (negb ex); [by apply gentle_pure|].
    apply gentle_bind; [by apply gentle_pure|intros ?].
    apply gentle_bind; [by apply gentle_pure|intros ?]. by apply gentle_pure.
  - intros [|]; [|by apply gentle_pure].
    apply gentle_logged; [done|]. intros t. apply copy2_tree_kept.
Qed.

Lemma gentle_sync_dir src dest src_dir files :
  gentle (sync_dir cwd now src dest src_dir files).
Proof.
  unfold sync_dir. apply gentle_bind; [by apply gentle_pure|intros rel].
  apply gentle_bind; [by apply gentle_pure|intros ex].
  apply gentle_bind.
  - destruct (negb ex); [|by apply gentle_pure].
    apply gentle_logged; [done|]. intros t. apply makedirs_go_kept.
  - intros _. apply gentle_for_each. intros f. apply gentle_sync_file.
Qed.

(** C10: a call of [sync_folders_with_progress] removes nothing.  Every
    file and directory of the tree before the call is in the tree after
    it, as a file or as a directory as before, whether the call returns or
    raises; and the only calls it makes on the tree are [os.makedirs] and
    [shutil.copy2]. *)
Theorem sync_removes_nothing fuel src dest w :
  let w' := (sync_folders_with_progress cwd now fuel src dest w).1 in
  kept (fs w) (fs w') ∧ ∃ l, log w' = log w ++ l ∧ Forall creates l.
Proof.
  apply (gentle_bind (sync_pass cwd now fuel src dest)
                     (λ _, sync_pass cwd now fuel dest src)).
  - apply gentle_walk_for. intros. apply gentle_sync_dir.
  - intros _. apply gentle_walk_for. intros. apply gentle_sync_dir.
Qed.

End NothingRemoved.

Section ScanFailure.
Variable cwd : string.
Variable now : Z.

Let clean (l : list entry) : Prop := Forall (λ en, ¬ is_failed en) l.
Let ends {A} (r : result A) (l : list entry) : Prop :=
  match r with
  | Raise e => clean l ∨ ∃ l' c, l = l' ++ [Failed c e] ∧ clean l'
  | _ => clean l
  end.
(** A failed call, if there is one, is the last entry a computation logs,
    and the computation raises its exception. *)
Let tidy {A} (m : M A) : Prop :=
  ∀ w, ∃ l, log (m w).1 = log w ++ l ∧ ends (m w).2 l.

Lemma tidy_pure {A} (m : M A) : (∀ w, (m w).1 = w) → tidy m.
Proof.
  intros Hm w. exists []. rewrite Hm, List.app_nil_r. split; [done|].
  unfold ends. destruct (m w).2; [constructor|left; constructor|constructor].
Qed.

Lemma tidy_bind {A B} (m : M A) (f : A → M B) :
  tidy m → (∀ a, tidy (f a)) → tidy (m ≫= f).
Proof.
  intros Hm Hf w. unfold mbind, M_bind, bind.
  destruct (Hm w) as (l1 & Hl1 & He1).
  destruct (m w) as [w1 [a|e|]]; simpl in *; [|by eauto..].
  destruct (Hf a w1) as (l2 & Hl2 & He2).
  exists (l1 ++ l2). rewrite Hl2, Hl1, List.app_assoc. split; [done|].
  unfold ends in *. destruct (f a w1).2 as [b|e|].
  - by apply Forall_app.
  - destruct He2 as [Hc|(l' & c & -> & Hc)].
    + left. by apply Forall_app.
    + right. exists (l1 ++ l'), c. rewrite List.app_assoc. split; [done|].
      by apply Forall_app.
  - by apply Forall_app.
Qed.

Lemma tidy_logged c op : tidy (logged c op).
Proof.
  intros w. unfold logged.
  destruct (op (fs w)) as [t1 [[]|e|]]; simpl.
  - exists [Completed c]. split; [done|]. apply Forall_singleton. by intros [].
  - exists [Failed c e]. split; [done|]. right. exists [], c. split; [done|constructor].
  - exists []. rewrite List.app_nil_r. split; [done|constructor].
Qed.

Lemma tidy_for_each {A} (l : list A) (body : A → M unit) :
  (∀ a, tidy (body a)) → tidy (for_each l body).
Proof.
  intros Hb. induction l as [|a l IH]; simpl.
  - by apply tidy_pure.
  - apply (tidy_bind (body a) (λ _, for_each l body)); auto.
Qed.

Lemma tidy_walk_for fuel body top :
  (∀ d ds fs, tidy (body d ds fs)) → tidy (walk_for cwd fuel body top).
Proof.
  intros Hb. revert top. induction fuel as [|fuel IH]; intros top.
  - by apply tidy_pure.
  - intros w. simpl.
    destruct (scandir cwd (fs w) top) as [[dirs files]|e|];
      [|by apply (tidy_pure (λ w, (w, Ok tt)))
       |by apply (tidy_pure (λ w, (w, OutOfFuel)))].
    apply (tidy_bind (body top dirs files)); [done|].
    intros _. by apply tidy_for_each.
Qed.

Lemma tidy_sync_file src_dir dest_dir file : tidy (sync_file cwd src_dir dest_dir file).
Proof.
  unfold sync_file. apply tidy_bind; [by apply tidy_pure|intros ex].
  apply tidy_bind.
  - destruct (negb ex); [by apply tidy_pure|].
    apply tidy_bind; [by apply tidy_pure|intros ?].
    apply tidy_bind; [by apply tidy_pure|intros ?]. by apply tidy_pure.
  - intros [|]; [apply tidy_logged|by apply tidy_pure].
Qed.

Lemma tidy_sync_dir src dest src_dir files :
  tidy (sync_dir cwd now src dest src_dir files).
Proof.
  unfold sync_dir. apply tidy_bind; [by apply tidy_pure|intros rel].
  apply tidy_bind; [by apply tidy_pure|intros ex].
  apply tidy_bind.
  - destruct (negb ex); [apply tidy_logged|by apply tidy_pure].
  - intros _. apply tidy_for_each. intros f. apply tidy_sync_file.
Qed.

Lemma tidy_sync fuel src dest : tidy (sync_folders_with_progress cwd now fuel src dest).
Proof.
  apply (tidy_bind (sync_pass cwd now fuel src dest)
                   (λ _, sync_pass cwd now fuel dest src)).
  - apply tidy_walk_for. intros. apply tidy_sync_dir.
  - intros _. apply tidy_walk_for. intros. apply tidy_sync_dir.
Qed.

(** C6, as the code has it: nothing in [sync_folders_with_progress]
    catches a failure.  When a copy (or a [makedirs]) of the scan fails,
    that call is the last thing the function does: no file after it is
    looked at, in either direction, and the function raises the exception
    of the failed call. *)
Theorem sync_stops_at_failure fuel src dest w l c e post :
  log (sync_folders_with_progress cwd now fuel src dest w).1
    = log w ++ l ++ Failed c e :: post →
  post = [] ∧ (sync_folders_with_progress cwd now fuel src dest w).2 = Raise e.
Proof.
  intros Hlog. destruct (tidy_sync fuel src dest w) as (lt & Hlt & Hends).
  rewrite Hlt in Hlog. apply app_inv_head in Hlog. subst lt.
  assert (¬ clean (l ++ Failed c e :: post)) as Hnc.
  { intros Hc. apply Forall_app in Hc as [_ Hc]. inversion Hc as [|?? Hf _]. by apply Hf. }
  unfold ends in Hends.
  destruct (sync_folders_with_progress cwd now fuel src dest w).2 as [[]|e'|];
    [done| |done].
  destruct Hends as [?|(l' & c' & Heq & Hc)]; [done|].
  destruct post as [|x post _] using rev_ind.
  - apply app_inj_tail in Heq as [_ [= _ ->]]. done.
  - rewrite app_comm_cons, List.app_assoc in Heq.
    apply app_inj_tail in Heq as [<- _].
    apply Forall_app in Hc as [_ Hc]. inversion Hc as [|?? Hf _]. by destruct Hf.
Qed.

End ScanFailure.

Lemma sync_stops_at_failure_witness :
  log (sync_folders_with_progress "/" 9 5 "/A" "/B" (World tree_blocked [])).1
    = [] ++ [] ++ Failed (CallCopy2 "/A/d/f" "/B/d/f") NotADirectoryError :: []
  ∧ ([] = ([] : list entry)
     ∧ (sync_folders_with_progress "/" 9 5 "/A" "/B" (World tree_blocked [])).2
       = Raise NotADirectoryError).
Proof.
  split; [by vm_compute|].
  apply (sync_stops_at_failure "/" 9 5 "/A" "/B" (World tree_blocked []) []
           (CallCopy2 "/A/d/f" "/B/d/f")).
  by vm_compute.
Defined.

(** C6 as stated fails: [B] has a file named [d] where [A] has a
    directory.  The copy of [/A/d/f] raises, the exception leaves
    [sync_folders_with_progress] uncaught, and [/B/only.txt], which the scan
    had still to reach, is not copied to [A]. *)
Lemma scan_aborted_by_one_file :
  let r := sync_folders_with_progress "/" 9 5 "/A" "/B" (World tree_blocked []) in
  r.2 = Raise NotADirectoryError
  ∧ log r.1 = [Failed (CallCopy2 "/A/d/f" "/B/d/f") NotADirectoryError]
  ∧ fs r.1 !! ["B"; "only.txt"] = Some (File "z" 5)
  ∧ fs r.1 !! ["A"; "only.txt"] = None.
Proof. by vm_compute. Qed.

(** ** One pass of the scan *)

Module pass_facts.
Import posixpath path_facts namei_facts split_facts tree_facts call_facts.

Lemma apart_ne (ka kb a b : key) : apart ka kb → ka ++ a ≠ kb ++ b.
Proof.
  intros [H1 H2] Heq.
  destruct (prefix_weak_total ka kb (ka ++ a)) as [?|?]; try done.
  - by apply prefix_app_r.
  - rewrite Heq. by apply prefix_app_r.
Qed.

Lemma apart_sym ka kb : apart ka kb → apart kb ka.
Proof. by intros [??]. Qed.

Lemma apart_not_under (ka kb a : key) : apart ka kb → ¬ kb `prefix_of` ka ++ a.
Proof. intros Hap [b Hb]. by apply (apart_ne ka kb a b). Qed.

Lemma insert_as_alter (t : tree) k n f :
  f (t !! k) = Some n → partial_alter f k t = <[k := n]> t.
Proof.
  intros Hf. apply map_eq. intros j. rewrite lookup_partial_alter, lookup_insert.
  by destruct (decide (k = j)); subst.
Qed.

Lemma push_dir_is_dir now mt d :
  compatible (Some (Dir mt)) d → is_dir_node (push now (Some (Dir mt)) d) = true.
Proof. by destruct d as [[]|]. Qed.

Section Pass.
Variable cwd : string.
Hypothesis cwd_abs : isabs cwd = true.
Variable now : Z.

(** One file of a directory of the source. *)
Lemma sync_file_spec t lg top dest_dir ksr kdr f :
  wf_tree t →
  namei cwd t top = Ok ksr → namei cwd t dest_dir = Ok kdr →
  is_dir_node (t !! kdr) = true →
  is_file_node (t !! (ksr ++ [f])) = true →
  compatible (t !! (ksr ++ [f])) (t !! (kdr ++ [f])) →
  ksr ++ [f] ≠ kdr ++ [f] →
  ∃ l, sync_file cwd top dest_dir f (World t lg)
       = (World (partial_alter (push now (t !! (ksr ++ [f]))) (kdr ++ [f]) t)
                (lg ++ l), Ok tt)
     ∧ (push now (t !! (ksr ++ [f])) (t !! (kdr ++ [f])) = t !! (kdr ++ [f]) → l = []).
Proof.
  intros Hwf Htop Hdd Hkd Hf Hcompat Hne.
  destruct (t !! (ksr ++ [f])) as [[c m|]|] eqn:Hsf; try done.
  destruct (wf_lookup _ _ _ _ Hwf Hsf) as [Hksr Hp].
  pose proof (namei_join_name cwd cwd_abs t top f ksr Htop Hksr Hp) as Hsrc.
  pose proof (namei_join_name cwd cwd_abs t dest_dir f kdr Hdd Hkd Hp) as Hdst.
  unfold sync_file, mbind, M_bind, bind, read, getmtime_now, ret, logged. simpl.
  destruct (t !! (kdr ++ [f])) as [[c' m'|]|] eqn:Hdf; try done.
  - rewrite (path_exists_Some cwd t _ _ Hdst) by (by rewrite Hdf). simpl.
    rewrite (getmtime_file cwd t _ _ _ _ Hsrc Hsf), (getmtime_file cwd t _ _ _ _ Hdst Hdf).
    destruct (m >? m') eqn:Hm; cbn [fs log].
    + rewrite (copy2_file cwd t _ _ _ _ c m Hsrc Hsf Hdst) by (done || by rewrite Hdf).
      eexists. split.
      * rewrite (insert_as_alter t _ (File c m)); [done|]. by rewrite Hdf; simpl; rewrite Hm.
      * intros [= _ ->]. lia.
    + exists []. rewrite List.app_nil_r. split; [|done].
      rewrite partial_alter_id; [done|]. by rewrite Hdf; simpl; rewrite Hm.
  - rewrite (path_exists_None cwd t _ _ Hdst Hdf). cbn [negb fs log].
    rewrite (copy2_file cwd t _ _ _ _ c m Hsrc Hsf Hdst) by (done || by rewrite Hdf).
    eexists. split.
    + rewrite (insert_as_alter t _ (File c m)); [done|]. by rewrite Hdf.
    + done.
Qed.


Variables src dest : string.
Variables ks kd : key.
Hypothesis Hapart : apart ks kd.

(** What a tree must satisfy for the pass from [src] to [dest]. *)
Let Inv (t : tree) : Prop :=
  namei cwd t src = Ok ks ∧ namei cwd t dest = Ok kd
  ∧ is_dir_node (t !! kd) = true
  ∧ ∀ x, compatible (t !! (ks ++ x)) (t !! (kd ++ x)).

(** [t'] is [t] with the keys in [C] brought to what the pass leaves. *)
Let Post (C : key → Prop) (t t' : tree) : Prop :=
  (∀ k, C k → t' !! k = pass_at now t ks kd k)
  ∧ (∀ k, ¬ C k → t' !! k = t !! k).

(** A piece of the pass: it returns, keeps the tree well formed, and logs
    nothing when there was nothing to do. *)
Let Step (C : key → Prop) (m : M unit) (t : tree) (t' : tree) : Prop :=
  wf_tree t' ∧ Post C t t'
  ∧ ∀ lg, ∃ l, m (World t lg) = (World t' (lg ++ l), Ok tt)
              ∧ ((∀ k, C k → pass_at now t ks kd k = t !! k) → l = []).

Lemma pass_at_under t x :
  pass_at now t ks kd (kd ++ x) = push now (t !! (ks ++ x)) (t !! (kd ++ x)).
Proof.
  unfold pass_at. rewrite decide_True by (by apply prefix_app_r).
  by rewrite drop_app_length.
Qed.

Lemma pass_at_outside t k : ¬ kd `prefix_of` k → pass_at now t ks kd k = t !! k.
Proof. intros Hk. unfold pass_at. by rewrite decide_False. Qed.

Lemma push_none d : push now None d = d.
Proof. by destruct d as [[]|]. Qed.

Lemma push_keeps_dir s d :
  is_dir_node d = true → push now s d = d.
Proof. by destruct s as [[]|], d as [[]|]. Qed.

Lemma push_compatible s d : compatible s d → compatible s (push now s d).
Proof.
  destruct s as [[? m|?]|], d as [[? m'|?]|]; simpl; try done.
  by destruct (m >? m').
Qed.

Lemma pass_at_keeps_dir t k :
  is_dir_node (t !! k) = true → pass_at now t ks kd k = t !! k.
Proof. intros Hk. unfold pass_at. case_decide; [|done]. by apply push_keeps_dir. Qed.

Section PostFacts.
Variable C : key → Prop.
Hypothesis C_under : ∀ k, C k → kd `prefix_of` k.

Lemma post_src t t' x : Post C t t' → t' !! (ks ++ x) = t !! (ks ++ x).
Proof.
  intros [_ Hout]. apply Hout. intros Hc%C_under. by apply (apart_not_under ks kd x).
Qed.

Lemma post_dir_mono t t' k :
  (∀ k, C k ∨ ¬ C k) →
  Post C t t' → is_dir_node (t !! k) = true → is_dir_node (t' !! k) = true.
Proof.
  intros Hdec [Hin Hout] Hk. destruct (Hdec k) as [Hc|Hc].
  - by rewrite (Hin k Hc), pass_at_keeps_dir.
  - by rewrite (Hout k Hc).
Qed.

Lemma post_inv t t' :
  (∀ k, C k ∨ ¬ C k) → Inv t → Post C t t' → Inv t'.
Proof.
  intros Hdec (Hs & Hd & Hkd & Hcomp) HP.
  assert (∀ k, is_dir_node (t !! k) = true → is_dir_node (t' !! k) = true) as Hmono.
  { intros k. by apply post_dir_mono. }
  split; [eapply namei_mono; by eauto|].
  split; [eapply namei_mono; by eauto|].
  split; [by auto|].
  intros x. rewrite (post_src t t' x HP).
  destruct HP as [Hin Hout]. destruct (Hdec (kd ++ x)) as [Hc|Hc].
  - rewrite (Hin _ Hc), pass_at_under. by apply push_compatible.
  - by rewrite (Hout _ Hc).
Qed.

End PostFacts.

Lemma pass_at_agree t t1 k :
  (∀ x, t1 !! (ks ++ x) = t !! (ks ++ x)) → t1 !! k = t !! k →
  pass_at now t1 ks kd k = pass_at now t ks kd k.
Proof. intros Hsrc Hk. unfold pass_at. by rewrite Hsrc, Hk. Qed.

Lemma step_ext C m m' t t' :
  (∀ lg, m (World t lg) = m' (World t lg)) → Step C m' t t' → Step C m t t'.
Proof.
  intros Hm (Hwf & HP & Hlog). split; [done|]. split; [done|].
  intros lg. rewrite Hm. apply Hlog.
Qed.

Lemma step_weaken (C C' : key → Prop) m t t' :
  (∀ k, C k → C' k) →
  (∀ k, C' k → C k ∨ (¬ C k ∧ pass_at now t ks kd k = t !! k)) →
  Step C m t t' → Step C' m t t'.
Proof.
  intros Hsub Hsup (Hwf & [Hin Hout] & Hlog). split; [done|]. split; [split|].
  - intros k [Hc|[Hc Hk]]%Hsup; [by apply Hin|]. by rewrite Hk, Hout.
  - intros k Hc. apply Hout. auto.
  - intros lg. destruct (Hlog lg) as (l & Hm & Hq). exists l. split; [done|].
    intros Hall. apply Hq. auto.
Qed.

Lemma step_equiv (C C' : key → Prop) m t t' :
  (∀ k, C k ↔ C' k) → Step C m t t' → Step C' m t t'.
Proof.
  intros Heq. apply step_weaken.
  - intros k. by apply Heq.
  - intros k Hk. left. by apply Heq.
Qed.

Lemma step_seq (C1 C2 : key → Prop) (m1 m2 : M unit) t t1 t2 :
  (∀ k, C1 k → kd `prefix_of` k) → (∀ k, C1 k → ¬ C2 k) →
  Step C1 m1 t t1 → Step C2 m2 t1 t2 →
  Step (λ k, C1 k ∨ C2 k) (m1 ;; m2) t t2.
Proof.
  intros Hunder Hdisj (Hwf1 & HP1 & Hlog1) (Hwf2 & HP2 & Hlog2).
  assert (∀ k, C2 k → pass_at now t1 ks kd k = pass_at now t ks kd k) as Hagree.
  { intros k Hc2. apply pass_at_agree.
    - intros x. by apply (post_src C1).
    - apply HP1. intros Hc1. by apply (Hdisj k). }
  split; [done|]. split; [split|].
  - intros k [Hc|Hc].
    + destruct HP2 as [_ ->]; [|by apply Hdisj]. by apply HP1.
    + destruct HP2 as [-> _]; [|done]. by apply Hagree.
  - intros k Hc. destruct HP2 as [_ ->]; [|tauto]. apply HP1. tauto.
  - intros lg. destruct (Hlog1 lg) as (l1 & Hm1 & Hq1).
    destruct (Hlog2 (lg ++ l1)) as (l2 & Hm2 & Hq2).
    exists (l1 ++ l2). unfold mbind, M_bind, bind. rewrite Hm1, Hm2.
    rewrite List.app_assoc. split; [done|]. intros Hall.
    rewrite Hq1 by auto. rewrite Hq2; [done|].
    intros k Hc2. rewrite Hagree by done. rewrite Hall by auto.
    symmetry. apply HP1. intros Hc1. by apply (Hdisj k).
Qed.

Lemma step_skip t : wf_tree t → Step (λ _, False) (ret tt) t t.
Proof.
  intros Hwf. split; [done|]. split; [by split|].
  intros lg. exists []. by rewrite List.app_nil_r.
Qed.

(** A loop whose iterations work on regions that do not meet. *)
Lemma step_for_each {A} (l : list A) (body : A → M unit)
    (R : A → key → Prop) (P : tree → Prop) t :
  NoDup l →
  (∀ a k, R a k → kd `prefix_of` k) →
  (∀ a b k, a ≠ b → R a k → ¬ R b k) →
  (∀ a t t', P t → Step (R a) (body a) t t' → P t') →
  (∀ a t, a ∈ l → P t → ∃ t', Step (R a) (body a) t t') →
  P t → wf_tree t →
  ∃ t', Step (λ k, ∃ a, a ∈ l ∧ R a k) (for_each l body) t t' ∧ P t'.
Proof.
  intros Hnd Hunder Hdisj Hstable Hbody. revert t.
  induction Hnd as [|a l Ha Hnd IH]; intros t HP Hwf.
  - exists t. split; [|done]. eapply step_equiv; [|by apply step_skip].
    intros k. split; [done|]. by intros (a & ?%elem_of_nil & _).
  - destruct (Hbody a t) as (t1 & Hs1); [by left|done|].
    assert (P t1) as HP1 by eauto.
    destruct IH with (t := t1) as (t2 & Hs2 & HP2); [|done|by destruct Hs1|].
    { intros b t' Hb. apply Hbody. by right. }
    exists t2. split; [|done]. simpl.
    eapply step_equiv; [|eapply (step_seq (R a) _ (body a) (for_each l body)); eauto].
    + intros k. split.
      * intros [Hr|(b & Hb & Hr)]; [exists a|exists b]; split; auto; by constructor.
      * intros (b & [->|Hb]%elem_of_cons & Hr); [by left|right; eauto].
    + intros k Hr (b & Hb & Hr'). apply (Hdisj a b k); [|done..].
      intros ->. done.
Qed.

(** The invariant of the walk, at the directory [top] with relative key
    [r]: the source side is that of the tree [t0] the pass started in, and
    the destination directories above [r] exist. *)
Variable t0 : tree.

Let Ready (r : key) (top : string) (t : tree) : Prop :=
  wf_tree t ∧ Inv t
  ∧ (∀ x, t !! (ks ++ x) = t0 !! (ks ++ x))
  ∧ namei cwd t top = Ok (ks ++ r)
  ∧ (∀ r', r' `prefix_of` r → r' ≠ r → is_dir_node (t !! (kd ++ r')) = true).

Lemma ready_stable (C : key → Prop) m r top t t' :
  (∀ k, C k → kd `prefix_of` k) → (∀ k, C k ∨ ¬ C k) →
  Ready r top t → Step C m t t' → Ready r top t'.
Proof.
  intros Hunder Hdec (Hwf & HI & Hsrc & Htop & Hpre) (Hwf' & HP & _).
  assert (∀ k, is_dir_node (t !! k) = true → is_dir_node (t' !! k) = true) as Hmono.
  { intros k. by apply (post_dir_mono C). }
  split; [done|]. split; [by apply (post_inv C Hunder t t')|].
  split; [intros x; by rewrite (post_src C Hunder t t' x HP)|].
  split; [eapply namei_mono; by eauto|]. auto.
Qed.

Lemma ready_proper r top t : Ready r top t → Forall proper_name r.
Proof.
  intros (_ & _ & _ & Htop & _).
  apply (namei_abs_list cwd cwd_abs) in Htop as [_ Hp].
  by apply Forall_app in Hp as [_ ?].
Qed.

Lemma ready_relpath r top t :
  Ready r top t → relpath cwd top src = Ok (rel_of r).
Proof.
  intros (_ & (Hs & _) & _ & Htop & _).
  apply relpath_under; [done|by eapply namei_nonempty|].
  apply (namei_abs_list cwd cwd_abs) in Hs as [-> _].
  by apply (namei_abs_list cwd cwd_abs) in Htop as [-> _].
Qed.

Lemma ready_dest_dir r top t :
  Ready r top t → namei cwd t (join dest (rel_of r)) = Ok (kd ++ r).
Proof.
  intros HR. pose proof (ready_proper _ _ _ HR).
  destruct HR as (_ & (_ & Hd & Hkd & _) & _ & _ & Hpre).
  by apply namei_join_rel.
Qed.

Lemma dest_dir_basename r :
  Forall proper_name r → (split (join dest (rel_of r))).2 ≠ "".
Proof.
  intros Hr. apply basename_nonempty.
  - by apply join_nonempty, rel_of_nonempty.
  - rewrite endswith_join; auto using endswith_rel_of, rel_of_nonempty, rel_of_not_abs.
Qed.

Lemma key_snoc_app (k r : key) :
  r ≠ [] → k ++ r = (k ++ removelast r) ++ [List.last r ""].
Proof. intros Hr. rewrite <- List.app_assoc. f_equal. by apply key_snoc_inv. Qed.

(** [if not os.path.exists(dest_dir): os.makedirs(dest_dir)] *)
Let ensure_dir (dest_dir : string) : M unit :=
  dest_dir_exists ← read (λ t, path_exists cwd t dest_dir);
  if negb dest_dir_exists
  then logged (CallMakedirs dest_dir) (λ t, makedirs_tree cwd now false t dest_dir)
  else ret tt.

Lemma step_ensure_dir r top t :
  Ready r top t → is_dir_node (t0 !! (ks ++ r)) = true →
  ∃ t', Step (λ k, k = kd ++ r) (ensure_dir (join dest (rel_of r))) t t'
        ∧ is_dir_node (t' !! (kd ++ r)) = true.
Proof.
  intros HR Hsd. pose proof (ready_proper _ _ _ HR) as Hr.
  pose proof (ready_dest_dir _ _ _ HR) as Hdd.
  destruct HR as (Hwf & (_ & Hd & Hkd & Hcomp) & Hsrc & _ & Hpre).
  specialize (Hcomp r). rewrite Hsrc in Hcomp.
  destruct (t0 !! (ks ++ r)) as [[|mt]|] eqn:Hs0; try done.
  destruct (t !! (kd ++ r)) as [[|mt']|] eqn:Hdr; try done.
  - (* the directory is there *)
    exists t. split; [|by rewrite Hdr]. split; [done|]. split; [split|].
    + intros k ->. by rewrite pass_at_keeps_dir by (by rewrite Hdr).
    + done.
    + intros lg. exists []. rewrite List.app_nil_r. split; [|done].
      unfold ensure_dir, mbind, M_bind, bind, read. cbn [fs].
      by rewrite (path_exists_Some cwd t _ _ Hdd) by (by rewrite Hdr).
  - (* it is made *)
    assert (r ≠ []) as Hne.
    { intros ->. rewrite List.app_nil_r in Hdr. by rewrite Hdr in Hkd. }
    exists (<[kd ++ r := Dir now]> t). split; [|by rewrite lookup_insert_eq].
    split; [|split; [split|]].
    + rewrite (key_snoc_app kd r Hne). apply wf_insert; [done| | |].
      * destruct (decide (removelast r = [])) as [->|?].
        { by rewrite List.app_nil_r. }
        apply Hpre; [|rewrite (key_snoc_inv r Hne) at 2; intros Heq].
        -- rewrite (key_snoc_inv r Hne) at 2. by apply prefix_app_r.
        -- apply (f_equal List.length) in Heq. rewrite length_app in Heq.
           simpl in Heq. lia.
      * rewrite Forall_forall in Hr. apply Hr.
        rewrite (key_snoc_inv r Hne). apply elem_of_app. right.
        rewrite last_last. by left.
      * by rewrite <- key_snoc_app, Hdr.
    + intros k ->. rewrite lookup_insert_eq, pass_at_under, Hsrc, Hs0, Hdr. done.
    + intros k Hk. by rewrite lookup_insert_ne.
    + intros lg. eexists. split.
      * unfold ensure_dir, mbind, M_bind, bind, read, logged. cbn [fs log].
        rewrite (path_exists_None cwd t _ _ Hdd Hdr). cbn [negb].
        erewrite makedirs_fresh; [done|by apply dest_dir_basename|exact Hdd|exact Hdr].
      * intros Hq. specialize (Hq (kd ++ r) eq_refl).
        rewrite pass_at_under, Hsrc, Hs0, Hdr in Hq. done.
Qed.

Lemma step_file r top t f :
  Ready r top t → is_dir_node (t !! (kd ++ r)) = true →
  is_file_node (t0 !! (ks ++ r ++ [f])) = true →
  ∃ t', Step (λ k, k = kd ++ r ++ [f])
             (sync_file cwd top (join dest (rel_of r)) f) t t'.
Proof.
  intros HR Hkdr Hf. pose proof (ready_dest_dir _ _ _ HR) as Hdd.
  destruct HR as (Hwf & (_ & _ & _ & Hcomp) & Hsrc & Htop & _).
  specialize (Hcomp (r ++ [f])). rewrite <- Hsrc in Hf.
  replace (ks ++ r ++ [f]) with ((ks ++ r) ++ [f]) in Hcomp, Hf
    by by rewrite <- List.app_assoc.
  replace (kd ++ r ++ [f]) with ((kd ++ r) ++ [f]) in Hcomp
    by by rewrite <- List.app_assoc.
  assert ((ks ++ r) ++ [f] ≠ (kd ++ r) ++ [f]) as Hne.
  { rewrite <- !List.app_assoc. by apply apart_ne. }
  exists (partial_alter (push now (t !! ((ks ++ r) ++ [f]))) ((kd ++ r) ++ [f]) t).
  split; [|split; [split|]].
  - destruct (t !! ((ks ++ r) ++ [f])) as [[c m|]|] eqn:Hsf; try done.
    destruct (wf_lookup _ _ _ _ Hwf Hsf) as [_ Hp].
    destruct (t !! ((kd ++ r) ++ [f])) as [[c' m'|]|] eqn:Hdf; try done.
    + destruct (m >? m') eqn:Hm.
      * rewrite (insert_as_alter _ _ (File c m)) by (by rewrite Hdf; simpl; rewrite Hm).
        apply wf_insert; [done..|by rewrite Hdf].
      * by rewrite partial_alter_id by (by rewrite Hdf; simpl; rewrite Hm).
    + rewrite (insert_as_alter _ _ (File c m)) by (by rewrite Hdf).
      apply wf_insert; [done..|by rewrite Hdf].
  - intros k ->. rewrite pass_at_under, !List.app_assoc.
    by rewrite lookup_partial_alter_eq.
  - intros k Hk. rewrite lookup_partial_alter_ne; [done|].
    by rewrite <- List.app_assoc.
  - intros lg.
    destruct (sync_file_spec t lg top (join dest (rel_of r)) (ks ++ r) (kd ++ r) f)
      as (l & Hrun & Hq); try done.
    exists l. split; [done|]. intros Hall. apply Hq.
    specialize (Hall (kd ++ r ++ [f]) eq_refl).
    by rewrite pass_at_under, !List.app_assoc in Hall.
Qed.

(** [Ready] with the destination directory of [r] in place. *)
Let Open (r : key) (top : string) (t : tree) : Prop :=
  Ready r top t ∧ is_dir_node (t !! (kd ++ r)) = true.

Lemma open_stable (C : key → Prop) m r top t t' :
  (∀ k, C k → kd `prefix_of` k) → (∀ k, C k ∨ ¬ C k) →
  Open r top t → Step C m t t' → Open r top t'.
Proof.
  intros Hunder Hdec [HR Hd] HS. split; [by eapply ready_stable|].
  destruct HS as (_ & HP & _). by apply (post_dir_mono C t t').
Qed.

Lemma under_dest (x : key) : kd `prefix_of` kd ++ x.
Proof. by apply prefix_app_r. Qed.

Lemma step_files r top t files :
  NoDup files →
  (∀ f, f ∈ files → is_file_node (t0 !! (ks ++ r ++ [f])) = true) →
  Open r top t →
  ∃ t', Step (λ k, ∃ f, f ∈ files ∧ k = kd ++ r ++ [f])
             (for_each files (sync_file cwd top (join dest (rel_of r)))) t t'
        ∧ Open r top t'.
Proof.
  intros Hnd Hfiles HO.
  apply (step_for_each files _ (λ f k, k = kd ++ r ++ [f]) (Open r top)); try done.
  - intros f k ->. apply under_dest.
  - intros f f' k Hne -> Heq. apply Hne.
    apply app_inv_head in Heq. apply app_inv_head in Heq. congruence.
  - intros f t1 t2 HO1 HS. eapply open_stable; [| |done..].
    + intros k ->. apply under_dest.
    + intros k. destruct (decide (k = kd ++ r ++ [f])); auto.
  - intros f t1 Hf [HR1 Hd1]. by apply step_file; auto.
  - by destruct HO as [[? _] _].
Qed.

Lemma sync_dir_unfold r top t lg files :
  Ready r top t →
  sync_dir cwd now src dest top files (World t lg)
  = (ensure_dir (join dest (rel_of r));;
     for_each files (sync_file cwd top (join dest (rel_of r)))) (World t lg).
Proof.
  intros HR. unfold sync_dir, ensure_dir, mbind, M_bind, bind, lift, read.
  rewrite (ready_relpath _ _ _ HR). done.
Qed.

(** The body of the walk at the directory [top]. *)
Lemma step_sync_dir r top t files :
  Ready r top t → is_dir_node (t0 !! (ks ++ r)) = true →
  NoDup files →
  (∀ f, f ∈ files → is_file_node (t0 !! (ks ++ r ++ [f])) = true) →
  ∃ t', Step (λ k, k = kd ++ r ∨ ∃ f, f ∈ files ∧ k = kd ++ r ++ [f])
             (sync_dir cwd now src dest top files) t t'
        ∧ Open r top t'.
Proof.
  intros HR Hsd Hnd Hfiles.
  destruct (step_ensure_dir r top t HR Hsd) as (t1 & HS1 & Hd1).
  assert (Open r top t1) as HO1.
  { split; [|done]. eapply (ready_stable (λ k, k = kd ++ r)); [| |exact HR|exact HS1].
    - intros k ->. apply under_dest.
    - intros k. destruct (decide (k = kd ++ r)); auto. }
  destruct (step_files r top t1 files Hnd Hfiles HO1) as (t2 & HS2 & HO2).
  exists t2. split; [|done].
  eapply step_ext; [intros lg; by apply sync_dir_unfold|].
  eapply step_seq; [| |exact HS1|exact HS2].
  - intros k ->. apply under_dest.
  - intros k -> (f & _ & Heq). apply app_inv_head in Heq.
    apply (f_equal List.length) in Heq. rewrite length_app in Heq. simpl in Heq. lia.
Qed.

Lemma under_child_dest (r : key) (d : string) (k : key) :
  (kd ++ r ++ [d]) `prefix_of` k → kd `prefix_of` k.
Proof. intros Hk. etrans; [|exact Hk]. apply prefix_app_r. done. Qed.

Lemma child_regions_apart (r : key) (d d' : string) (k : key) :
  d ≠ d' → (kd ++ r ++ [d]) `prefix_of` k → ¬ (kd ++ r ++ [d']) `prefix_of` k.
Proof.
  intros Hne [y Hy] [y' Hy']. apply Hne. rewrite Hy in Hy'.
  rewrite <- !List.app_assoc in Hy'. do 2 apply app_inv_head in Hy'.
  simpl in Hy'. congruence.
Qed.

Lemma ready_child r top t d :
  Open r top t → is_dir_node (t0 !! (ks ++ r ++ [d])) = true →
  Ready (r ++ [d]) (join top d) t.
Proof.
  intros [(Hwf & HI & Hsrc & Htop & Hpre) Hkdr] Hd.
  split; [done|]. split; [done|]. split; [done|]. split.
  - rewrite List.app_assoc. rewrite <- Hsrc, List.app_assoc in Hd.
    destruct (t !! ((ks ++ r) ++ [d])) as [n|] eqn:Hn; [|done].
    destruct (wf_lookup _ _ _ _ Hwf Hn) as [Hp Hc].
    by apply namei_join_name.
  - intros r' [y Hy] Hne.
    destruct y as [|c y _] using rev_ind.
    { rewrite List.app_nil_r in Hy. congruence. }
    rewrite List.app_assoc in Hy. apply app_inj_tail in Hy as [-> _].
    destruct (decide (y = [])) as [->|Hy].
    + by rewrite List.app_nil_r in Hkdr.
    + apply Hpre; [by apply prefix_app_r|].
      intros Heq. apply (f_equal List.length) in Heq. rewrite length_app in Heq.
      destruct y; [done|]. simpl in Heq. lia.
Qed.

(** The keys at and below the destination of [r]: the directory itself
    and the files the body handles, then the regions of the directories
    below; every other key there is one the pass leaves as it is. *)
Lemma walk_regions (r : key) (t : tree) (dirs files : list string) :
  wf_tree t →
  (∀ x, t !! (ks ++ x) = t0 !! (ks ++ x)) →
  (∀ d, d ∈ dirs ↔ is_dir_node (t0 !! (ks ++ r ++ [d])) = true) →
  (∀ f, f ∈ files ↔ is_file_node (t0 !! (ks ++ r ++ [f])) = true) →
  (∀ k, (k = kd ++ r ∨ (∃ f, f ∈ files ∧ k = kd ++ r ++ [f]))
        ∨ (∃ d, d ∈ dirs ∧ (kd ++ r ++ [d]) `prefix_of` k) →
        (kd ++ r) `prefix_of` k)
  ∧ (∀ k, (kd ++ r) `prefix_of` k →
        ((k = kd ++ r ∨ (∃ f, f ∈ files ∧ k = kd ++ r ++ [f]))
         ∨ (∃ d, d ∈ dirs ∧ (kd ++ r ++ [d]) `prefix_of` k))
        ∨ (¬ ((k = kd ++ r ∨ (∃ f, f ∈ files ∧ k = kd ++ r ++ [f]))
              ∨ (∃ d, d ∈ dirs ∧ (kd ++ r ++ [d]) `prefix_of` k))
           ∧ pass_at now t ks kd k = t !! k))
  ∧ (∀ k, k = kd ++ r ∨ (∃ f, f ∈ files ∧ k = kd ++ r ++ [f]) → kd `prefix_of` k)
  ∧ (∀ k, k = kd ++ r ∨ (∃ f, f ∈ files ∧ k = kd ++ r ++ [f]) →
          ¬ ∃ d, d ∈ dirs ∧ (kd ++ r ++ [d]) `prefix_of` k).
Proof.
  intros Hwf Hsrc Hdirs Hfiles. split; [|split; [|split]].
  - intros k [[->|(f & _ & ->)]|(d & _ & Hk)].
    + done.
    + rewrite List.app_assoc. by apply prefix_app_r.
    + etrans; [|exact Hk]. rewrite List.app_assoc. by apply prefix_app_r.
  - intros k [y ->]. rewrite <- List.app_assoc.
    destruct y as [|c y]. { left. left. left. by rewrite List.app_nil_r. }
    destruct (t0 !! (ks ++ r ++ [c])) as [[cc mm|mt]|] eqn:Hc.
    + (* a file of the source *)
      destruct y as [|c' y].
      { left. left. right. exists c. split; [|done]. apply Hfiles. by rewrite Hc. }
      right. split.
      * intros [[Heq|(f & _ & Heq)]|(d & Hd%Hdirs & Hk)].
        -- apply app_inv_head in Heq. apply (f_equal List.length) in Heq.
           rewrite length_app in Heq. simpl in Heq. lia.
        -- do 2 apply app_inv_head in Heq. done.
        -- destruct Hk as [z Hz]. rewrite <- !List.app_assoc in Hz.
           do 2 apply app_inv_head in Hz. injection Hz as -> _.
           by rewrite Hc in Hd.
      * rewrite pass_at_under.
        replace (ks ++ r ++ c :: c' :: y) with ((ks ++ r ++ [c]) ++ c' :: y)
          by by rewrite <- !List.app_assoc.
        rewrite (wf_none_below t (ks ++ r ++ [c]) (c' :: y)), push_none;
          [done|done| |done].
        by rewrite Hsrc, Hc.
    + (* a directory of the source *)
      left. right. exists c. split; [apply Hdirs; by rewrite Hc|].
      exists y. by rewrite <- !List.app_assoc.
    + (* no entry of the source *)
      right. split.
      * intros [[Heq|(f & Hf%Hfiles & Heq)]|(d & Hd%Hdirs & Hk)].
        -- apply app_inv_head in Heq. apply (f_equal List.length) in Heq.
           rewrite length_app in Heq. simpl in Heq. lia.
        -- do 2 apply app_inv_head in Heq. injection Heq as -> _.
           by rewrite Hc in Hf.
        -- destruct Hk as [z Hz]. rewrite <- !List.app_assoc in Hz.
           do 2 apply app_inv_head in Hz. injection Hz as -> _.
           by rewrite Hc in Hd.
      * rewrite pass_at_under.
        assert (t !! (ks ++ r ++ c :: y) = None) as ->; [|by rewrite push_none].
        destruct y as [|c' y]; [by rewrite Hsrc|].
        replace (ks ++ r ++ c :: c' :: y) with ((ks ++ r ++ [c]) ++ c' :: y)
          by by rewrite <- !List.app_assoc.
        apply wf_none_below; [done| |done]. by rewrite Hsrc, Hc.
  - intros k [->|(f & _ & ->)]; apply under_dest.
  - intros k [->|(f & Hf%Hfiles & ->)] (d & Hd%Hdirs & Hk).
    + destruct Hk as [z Hz]. rewrite <- !List.app_assoc in Hz.
      apply app_inv_head in Hz. apply (f_equal List.length) in Hz.
      rewrite !length_app in Hz. simpl in Hz. lia.
    + destruct Hk as [z Hz]. rewrite <- !List.app_assoc in Hz.
      do 2 apply app_inv_head in Hz. simpl in Hz. injection Hz as -> _.
      destruct (t0 !! (ks ++ r ++ [d])) as [[]|]; done.
Qed.

(** What the walk finds at the directory [top], and the walks of the
    directories below it. *)
Lemma walk_children fuel r top t :
  (∀ r top t,
     Ready r top t → is_dir_node (t0 !! (ks ++ r)) = true →
     (∀ x, is_Some (t0 !! (ks ++ r ++ x)) → (List.length x < fuel)%nat) →
     ∃ t', Step (λ k, (kd ++ r) `prefix_of` k)
                (walk_for cwd fuel
                   (λ src_dir _ files, sync_dir cwd now src dest src_dir files) top)
                t t') →
  Ready r top t → is_dir_node (t0 !! (ks ++ r)) = true →
  (∀ x, is_Some (t0 !! (ks ++ r ++ x)) → (List.length x < S fuel)%nat) →
  ∃ dirs files t1 t2,
    scandir cwd t top = Ok (dirs, files)
    ∧ NoDup dirs ∧ NoDup files
    ∧ (∀ d, d ∈ dirs ↔ is_dir_node (t0 !! (ks ++ r ++ [d])) = true)
    ∧ (∀ f, f ∈ files ↔ is_file_node (t0 !! (ks ++ r ++ [f])) = true)
    ∧ Step (λ k, k = kd ++ r ∨ ∃ f, f ∈ files ∧ k = kd ++ r ++ [f])
           (sync_dir cwd now src dest top files) t t1
    ∧ Open r top t1
    ∧ Step (λ k, ∃ d, d ∈ dirs ∧ (kd ++ r ++ [d]) `prefix_of` k)
           (for_each dirs
              (λ d, walk_for cwd fuel
                      (λ src_dir _ files, sync_dir cwd now src dest src_dir files)
                      (join top d))) t1 t2
    ∧ (∀ d t', d ∈ dirs → Open r top t' →
         Ready (r ++ [d]) (join top d) t'
         ∧ is_dir_node (t0 !! (ks ++ (r ++ [d]))) = true
         ∧ ∀ x, is_Some (t0 !! (ks ++ (r ++ [d]) ++ x)) → (List.length x < fuel)%nat).
Proof.
  intros IH HR Hsd Hdepth.
  pose proof HR as (Hwf & HI & Hsrc & Htop & Hpre).
  assert (∀ c, t !! ((ks ++ r) ++ [c]) = t0 !! (ks ++ r ++ [c])) as Hchild.
  { intros c. by rewrite <- List.app_assoc, Hsrc. }
  destruct (scandir_dir cwd t top (ks ++ r) Htop)
    as (dirs & files & Hscan & Hnd_d & Hnd_f & Hdirs & Hfiles).
  { by rewrite Hsrc. }
  setoid_rewrite Hchild in Hdirs. setoid_rewrite Hchild in Hfiles.
  destruct (step_sync_dir r top t files HR Hsd Hnd_f) as (t1 & HS1 & HO1).
  { intros f. apply Hfiles. }
  assert (∀ d t', d ∈ dirs → Open r top t' →
            Ready (r ++ [d]) (join top d) t'
            ∧ is_dir_node (t0 !! (ks ++ (r ++ [d]))) = true
            ∧ ∀ x, is_Some (t0 !! (ks ++ (r ++ [d]) ++ x)) →
                   (List.length x < fuel)%nat) as Hbelow.
  { intros d t' Hd%Hdirs HO. split; [by apply ready_child|].
    split; [done|]. intros x Hx. rewrite <- !List.app_assoc in Hx. simpl in Hx.
    specialize (Hdepth (d :: x) Hx). simpl in Hdepth. lia. }
  destruct (step_for_each dirs
              (λ d, walk_for cwd fuel
                      (λ src_dir _ files, sync_dir cwd now src dest src_dir files)
                      (join top d))
              (λ d k, (kd ++ r ++ [d]) `prefix_of` k) (Open r top) t1)
    as (t2 & HS2 & HO2); try done.
  - intros d k. apply under_child_dest.
  - intros d d' k. apply child_regions_apart.
  - intros d t' t'' HO HS. eapply open_stable; [| |done..].
    + intros k. apply under_child_dest.
    + intros k. destruct (decide ((kd ++ r ++ [d]) `prefix_of` k)); auto.
  - intros d t' Hd HO. destruct (Hbelow d t' Hd HO) as (? & ? & ?).
    by apply (IH (r ++ [d]) (join top d) t').
  - by destruct HS1.
  - exists dirs, files, t1, t2. do 8 (split; [done|]). done.
Qed.

(** The walk of the source directory with relative key [r] brings the
    keys at and below the same key of the destination to what the pass
    leaves. *)
Lemma step_walk fuel r top t :
  Ready r top t → is_dir_node (t0 !! (ks ++ r)) = true →
  (∀ x, is_Some (t0 !! (ks ++ r ++ x)) → (List.length x < fuel)%nat) →
  ∃ t', Step (λ k, (kd ++ r) `prefix_of` k)
             (walk_for cwd fuel
                (λ src_dir _ files, sync_dir cwd now src dest src_dir files) top)
             t t'.
Proof.
  revert r top t. induction fuel as [|fuel IH]; intros r top t HR Hsd Hdepth.
  { specialize (Hdepth []). rewrite List.app_nil_r in Hdepth.
    destruct (t0 !! (ks ++ r)); [|done]. simpl in Hdepth.
    specialize (Hdepth ltac:(eauto)). lia. }
  destruct (walk_children fuel r top t IH HR Hsd Hdepth)
    as (dirs & files & t1 & t2 & Hscan & _ & _ & Hdirs & Hfiles & HS1 & _ & HS2 & _).
  destruct HR as (Hwf & _ & Hsrc & _).
  destruct (walk_regions r t dirs files Hwf Hsrc Hdirs Hfiles) as (HA & HB & HC & HD).
  exists t2.
  eapply step_ext.
  { intros lg. cbn [walk_for fs]. rewrite Hscan. reflexivity. }
  eapply step_weaken; [exact HA|exact HB|].
  eapply step_seq; [exact HC|exact HD|exact HS1|exact HS2].
Qed.

(** *** The calls a pass logs

    A piece of the pass that works on the region [C] logs, besides the
    directories it makes, one [copy2] call for every file of the source
    whose destination in [C] is missing or strictly older, and no other. *)

Let Logged (C : key → Prop) (t : tree) (l : list entry) : Prop :=
  (∀ en, en ∈ l →
     (∃ p, en = Completed (CallMakedirs p))
     ∨ ∃ s d x c m,
         en = Completed (CallCopy2 s d)
         ∧ abs_list cwd s = ks ++ x ∧ abs_list cwd d = kd ++ x ∧ C (kd ++ x)
         ∧ t !! (ks ++ x) = Some (File c m) ∧ outdated m (t !! (kd ++ x)))
  ∧ (∀ x c m, C (kd ++ x) → t !! (ks ++ x) = Some (File c m) →
       outdated m (t !! (kd ++ x)) → copied cwd l (ks ++ x) (kd ++ x)).

Let Trace (C : key → Prop) (m : M unit) (t : tree) : Prop :=
  ∀ lg t' l, m (World t lg) = (World t' (lg ++ l), Ok tt) → Logged C t l.

Lemma outdated_push c m d : outdated m d → push now (Some (File c m)) d ≠ d.
Proof.
  intros [->|(c' & m' & -> & Hm)]; simpl; [done|].
  destruct (Z.gtb_spec m m'); [|lia]. intros [= -> ->]. lia.
Qed.

Lemma run_nil (t t' : tree) (lg l : list entry) :
  (World t lg, Ok tt) = (World t' (lg ++ l), Ok tt) → l = [].
Proof.
  intros [= _ Hl]. rewrite <- (List.app_nil_r lg) in Hl at 1.
  by apply app_inv_head in Hl.
Qed.

Lemma logged_Ok (c : call) (op : tree → tree * result unit)
    (t t' : tree) (lg l : list entry) :
  logged c op (World t lg) = (World t' (lg ++ l), Ok tt) → l = [Completed c].
Proof.
  unfold logged. cbn [fs log]. destruct (op t) as [t1 [[]|e|]]; [|done..].
  intros [= _ Hl]. by apply app_inv_head in Hl.
Qed.

Lemma trace_ext C m m' t :
  (∀ lg, m (World t lg) = m' (World t lg)) → Trace C m' t → Trace C m t.
Proof. intros Hm HT lg t' l Hrun. rewrite Hm in Hrun. by eapply HT. Qed.

Lemma trace_weaken (C C' : key → Prop) m t :
  (∀ k, C k → C' k) →
  (∀ k, C' k → C k ∨ (¬ C k ∧ pass_at now t ks kd k = t !! k)) →
  Trace C m t → Trace C' m t.
Proof.
  intros Hsub Hsup HT lg t' l Hrun. destruct (HT lg t' l Hrun) as [Ha Hb]. split.
  - intros en Hen.
    destruct (Ha en Hen) as [?|(s & d & x & c & mt & ? & ? & ? & ? & ? & ?)];
      [by left|].
    right. exists s, d, x, c, mt. auto 10.
  - intros x c mt [Hc|[Hc Hk]]%Hsup Hs Ho; [by eapply Hb|].
    rewrite pass_at_under, Hs in Hk. by destruct (outdated_push c mt _ Ho).
Qed.

Lemma trace_equiv (C C' : key → Prop) m t :
  (∀ k, C k ↔ C' k) → Trace C m t → Trace C' m t.
Proof.
  intros Heq. apply trace_weaken.
  - intros k. by apply Heq.
  - intros k Hk. left. by apply Heq.
Qed.

Lemma trace_seq (C1 C2 : key → Prop) (m1 m2 : M unit) t t1 t2 :
  (∀ k, C1 k → kd `prefix_of` k) → (∀ k, C1 k → ¬ C2 k) →
  Step C1 m1 t t1 → Step C2 m2 t1 t2 →
  Trace C1 m1 t → Trace C2 m2 t1 →
  Trace (λ k, C1 k ∨ C2 k) (m1 ;; m2) t.
Proof.
  intros Hunder Hdisj (Hwf1 & HP1 & Hlog1) (Hwf2 & HP2 & Hlog2) HT1 HT2 lg t' l Hrun.
  destruct (Hlog1 lg) as (l1 & Hm1 & _).
  destruct (Hlog2 (lg ++ l1)) as (l2 & Hm2 & _).
  unfold mbind, M_bind, bind in Hrun. rewrite Hm1, Hm2 in Hrun.
  injection Hrun as _ Hl. rewrite <- List.app_assoc in Hl.
  apply app_inv_head in Hl as <-.
  destruct (HT1 lg t1 l1 Hm1) as [Ha1 Hb1].
  destruct (HT2 (lg ++ l1) t2 l2 Hm2) as [Ha2 Hb2].
  assert (∀ x, C2 (kd ++ x) →
               t1 !! (ks ++ x) = t !! (ks ++ x)
               ∧ t1 !! (kd ++ x) = t !! (kd ++ x)) as Hsame.
  { intros x Hc2. split; [by apply (post_src C1)|].
    apply HP1. intros Hc1. by apply (Hdisj _ Hc1). }
  split.
  - intros en [Hen|Hen]%elem_of_app.
    + destruct (Ha1 en Hen) as [?|(s & d & x & c & mt & ? & ? & ? & ? & ? & ?)];
        [by left|].
      right. exists s, d, x, c, mt. auto 10.
    + destruct (Ha2 en Hen) as [?|(s & d & x & c & mt & He & Hs & Hd & Hc & Hf & Ho)];
        [by left|].
      destruct (Hsame x Hc) as [Es Ed]. rewrite Es in Hf. rewrite Ed in Ho.
      right. exists s, d, x, c, mt. auto 10.
  - intros x c mt [Hc|Hc] Hs Ho.
    + destruct (Hb1 x c mt Hc Hs Ho) as (s & d & Hin & ? & ?).
      exists s, d. split; [apply elem_of_app; by left|done].
    + destruct (Hsame x Hc) as [Es Ed].
      destruct (Hb2 x c mt Hc) as (s & d & Hin & ? & ?);
        [by rewrite Es|by rewrite Ed|].
      exists s, d. split; [apply elem_of_app; by right|done].
Qed.

Lemma trace_skip t : Trace (λ _, False) (ret tt) t.
Proof.
  intros lg t' l ->%run_nil. split; [by intros en ?%elem_of_nil|done].
Qed.

Lemma trace_for_each {A} (l : list A) (body : A → M unit)
    (R : A → key → Prop) (P : tree → Prop) t :
  NoDup l →
  (∀ a k, R a k → kd `prefix_of` k) →
  (∀ a b k, a ≠ b → R a k → ¬ R b k) →
  (∀ a t t', P t → Step (R a) (body a) t t' → P t') →
  (∀ a t, a ∈ l → P t → ∃ t', Step (R a) (body a) t t') →
  (∀ a t, a ∈ l → P t → Trace (R a) (body a) t) →
  P t → wf_tree t →
  Trace (λ k, ∃ a, a ∈ l ∧ R a k) (for_each l body) t.
Proof.
  intros Hnd Hunder Hdisj Hstable Hbody Htrace. revert t.
  induction Hnd as [|a l Ha Hnd IH]; intros t HP Hwf.
  - eapply trace_equiv; [|by apply trace_skip].
    intros k. split; [done|]. by intros (a & ?%elem_of_nil & _).
  - destruct (Hbody a t) as (t1 & Hs1); [by left|done|].
    assert (P t1) as HP1 by eauto.
    assert (wf_tree t1) as Hwf1 by (by destruct Hs1).
    destruct (step_for_each l body R P t1) as (t2 & Hs2 & _); try done.
    { intros b t' Hb. apply Hbody. by right. }
    simpl.
    eapply trace_equiv;
      [|eapply (trace_seq (R a) _ (body a) (for_each l body) t t1 t2); eauto].
    + intros k. split.
      * intros [Hr|(b & Hb & Hr)]; [exists a|exists b]; split; auto; by constructor.
      * intros (b & [->|Hb]%elem_of_cons & Hr); [by left|right; eauto].
    + intros k Hr (b & Hb & Hr'). apply (Hdisj a b k); [|done..].
      intros ->. done.
    + apply Htrace; [by left|done].
    + apply IH; [| |done..].
      * intros b t' Hb. apply Hbody. by right.
      * intros b t' Hb. apply Htrace. by right.
Qed.

Lemma trace_ensure_dir r top t :
  Ready r top t → is_dir_node (t0 !! (ks ++ r)) = true →
  Trace (λ k, k = kd ++ r) (ensure_dir (join dest (rel_of r))) t.
Proof.
  intros (_ & _ & Hsrc & _) Hsd lg t' l Hrun.
  assert (∀ x c m, kd ++ x = kd ++ r → t !! (ks ++ x) = Some (File c m) → False)
    as Hno.
  { intros x c m ->%app_inv_head Hx. by rewrite <- Hsrc, Hx in Hsd. }
  unfold ensure_dir, mbind, M_bind, bind, read in Hrun. cbn [fs] in Hrun.
  destruct (path_exists cwd t (join dest (rel_of r))); cbn [negb] in Hrun.
  - apply run_nil in Hrun as ->. split; [by intros en ?%elem_of_nil|].
    intros x c m Hx Hf _. by destruct (Hno x c m).
  - apply logged_Ok in Hrun as ->. split.
    + intros en ->%list_elem_of_singleton. left. by eexists.
    + intros x c m Hx Hf _. by destruct (Hno x c m).
Qed.

Lemma trace_file r top t f :
  Ready r top t → is_dir_node (t !! (kd ++ r)) = true →
  is_file_node (t0 !! (ks ++ r ++ [f])) = true →
  Trace (λ k, k = kd ++ r ++ [f]) (sync_file cwd top (join dest (rel_of r)) f) t.
Proof.
  intros HR Hkdr Hf lg t' l Hrun. pose proof (ready_dest_dir _ _ _ HR) as Hdd.
  destruct HR as (Hwf & (_ & _ & _ & Hcomp) & Hsrc & Htop & _).
  specialize (Hcomp (r ++ [f])). rewrite <- Hsrc in Hf.
  destruct (t !! (ks ++ r ++ [f])) as [[c m|]|] eqn:Hsf; try done.
  pose proof Hsf as Hsf'. rewrite List.app_assoc in Hsf'.
  destruct (wf_lookup _ _ _ _ Hwf Hsf') as [Hksr Hp].
  pose proof (namei_join_name cwd cwd_abs t top f (ks ++ r) Htop Hksr Hp) as Hs.
  pose proof (namei_join_name cwd cwd_abs t _ f (kd ++ r) Hdd Hkdr Hp) as Hd.
  destruct (namei_abs_list cwd cwd_abs t _ _ Hs) as [Has _].
  destruct (namei_abs_list cwd cwd_abs t _ _ Hd) as [Had _].
  rewrite <- List.app_assoc in Has, Had.
  assert (∀ o, outdated m o →
            Logged (λ k, k = kd ++ r ++ [f]) t
              [Completed (CallCopy2 (join top f) (join (join dest (rel_of r)) f))]
            ∨ o ≠ t !! (kd ++ r ++ [f])) as Hcopy.
  { intros o Ho. destruct (decide (o = t !! (kd ++ r ++ [f]))) as [->|]; [left|by right].
    split.
    - intros en ->%list_elem_of_singleton. right.
      exists (join top f), (join (join dest (rel_of r)) f), (r ++ [f]), c, m.
      by rewrite Hsf.
    - intros x c0 m0 ->%app_inv_head _ _.
      exists (join top f), (join (join dest (rel_of r)) f).
      split; [by apply list_elem_of_singleton|done]. }
  assert (¬ outdated m (t !! (kd ++ r ++ [f])) →
          Logged (λ k, k = kd ++ r ++ [f]) t []) as Hskip.
  { intros Hno. split; [by intros en ?%elem_of_nil|].
    intros x c0 m0 ->%app_inv_head Hx Ho. rewrite Hsf in Hx. by simplify_eq. }
  unfold sync_file, mbind, M_bind, bind, read, getmtime_now, ret in Hrun.
  cbn [fs] in Hrun.
  destruct (t !! (kd ++ r ++ [f])) as [[c' m'|]|] eqn:Hdf; try done.
  - pose proof Hdf as Hdf'. rewrite List.app_assoc in Hdf'.
    rewrite (path_exists_Some cwd t _ _ Hd) in Hrun by (by rewrite Hdf').
    cbn [negb fs] in Hrun.
    rewrite (getmtime_file cwd t _ _ _ _ Hs Hsf'),
            (getmtime_file cwd t _ _ _ _ Hd Hdf') in Hrun.
    destruct (Z.gtb_spec m m') as [Hm|Hm].
    + apply logged_Ok in Hrun as ->.
      destruct (Hcopy (Some (File c' m'))) as [?|?]; [|done..].
      right. exists c', m'. split; [done|lia].
    + apply run_nil in Hrun as ->. apply Hskip.
      intros [?|(? & ? & [= _ <-] & ?)]; [done|lia].
  - pose proof Hdf as Hdf'. rewrite List.app_assoc in Hdf'.
    rewrite (path_exists_None cwd t _ _ Hd Hdf') in Hrun. cbn [negb fs] in Hrun.
    apply logged_Ok in Hrun as ->.
    destruct (Hcopy None) as [?|?]; [by left|done..].
Qed.

Lemma trace_files r top t files :
  NoDup files →
  (∀ f, f ∈ files → is_file_node (t0 !! (ks ++ r ++ [f])) = true) →
  Open r top t →
  Trace (λ k, ∃ f, f ∈ files ∧ k = kd ++ r ++ [f])
        (for_each files (sync_file cwd top (join dest (rel_of r)))) t.
Proof.
  intros Hnd Hfiles HO.
  apply (trace_for_each files _ (λ f k, k = kd ++ r ++ [f]) (Open r top)); try done.
  - intros f k ->. apply under_dest.
  - intros f f' k Hne -> Heq. apply Hne.
    apply app_inv_head in Heq. apply app_inv_head in Heq. congruence.
  - intros f t1 t2 HO1 HS. eapply open_stable; [| |done..].
    + intros k ->. apply under_dest.
    + intros k. destruct (decide (k = kd ++ r ++ [f])); auto.
  - intros f t1 Hf [HR1 Hd1]. by apply step_file; auto.
  - intros f t1 Hf [HR1 Hd1]. by apply trace_file; auto.
  - by destruct HO as [[? _] _].
Qed.

Lemma trace_sync_dir r top t files :
  Ready r top t → is_dir_node (t0 !! (ks ++ r)) = true →
  NoDup files →
  (∀ f, f ∈ files → is_file_node (t0 !! (ks ++ r ++ [f])) = true) →
  Trace (λ k, k = kd ++ r ∨ ∃ f, f ∈ files ∧ k = kd ++ r ++ [f])
        (sync_dir cwd now src dest top files) t.
Proof.
  intros HR Hsd Hnd Hfiles.
  destruct (step_ensure_dir r top t HR Hsd) as (t1 & HS1 & Hd1).
  assert (Open r top t1) as HO1.
  { split; [|done]. eapply (ready_stable (λ k, k = kd ++ r)); [| |exact HR|exact HS1].
    - intros k ->. apply under_dest.
    - intros k. destruct (decide (k = kd ++ r)); auto. }
  destruct (step_files r top t1 files Hnd Hfiles HO1) as (t2 & HS2 & HO2).
  eapply trace_ext; [intros lg; by apply sync_dir_unfold|].
  eapply trace_seq; [| |exact HS1|exact HS2|by apply (trace_ensure_dir r top)
                    |by apply trace_files].
  - intros k ->. apply under_dest.
  - intros k -> (f & _ & Heq). apply app_inv_head in Heq.
    apply (f_equal List.length) in Heq. rewrite length_app in Heq. simpl in Heq. lia.
Qed.

Lemma trace_walk fuel r top t :
  Ready r top t → is_dir_node (t0 !! (ks ++ r)) = true →
  (∀ x, is_Some (t0 !! (ks ++ r ++ x)) → (List.length x < fuel)%nat) →
  Trace (λ k, (kd ++ r) `prefix_of` k)
        (walk_for cwd fuel
           (λ src_dir _ files, sync_dir cwd now src dest src_dir files) top)
        t.
Proof.
  revert r top t. induction fuel as [|fuel IH]; intros r top t HR Hsd Hdepth.
  { specialize (Hdepth []). rewrite List.app_nil_r in Hdepth.
    destruct (t0 !! (ks ++ r)); [|done]. simpl in Hdepth.
    specialize (Hdepth ltac:(eauto)). lia. }
  destruct (walk_children fuel r top t (step_walk fuel) HR Hsd Hdepth)
    as (dirs & files & t1 & t2 & Hscan & Hnd_d & Hnd_f & Hdirs & Hfiles
        & HS1 & HO1 & HS2 & Hbelow).
  pose proof HR as (Hwf & _ & Hsrc & _).
  destruct (walk_regions r t dirs files Hwf Hsrc Hdirs Hfiles) as (HA & HB & HC & HD).
  eapply trace_ext.
  { intros lg. cbn [walk_for fs]. rewrite Hscan. reflexivity. }
  eapply trace_weaken; [exact HA|exact HB|].
  eapply trace_seq; [exact HC|exact HD|exact HS1|exact HS2| |].
  - apply trace_sync_dir; [done..|]. intros f. apply Hfiles.
  - apply (trace_for_each dirs _ (λ d k, (kd ++ r ++ [d]) `prefix_of` k)
             (Open r top)); try done.
    + intros d k. apply under_child_dest.
    + intros d d' k. apply child_regions_apart.
    + intros d t' t'' HO HS. eapply open_stable; [| |done..].
      * intros k. apply under_child_dest.
      * intros k. destruct (decide ((kd ++ r ++ [d]) `prefix_of` k)); auto.
    + intros d t' Hd HO. destruct (Hbelow d t' Hd HO) as (? & ? & ?).
      by apply (step_walk fuel (r ++ [d]) (join top d) t').
    + intros d t' Hd HO. destruct (Hbelow d t' Hd HO) as (? & ? & ?).
      by apply (IH (r ++ [d]) (join top d) t').
    + by destruct HS1.
Qed.

End Pass.

Section Sync.
Variable cwd : string.
Hypothesis cwd_abs : isabs cwd = true.
Variable now : Z.
Variable fuel : nat.

(** What the two folders must satisfy for a scan to go through. *)
Let Sync (a b : string) (ka kb : key) (t : tree) : Prop :=
  wf_tree t ∧ namei cwd t a = Ok ka ∧ namei cwd t b = Ok kb
  ∧ is_dir_node (t !! ka) = true ∧ is_dir_node (t !! kb) = true
  ∧ (∀ x, compatible (t !! (ka ++ x)) (t !! (kb ++ x)))
  ∧ (∀ x, is_Some (t !! (ka ++ x)) ∨ is_Some (t !! (kb ++ x)) →
          (List.length x < fuel)%nat).

Lemma compatible_sym o1 o2 : compatible o1 o2 → compatible o2 o1.
Proof. by destruct o1 as [[]|], o2 as [[]|]. Qed.

Lemma sync_flip a b ka kb t : Sync a b ka kb t → Sync b a kb ka t.
Proof.
  intros (Hwf & Ha & Hb & Hda & Hdb & Hcomp & Hdepth).
  do 5 (split; [done|]). split.
  - intros x. by apply compatible_sym.
  - intros x [?|?]; apply Hdepth; auto.
Qed.

Lemma push_is_Some s d : is_Some (push now s d) → is_Some s ∨ is_Some d.
Proof. destruct s as [[]|], d as [[]|]; simpl; eauto. Qed.

(** One pass, from the folder [a] to the folder [b]. *)
Lemma pass_spec a b ka kb t :
  apart ka kb → Sync a b ka kb t →
  ∃ t', Sync a b ka kb t'
        ∧ (∀ k, t' !! k = pass_at now t ka kb k)
        ∧ ∀ lg, ∃ l,
            sync_pass cwd now fuel a b (World t lg) = (World t' (lg ++ l), Ok tt)
            ∧ ((∀ k, pass_at now t ka kb k = t !! k) → l = []).
Proof.
  intros Hap (Hwf & Ha & Hb & Hda & Hdb & Hcomp & Hdepth).
  assert (wf_tree t
          ∧ (namei cwd t a = Ok ka ∧ namei cwd t b = Ok kb
             ∧ is_dir_node (t !! kb) = true
             ∧ ∀ x, compatible (t !! (ka ++ x)) (t !! (kb ++ x)))
          ∧ (∀ x, t !! (ka ++ x) = t !! (ka ++ x))
          ∧ namei cwd t a = Ok (ka ++ [])
          ∧ (∀ r', r' `prefix_of` [] → r' ≠ [] →
                   is_dir_node (t !! (kb ++ r')) = true)) as HR.
  { rewrite List.app_nil_r. do 2 (split; [done|]). split; [done|]. split; [done|].
    intros r' Hr'%prefix_nil_inv. done. }
  destruct (step_walk cwd cwd_abs now a b ka kb Hap t fuel [] a t HR)
    as (t' & Hwf' & [Hin Hout] & Hlog).
  { by rewrite List.app_nil_r. }
  { intros x Hx. apply Hdepth. by left. }
  rewrite List.app_nil_r in Hin, Hout, Hlog.
  assert (∀ k, t' !! k = pass_at now t ka kb k) as Hall.
  { intros k. destruct (decide (kb `prefix_of` k)) as [Hk|Hk]; [by apply Hin|].
    rewrite Hout by done. unfold pass_at. by rewrite decide_False. }
  assert (∀ x, t' !! (ka ++ x) = t !! (ka ++ x)) as Hsrc.
  { intros x. apply Hout. by apply apart_not_under. }
  assert (∀ x, t' !! (kb ++ x) = push now (t !! (ka ++ x)) (t !! (kb ++ x))) as Hdst.
  { intros x. rewrite Hall. unfold pass_at.
    rewrite decide_True by (by apply prefix_app_r). by rewrite drop_app_length. }
  assert (∀ k, is_dir_node (t !! k) = true → is_dir_node (t' !! k) = true) as Hmono.
  { intros k Hk. rewrite Hall. unfold pass_at. case_decide; [|done].
    destruct (t !! k) as [[]|]; try done. by destruct (t !! (ka ++ _)) as [[]|]. }
  exists t'. split; [|split; [done|]].
  - split; [done|]. split; [by eapply namei_mono|]. split; [by eapply namei_mono|].
    split; [by auto|]. split; [by auto|]. split.
    + intros x. rewrite Hsrc, Hdst. specialize (Hcomp x).
      destruct (t !! (ka ++ x)) as [[? m|]|], (t !! (kb ++ x)) as [[? m'|]|];
        simpl in *; try done. by destruct (m >? m').
    + intros x. rewrite Hsrc, Hdst. intros [Hx|Hx%push_is_Some]; apply Hdepth; tauto.
  - intros lg. destruct (Hlog lg) as (l & Hrun & Hq). exists l. split; [done|].
    intros Hid. apply Hq. auto.
Qed.

Lemma gtb_irrefl m : (m >? m) = false.
Proof. destruct (Z.gtb_spec m m); [lia|done]. Qed.

Lemma push_settled_dest s d :
  compatible s d → push now (push now (push now s d) s) (push now s d) = push now s d.
Proof.
  intros Hc. destruct s as [[c m|mt]|], d as [[c' m'|mt']|]; simpl in *; try done;
    repeat (match goal with
            | |- context [?a >? ?b] => destruct (Z.gtb_spec a b); simpl
            end); try done; lia.
Qed.

Lemma push_settled_src s d :
  compatible s d →
  push now (push now s d) (push now (push now s d) s) = push now (push now s d) s.
Proof.
  intros Hc. destruct s as [[c m|mt]|], d as [[c' m'|mt']|]; simpl in *; try done;
    repeat (match goal with
            | |- context [?a >? ?b] => destruct (Z.gtb_spec a b); simpl
            end); try done; lia.
Qed.

(** The two folders hold the same: a pass in either direction has nothing
    to do. *)
Let settled (ka kb : key) (t : tree) : Prop :=
  ∀ x, push now (t !! (ka ++ x)) (t !! (kb ++ x)) = t !! (kb ++ x)
       ∧ push now (t !! (kb ++ x)) (t !! (ka ++ x)) = t !! (ka ++ x).

Lemma settled_pass ka kb t k : settled ka kb t → pass_at now t ka kb k = t !! k.
Proof.
  intros Hs. unfold pass_at. case_decide as Hk; [|done].
  destruct Hk as [x ->]. rewrite drop_app_length. apply Hs.
Qed.

(** [sync_folders_with_progress a b]: the pass from [a] to [b], then the
    pass from [b] to [a]. *)
Lemma sync_spec a b ka kb t :
  apart ka kb → Sync a b ka kb t →
  ∃ t2, Sync a b ka kb t2 ∧ settled ka kb t2
        ∧ (∀ x, t2 !! (kb ++ x) = push now (t !! (ka ++ x)) (t !! (kb ++ x)))
        ∧ (∀ x, t2 !! (ka ++ x)
                = push now (push now (t !! (ka ++ x)) (t !! (kb ++ x))) (t !! (ka ++ x)))
        ∧ ∀ lg, ∃ l,
            sync_folders_with_progress cwd now fuel a b (World t lg)
              = (World t2 (lg ++ l), Ok tt)
            ∧ (settled ka kb t → l = [] ∧ t2 = t).
Proof.
  intros Hap HS.
  destruct (pass_spec a b ka kb t Hap HS) as (t1 & HS1 & Ht1 & Hlog1).
  destruct (pass_spec b a kb ka t1 (apart_sym _ _ Hap) (sync_flip _ _ _ _ _ HS1))
    as (t2 & HS2 & Ht2 & Hlog2).
  assert (∀ x, t1 !! (ka ++ x) = t !! (ka ++ x)) as H1a.
  { intros x. rewrite Ht1. unfold pass_at.
    by rewrite decide_False by (by apply apart_not_under). }
  assert (∀ x, t1 !! (kb ++ x) = push now (t !! (ka ++ x)) (t !! (kb ++ x))) as H1b.
  { intros x. rewrite Ht1. unfold pass_at.
    rewrite decide_True by (by apply prefix_app_r). by rewrite drop_app_length. }
  assert (∀ x, t2 !! (kb ++ x) = t1 !! (kb ++ x)) as H2b.
  { intros x. rewrite Ht2. unfold pass_at.
    by rewrite decide_False by (by apply apart_not_under, apart_sym). }
  assert (∀ x, t2 !! (ka ++ x) = push now (t1 !! (kb ++ x)) (t1 !! (ka ++ x))) as H2a.
  { intros x. rewrite Ht2. unfold pass_at.
    rewrite decide_True by (by apply prefix_app_r). by rewrite drop_app_length. }
  pose proof HS as (_ & _ & _ & _ & _ & Hcomp & _).
  exists t2. split; [by apply sync_flip|]. split; [|split; [|split]].
  - intros x. rewrite H2a, H2b, H1a, H1b. split.
    + by apply push_settled_dest.
    + by apply push_settled_src.
  - intros x. by rewrite H2b, H1b.
  - intros x. by rewrite H2a, H1a, H1b.
  - intros lg. destruct (Hlog1 lg) as (l1 & Hrun1 & Hq1).
    destruct (Hlog2 (lg ++ l1)) as (l2 & Hrun2 & Hq2).
    exists (l1 ++ l2). split.
    + unfold sync_folders_with_progress, mbind, M_bind, bind.
      by rewrite Hrun1, Hrun2, List.app_assoc.
    + intros Hset.
      assert (t1 = t) as ->.
      { apply map_eq. intros k. rewrite Ht1. by apply settled_pass. }
      assert (t2 = t) as ->.
      { apply map_eq. intros k. rewrite Ht2. apply settled_pass.
        intros x. destruct (Hset x). done. }
      rewrite Hq1, Hq2; [done| |].
      * intros k. apply settled_pass. intros x. destruct (Hset x). done.
      * intros k. by apply settled_pass.
Qed.

(** The calls of one pass, from the folder [a] to the folder [b]. *)
Lemma pass_log a b ka kb t lg t' l :
  apart ka kb → Sync a b ka kb t →
  sync_pass cwd now fuel a b (World t lg) = (World t' (lg ++ l), Ok tt) →
  (∀ en, en ∈ l →
     (∃ p, en = Completed (CallMakedirs p))
     ∨ ∃ s d x c m,
         en = Completed (CallCopy2 s d)
         ∧ abs_list cwd s = ka ++ x ∧ abs_list cwd d = kb ++ x
         ∧ t !! (ka ++ x) = Some (File c m) ∧ outdated m (t !! (kb ++ x)))
  ∧ (∀ x c m, t !! (ka ++ x) = Some (File c m) → outdated m (t !! (kb ++ x)) →
       copied cwd l (ka ++ x) (kb ++ x)).
Proof.
  intros Hap (Hwf & Ha & Hb & Hda & Hdb & Hcomp & Hdepth) Hrun.
  destruct (trace_walk cwd cwd_abs now a b ka kb Hap t fuel [] a t) with lg t' l
    as [Hin Hall]; [| | |exact Hrun|].
  - rewrite List.app_nil_r. do 2 (split; [done|]). split; [done|]. split; [done|].
    intros r' Hr'%prefix_nil_inv. done.
  - by rewrite List.app_nil_r.
  - intros x Hx. apply Hdepth. by left.
  - split.
    + intros en Hen.
      destruct (Hin en Hen) as [?|(s & d & x & c & m & ? & ? & ? & _ & ? & ?)];
        [by left|].
      right. exists s, d, x, c, m. auto.
    + intros x c m Hx Ho. apply (Hall x c m); [|done..].
      rewrite List.app_nil_r. by apply prefix_app_r.
Qed.

Lemma push_outdated s d c m :
  compatible s d →
  push now s d = Some (File c m) ∧ outdated m s ↔ d = Some (File c m) ∧ outdated m s.
Proof.
  intros Hc. split.
  - intros [Hp [->|(c' & m' & -> & Hm)]].
    + rewrite push_none in Hp. split; [done|by left].
    + assert (d = Some (File c m)) as ->; [|split; [done|right; by eauto]].
      destruct d as [[c2 m2|]|]; simpl in *; try done.
      * destruct (Z.gtb_spec m' m2); [|done]. injection Hp as _ ->. lia.
      * injection Hp as _ ->. lia.
  - intros [-> [->|(c' & m' & -> & Hm)]].
    + split; [done|by left].
    + split; [|right; by eauto]. simpl. destruct (Z.gtb_spec m' m); [lia|done].
Qed.

(** The calls of [sync_folders_with_progress a b]: a file is copied from
    one folder to the other exactly when the other folder, as the call
    found it, holds nothing there or a strictly older file. *)
Lemma sync_log a b ka kb t lg t2 l :
  apart ka kb → Sync a b ka kb t →
  sync_folders_with_progress cwd now fuel a b (World t lg)
    = (World t2 (lg ++ l), Ok tt) →
  (∀ en, en ∈ l →
     (∃ p, en = Completed (CallMakedirs p))
     ∨ ∃ s d x,
         en = Completed (CallCopy2 s d)
         ∧ (abs_list cwd s = ka ++ x ∧ abs_list cwd d = kb ++ x
            ∨ abs_list cwd s = kb ++ x ∧ abs_list cwd d = ka ++ x))
  ∧ (∀ x, copied cwd l (ka ++ x) (kb ++ x)
          ↔ ∃ c m, t !! (ka ++ x) = Some (File c m) ∧ outdated m (t !! (kb ++ x)))
  ∧ (∀ x, copied cwd l (kb ++ x) (ka ++ x)
          ↔ ∃ c m, t !! (kb ++ x) = Some (File c m) ∧ outdated m (t !! (ka ++ x))).
Proof.
  intros Hap HS Hrun.
  destruct (pass_spec a b ka kb t Hap HS) as (t1 & HS1 & Ht1 & Hlog1).
  pose proof (sync_flip _ _ _ _ _ HS1) as HS1'.
  destruct (pass_spec b a kb ka t1 (apart_sym _ _ Hap) HS1') as (t2' & _ & _ & Hlog2).
  destruct (Hlog1 lg) as (l1 & Hrun1 & _).
  destruct (Hlog2 (lg ++ l1)) as (l2 & Hrun2 & _).
  unfold sync_folders_with_progress, mbind, M_bind, bind in Hrun.
  rewrite Hrun1, Hrun2 in Hrun. injection Hrun as _ Hl.
  rewrite <- List.app_assoc in Hl. apply app_inv_head in Hl as <-.
  destruct (pass_log a b ka kb t lg t1 l1 Hap HS Hrun1) as [Hin1 Hall1].
  destruct (pass_log b a kb ka t1 (lg ++ l1) t2' l2 (apart_sym _ _ Hap) HS1' Hrun2)
    as [Hin2 Hall2].
  assert (∀ x, t1 !! (ka ++ x) = t !! (ka ++ x)) as H1a.
  { intros x. rewrite Ht1. unfold pass_at.
    by rewrite decide_False by (by apply apart_not_under). }
  assert (∀ x, t1 !! (kb ++ x) = push now (t !! (ka ++ x)) (t !! (kb ++ x))) as H1b.
  { intros x. rewrite Ht1. unfold pass_at.
    rewrite decide_True by (by apply prefix_app_r). by rewrite drop_app_length. }
  pose proof HS as (_ & _ & _ & _ & _ & Hcomp & _).
  split; [|split].
  - intros en [Hen|Hen]%elem_of_app.
    + destruct (Hin1 en Hen) as [?|(s & d & x & c & m & ? & ? & ? & _)]; [by left|].
      right. exists s, d, x. auto.
    + destruct (Hin2 en Hen) as [?|(s & d & x & c & m & ? & ? & ? & _)]; [by left|].
      right. exists s, d, x. auto.
  - intros x. split.
    + intros (s & d & [Hen|Hen]%elem_of_app & Hs & Hd).
      * destruct (Hin1 _ Hen) as [[p ?]|(s' & d' & x' & c & m & [= <- <-] & Hs' & _ & Hf & Ho)];
          [done|].
        rewrite Hs in Hs'. apply app_inv_head in Hs' as <-. eauto.
      * destruct (Hin2 _ Hen) as [[p ?]|(s' & d' & x' & c & m & [= <- <-] & Hs' & _)];
          [done|].
        rewrite Hs in Hs'. by apply apart_ne in Hs'.
    + intros (c & m & Hf & Ho). destruct (Hall1 x c m Hf Ho) as (s & d & Hen & ? & ?).
      exists s, d. split; [apply elem_of_app; by left|done].
  - intros x. split.
    + intros (s & d & [Hen|Hen]%elem_of_app & Hs & Hd).
      * destruct (Hin1 _ Hen) as [[p ?]|(s' & d' & x' & c & m & [= <- <-] & Hs' & _)];
          [done|].
        rewrite Hs in Hs'. symmetry in Hs'. by apply apart_ne in Hs'.
      * destruct (Hin2 _ Hen) as [[p ?]|(s' & d' & x' & c & m & [= <- <-] & Hs' & _ & Hf & Ho)];
          [done|].
        rewrite Hs in Hs'. apply app_inv_head in Hs' as <-.
        rewrite H1b in Hf. rewrite H1a in Ho. exists c, m.
        by apply (push_outdated (t !! (ka ++ x)) (t !! (kb ++ x)) c m (Hcomp x)).
    + intros (c & m & Hf & Ho).
      destruct (Hall2 x c m) as (s & d & Hen & ? & ?).
      * rewrite H1b.
        by apply (push_outdated (t !! (ka ++ x)) (t !! (kb ++ x)) c m (Hcomp x)).
      * by rewrite H1a.
      * exists s, d. split; [apply elem_of_app; by right|done].
Qed.

End Sync.

Lemma syncable_sync cwd t fuel a b ka kb :
  syncable cwd t fuel a b ka kb →
  wf_tree t ∧ namei cwd t a = Ok ka ∧ namei cwd t b = Ok kb
  ∧ is_dir_node (t !! ka) = true ∧ is_dir_node (t !! kb) = true
  ∧ (∀ x, compatible (t !! (ka ++ x)) (t !! (kb ++ x)))
  ∧ (∀ x, is_Some (t !! (ka ++ x)) ∨ is_Some (t !! (kb ++ x)) →
          (List.length x < fuel)%nat).
Proof.
  intros (_ & Hwf & Ha & Hb & Hda & Hdb & Hap & Hnc & Hsh).
  do 5 (split; [done|]). split.
  - intros x. destruct (t !! (ka ++ x)) as [n|] eqn:Hn; [|done].
    pose proof (map_Forall_lookup_1 _ _ _ _ Hnc Hn (prefix_app_r ka ka x (reflexivity _))) as Hc.
    by rewrite drop_app_length in Hc.
  - intros x [[n Hn]|[n Hn]];
      pose proof (map_Forall_lookup_1 _ _ _ _ Hsh Hn) as Hl; simpl in Hl;
      rewrite length_app in Hl; lia.
Qed.

End pass_facts.

Section Scanner.
Import posixpath pass_facts.

Lemma push_newest now a b :
  compatible a b →
  (∀ c m c' m', a = Some (File c m) → b = Some (File c' m') → m = m' → c = c') →
  is_file_node a = true ∨ is_file_node b = true →
  push now (push now a b) a = newest a b ∧ push now a b = newest a b.
Proof.
  intros Hc Htie Hf.
  destruct a as [[c m|mt]|], b as [[c' m'|mt']|]; simpl in *;
    try done; try (by destruct Hf).
  - specialize (Htie c m c' m' eq_refl eq_refl).
    destruct (Z.gtb_spec m m'), (Z.gtb_spec m' m); simpl;
      repeat (match goal with
              | |- context [?a >? ?b] => destruct (Z.gtb_spec a b); simpl
              end); try done; try lia.
    assert (m = m') as -> by lia. by rewrite Htie.
  - by rewrite gtb_irrefl.
Qed.

Lemma tie_free_lookup t ka kb x c m c' m' :
  tie_free t ka kb →
  t !! (ka ++ x) = Some (File c m) → t !! (kb ++ x) = Some (File c' m') →
  m = m' → c = c'.
Proof.
  intros Htf Ha Hb.
  pose proof (map_Forall_lookup_1 _ _ _ _ Htf Ha
                (prefix_app_r ka ka x (reflexivity _))) as H.
  simpl in H. by rewrite drop_app_length, Hb in H.
Qed.

(** C1, as the code has it, for two folders that are directories, neither
    inside the other: when no file faces a directory and files with
    equal modification times have equal content, the start-up scan returns
    and every relative path that is a file in [A] or [B] is then a file in
    both, with the content and modification time of the most recently
    modified of the two original copies; and every relative path that is a
    directory in [A] or [B] is then a directory in both. *)
Theorem startup_sync_converges cwd now fuel a b ka kb t lg :
  syncable cwd t fuel a b ka kb → tie_free t ka kb →
  ∃ t' l,
    startup_sync cwd now fuel a b (World t lg) = (World t' (lg ++ l), Ok tt)
    ∧ (∀ x, is_file_node (t !! (ka ++ x)) = true
            ∨ is_file_node (t !! (kb ++ x)) = true →
         t' !! (ka ++ x) = newest (t !! (ka ++ x)) (t !! (kb ++ x))
         ∧ t' !! (kb ++ x) = newest (t !! (ka ++ x)) (t !! (kb ++ x)))
    ∧ (∀ x, is_dir_node (t !! (ka ++ x)) = true
            ∨ is_dir_node (t !! (kb ++ x)) = true →
         is_dir_node (t' !! (ka ++ x)) = true
         ∧ is_dir_node (t' !! (kb ++ x)) = true).
Proof.
  intros Hs Htf. pose proof Hs as (Hcwd & _ & _ & _ & _ & _ & Hap & _).
  pose proof (syncable_sync _ _ _ _ _ _ _ Hs) as HS.
  pose proof HS as (_ & _ & _ & _ & _ & Hcomp & _).
  destruct (sync_spec cwd Hcwd now fuel a b ka kb t Hap HS)
    as (t2 & HS2 & Hset & Hb & Ha & Hlog).
  destruct (sync_spec cwd Hcwd now fuel b a kb ka t2 (apart_sym _ _ Hap)
              (sync_flip cwd fuel _ _ _ _ _ HS2))
    as (t3 & _ & _ & _ & _ & Hlog3).
  destruct (Hlog lg) as (l & Hrun & _).
  destruct (Hlog3 (lg ++ l)) as (l3 & Hrun3 & Hq).
  destruct Hq as [-> ->].
  { intros x. destruct (Hset x). done. }
  exists t2, l. split.
  - unfold startup_sync, mbind, M_bind, bind.
    by rewrite Hrun, Hrun3, List.app_nil_r.
  - split.
    + intros x Hf. rewrite Ha, Hb. apply push_newest; [done| |done].
      intros c m c' m'. by apply tie_free_lookup.
    + intros x Hd. rewrite Ha, Hb. specialize (Hcomp x).
      destruct (t !! (ka ++ x)) as [[c m|mt]|], (t !! (kb ++ x)) as [[c' m'|mt']|];
        simpl in *; try done; by destruct Hd.
Qed.

(** C2, as the code has it, for two folders that can be reconciled (two
    directories, neither inside the other, no file facing a directory).
    The loop body copies a file exactly when the destination is missing or
    the source is strictly newer.  The scan returns, and the calls it has
    made are [makedirs] calls and [copy2] calls between a path of one
    folder and the same relative path of the other: it has copied the
    relative path [x] from [a] to [b] exactly when [x] was a file in [a]
    and [b] had nothing there or a strictly older file, and from [b] to
    [a] exactly when [x] was a file in [b] and [a] had nothing there or a
    strictly older file.  It leaves, at every relative path that is a
    file in [a], the file of [a] in [b] when [b] had nothing there or a
    strictly older file, and what [b] had otherwise; and the same from [b]
    to [a].  A second call of the scan, right after the first, returns in
    the same tree with nothing added to the log: it makes no call, and
    copies nothing. *)
Theorem sync_twice_copies_nothing cwd now fuel a b ka kb t lg :
  syncable cwd t fuel a b ka kb →
  (∀ t' lg' sd dd f,
     let copy := logged (CallCopy2 (join sd f) (join dd f))
                   (λ t1, copy2_tree cwd t1 (join sd f) (join dd f)) in
     (path_exists cwd t' (join dd f) = false →
      sync_file cwd sd dd f (World t' lg') = copy (World t' lg'))
     ∧ (∀ ms md, path_exists cwd t' (join dd f) = true →
          getmtime cwd t' (join sd f) = Ok ms → getmtime cwd t' (join dd f) = Ok md →
          sync_file cwd sd dd f (World t' lg')
          = if ms >? md then copy (World t' lg') else (World t' lg', Ok tt)))
  ∧ ∃ t1 l,
      sync_folders_with_progress cwd now fuel a b (World t lg)
        = (World t1 (lg ++ l), Ok tt)
      ∧ (∀ en, en ∈ l →
           (∃ p, en = Completed (CallMakedirs p))
           ∨ ∃ s d x,
               en = Completed (CallCopy2 s d)
               ∧ (abs_list cwd s = ka ++ x ∧ abs_list cwd d = kb ++ x
                  ∨ abs_list cwd s = kb ++ x ∧ abs_list cwd d = ka ++ x))
      ∧ (∀ x, copied cwd l (ka ++ x) (kb ++ x)
              ↔ ∃ c m, t !! (ka ++ x) = Some (File c m)
                       ∧ outdated m (t !! (kb ++ x)))
      ∧ (∀ x, copied cwd l (kb ++ x) (ka ++ x)
              ↔ ∃ c m, t !! (kb ++ x) = Some (File c m)
                       ∧ outdated m (t !! (ka ++ x)))
      ∧ (∀ x c m, t !! (ka ++ x) = Some (File c m) →
           (t !! (kb ++ x) = None → t1 !! (kb ++ x) = Some (File c m))
           ∧ (∀ c' m', t !! (kb ++ x) = Some (File c' m') →
                t1 !! (kb ++ x)
                = if m >? m' then Some (File c m) else Some (File c' m')))
      ∧ (∀ x c' m', t !! (kb ++ x) = Some (File c' m') →
           (t !! (ka ++ x) = None → t1 !! (ka ++ x) = Some (File c' m'))
           ∧ (∀ c m, t !! (ka ++ x) = Some (File c m) →
                t1 !! (ka ++ x)
                = if m' >? m then Some (File c' m') else Some (File c m)))
      ∧ sync_folders_with_progress cwd now fuel a b (World t1 (lg ++ l))
        = (World t1 (lg ++ l), Ok tt).
Proof.
  intros Hs. split.
  { intros t' lg' sd dd f copy. split.
    - intros Hex. unfold sync_file, mbind, M_bind, bind, read. cbn [fs].
      by rewrite Hex.
    - intros ms md Hex Hms Hmd.
      unfold sync_file, mbind, M_bind, bind, read, getmtime_now. cbn [fs].
      rewrite Hex. cbn [negb fs]. rewrite Hms, Hmd. unfold ret.
      by destruct (ms >? md). }
  pose proof Hs as (Hcwd & _ & _ & _ & _ & _ & Hap & _).
  pose proof (syncable_sync _ _ _ _ _ _ _ Hs) as HS.
  destruct (sync_spec cwd Hcwd now fuel a b ka kb t Hap HS)
    as (t2 & HS2 & Hset & Hb & Ha & Hlog).
  destruct (sync_spec cwd Hcwd now fuel a b ka kb t2 Hap HS2)
    as (t3 & _ & _ & _ & _ & Hlog3).
  destruct (Hlog lg) as (l & Hrun & _).
  destruct (Hlog3 (lg ++ l)) as (l3 & Hrun3 & Hq).
  destruct (Hq Hset) as [-> ->].
  destruct (sync_log cwd Hcwd now fuel a b ka kb t lg t2 l Hap HS Hrun)
    as (Hcalls & Hab & Hba).
  exists t2, l. split; [done|]. do 3 (split; [done|]).
  split; [|split; [|by rewrite Hrun3, List.app_nil_r]].
  - intros x c m Hx. rewrite Hb, Hx. split.
    + by intros ->.
    + by intros c' m' ->.
  - intros x c' m' Hx. rewrite Ha, Hx. split.
    + by intros ->.
    + intros c m ->. simpl.
      destruct (Z.gtb_spec m m'), (Z.gtb_spec m' m); simpl;
        repeat (match goal with
                | |- context [?u >? ?v] => destruct (Z.gtb_spec u v); simpl
                end); try done; lia.
Qed.

(** C7, as the code has it, for two folders that can be reconciled (two
    directories, neither inside the other, no file facing a directory): the
    scan returns, and every relative path that is a directory in one
    folder is then a directory in both, whether it holds files or not. *)
Theorem sync_makes_every_directory cwd now fuel a b ka kb t lg :
  syncable cwd t fuel a b ka kb →
  ∃ t' l,
    sync_folders_with_progress cwd now fuel a b (World t lg)
      = (World t' (lg ++ l), Ok tt)
    ∧ ∀ x, is_dir_node (t !! (ka ++ x)) = true
           ∨ is_dir_node (t !! (kb ++ x)) = true →
        is_dir_node (t' !! (ka ++ x)) = true
        ∧ is_dir_node (t' !! (kb ++ x)) = true.
Proof.
  intros Hs. pose proof Hs as (Hcwd & _ & _ & _ & _ & _ & Hap & _).
  pose proof (syncable_sync _ _ _ _ _ _ _ Hs) as HS.
  pose proof HS as (_ & _ & _ & _ & _ & Hcomp & _).
  destruct (sync_spec cwd Hcwd now fuel a b ka kb t Hap HS)
    as (t2 & _ & _ & Hb & Ha & Hlog).
  destruct (Hlog lg) as (l & Hrun & _).
  exists t2, l. split; [done|].
  intros x Hd. rewrite Ha, Hb. specialize (Hcomp x).
  destruct (t !! (ka ++ x)) as [[c m|mt]|], (t !! (kb ++ x)) as [[c' m'|mt']|];
    simpl in *; try done; by destruct Hd.
Qed.

End Scanner.

Lemma startup_sync_converges_witness :
  syncable "/" tree_notes 9 "/A" "/B" ["A"] ["B"]
  ∧ tie_free tree_notes ["A"] ["B"]
  ∧ ∃ t' l,
      startup_sync "/" 100 9 "/A" "/B" (World tree_notes []) = (World t' ([] ++ l), Ok tt)
      ∧ (∀ x, is_file_node (tree_notes !! (["A"] ++ x)) = true
              ∨ is_file_node (tree_notes !! (["B"] ++ x)) = true →
           t' !! (["A"] ++ x)
             = newest (tree_notes !! (["A"] ++ x)) (tree_notes !! (["B"] ++ x))
           ∧ t' !! (["B"] ++ x)
             = newest (tree_notes !! (["A"] ++ x)) (tree_notes !! (["B"] ++ x)))
      ∧ (∀ x, is_dir_node (tree_notes !! (["A"] ++ x)) = true
              ∨ is_dir_node (tree_notes !! (["B"] ++ x)) = true →
           is_dir_node (t' !! (["A"] ++ x)) = true
           ∧ is_dir_node (t' !! (["B"] ++ x)) = true).
Proof.
  assert (syncable "/" tree_notes 9 "/A" "/B" ["A"] ["B"]) as Hs.
  { apply (bool_decide_unpack _). by vm_compute. }
  assert (tie_free tree_notes ["A"] ["B"]) as Htf.
  { apply (bool_decide_unpack _). by vm_compute. }
  split; [done|]. split; [done|].
  by apply (startup_sync_converges "/" 100 9 "/A" "/B" ["A"] ["B"] tree_notes []).
Defined.

(** C1 as stated fails: two copies with the same modification time and
    different contents are both left as they are; and when a file faces a
    directory the scan raises before it has brought [only.txt] to [A]. *)
Lemma startup_sync_leaves_a_tie :
  (let r := startup_sync "/" 100 9 "/A" "/B" (World tree_tie []) in
   r.2 = Ok tt
   ∧ fs r.1 !! ["A"; "f"] = Some (File "x" 5)
   ∧ fs r.1 !! ["B"; "f"] = Some (File "y" 5))
  ∧ (let r := startup_sync "/" 100 9 "/A" "/B" (World tree_blocked []) in
     r.2 = Raise NotADirectoryError
     ∧ fs r.1 !! ["B"; "only.txt"] = Some (File "z" 5)
     ∧ fs r.1 !! ["A"; "only.txt"] = None).
Proof. by vm_compute. Qed.

Lemma sync_twice_copies_nothing_witness :
  syncable "/" tree_notes 9 "/A" "/B" ["A"] ["B"]
  ∧ ∃ t1 l,
      sync_folders_with_progress "/" 100 9 "/A" "/B" (World tree_notes [])
        = (World t1 ([] ++ l), Ok tt)
      ∧ copied "/" l ["A"; "notes"; "todo.txt"] ["B"; "notes"; "todo.txt"]
      ∧ ¬ copied "/" l ["B"; "notes"; "todo.txt"] ["A"; "notes"; "todo.txt"]
      ∧ copied "/" l ["B"; "photo.png"] ["A"; "photo.png"]
      ∧ t1 !! ["B"; "notes"; "todo.txt"] = Some (File "new" 10)
      ∧ t1 !! ["A"; "photo.png"] = Some (File "img" 7)
      ∧ sync_folders_with_progress "/" 100 9 "/A" "/B" (World t1 ([] ++ l))
        = (World t1 ([] ++ l), Ok tt).
Proof.
  assert (syncable "/" tree_notes 9 "/A" "/B" ["A"] ["B"]) as Hs.
  { apply (bool_decide_unpack _). by vm_compute. }
  split; [done|].
  destruct (sync_twice_copies_nothing "/" 100 9 "/A" "/B" ["A"] ["B"] tree_notes [] Hs)
    as (_ & t1 & l & Hrun & _ & Hcab & Hcba & Hab & Hba & Hagain).
  exists t1, l. split; [exact Hrun|].
  split; [|split; [|split; [|split; [|split; [|exact Hagain]]]]].
  - apply (Hcab ["notes"; "todo.txt"]). exists "new", 10. split; [done|].
    right. exists "old", 5. split; [done|lia].
  - intros (c & m & Hf & Ho)%(Hcba ["notes"; "todo.txt"]).
    assert (tree_notes !! (["B"] ++ ["notes"; "todo.txt"]) = Some (File "old" 5))
      as Eb by reflexivity.
    assert (tree_notes !! (["A"] ++ ["notes"; "todo.txt"]) = Some (File "new" 10))
      as Ea by reflexivity.
    rewrite Eb in Hf. rewrite Ea in Ho. injection Hf as <- <-.
    destruct Ho as [?|(c' & m' & [= _ <-] & ?)]; [done|lia].
  - apply (Hcba ["photo.png"]). exists "img", 7. split; [done|]. by left.
  - exact (proj2 (Hab ["notes"; "todo.txt"] "new" 10 eq_refl) "old" 5 eq_refl).
  - exact (proj1 (Hba ["photo.png"] "img" 7 eq_refl) eq_refl).
Defined.

(** C2 as stated fails: with the second folder inside the first, the
    first call copies [/A/f] to [/A/B/f] and that to [/A/B/B/f]; the
    second call, with nothing changed in between, finds [/A/B/B] in its
    walk and makes one more copy, [/A/B/B/B/f]. *)
Lemma second_scan_copies_again :
  let r1 := sync_folders_with_progress "/" 100 9 "/A" "/A/B" (World tree_nested []) in
  let r2 := sync_folders_with_progress "/" 100 9 "/A" "/A/B" r1.1 in
  r1.2 = Ok tt ∧ r2.2 = Ok tt
  ∧ log r2.1 = log r1.1 ++ [Completed (CallMakedirs "/A/B/B/B");
                            Completed (CallCopy2 "/A/B/B/f" "/A/B/B/B/f")]
  ∧ fs r1.1 !! ["A"; "B"; "B"; "B"; "f"] = None
  ∧ fs r2.1 !! ["A"; "B"; "B"; "B"; "f"] = Some (File "x" 5).
Proof. by vm_compute. Qed.

Lemma sync_makes_every_directory_witness :
  syncable "/" tree_notes 9 "/A" "/B" ["A"] ["B"]
  ∧ ∃ t' l,
      sync_folders_with_progress "/" 100 9 "/A" "/B" (World tree_notes [])
        = (World t' ([] ++ l), Ok tt)
      ∧ ∀ x, is_dir_node (tree_notes !! (["A"] ++ x)) = true
             ∨ is_dir_node (tree_notes !! (["B"] ++ x)) = true →
          is_dir_node (t' !! (["A"] ++ x)) = true
          ∧ is_dir_node (t' !! (["B"] ++ x)) = true.
Proof.
  assert (syncable "/" tree_notes 9 "/A" "/B" ["A"] ["B"]) as Hs.
  { apply (bool_decide_unpack _). by vm_compute. }
  split; [done|].
  by apply (sync_makes_every_directory "/" 100 9 "/A" "/B" ["A"] ["B"] tree_notes []).
Defined.

(** C7 as stated fails: [/A/empty] holds nothing, [/B/empty] does not
    exist, and the scan makes it. *)
Lemma empty_directory_is_propagated :
  let r := sync_folders_with_progress "/" 100 9 "/A" "/B" (World tree_notes []) in
  entries tree_notes ["A"; "empty"] = []
  ∧ tree_notes !! ["B"; "empty"] = None
  ∧ r.2 = Ok tt
  ∧ fs r.1 !! ["B"; "empty"] = Some (Dir 100)
  ∧ Completed (CallMakedirs "/B/empty") ∈ log r.1.
Proof.
  do 4 (split; [by vm_compute|]).
  apply (bool_decide_unpack _). by vm_compute.
Qed.

(** ** Moving subtrees *)

Module move_facts.
Import posixpath path_facts tree_facts pass_facts.

Lemma prune_lookup_under (k j : key) (t : tree) :
  k `prefix_of` j → prune k t !! j = None.
Proof. intros Hk. apply map_lookup_filter_None_2. right. intros n _ Hn. by apply Hn. Qed.

Lemma prune_lookup_out (k j : key) (t : tree) :
  ¬ k `prefix_of` j → prune k t !! j = t !! j.
Proof.
  intros Hk. destruct (t !! j) as [n|] eqn:Hj.
  - by apply map_lookup_filter_Some_2.
  - apply map_lookup_filter_None_2. by left.
Qed.

Lemma graft_entry_Some (k k' : key) (kn : key * node) (j : key) (n : node) :
  graft_entry k k' kn = Some (j, n) ↔
  ∃ s, kn = (k ++ s, n) ∧ j = k' ++ s.
Proof.
  unfold graft_entry, under. destruct kn as [k1 n1]. simpl. split.
  - case_decide as Hd; [|done]. destruct Hd as [s ->]. intros [= <- <-].
    exists s. by rewrite drop_app_length.
  - intros (s & [= -> ->] & ->). rewrite decide_True by (by apply prefix_app_r).
    by rewrite drop_app_length.
Qed.

Lemma graft_keys_NoDup (k k' : key) (t : tree) :
  NoDup (omap (graft_entry k k') (map_to_list t)).*1.
Proof.
  apply NoDup_fmap_fst.
  - intros j n1 n2 (kn1 & H1 & He1)%list_elem_of_omap (kn2 & H2 & He2)%list_elem_of_omap.
    apply graft_entry_Some in He1 as (s1 & -> & ->).
    apply graft_entry_Some in He2 as (s2 & -> & Heq).
    apply app_inv_head in Heq as ->.
    apply elem_of_map_to_list in H1, H2. congruence.
  - apply NoDup_omap_inj; [apply NoDup_map_to_list|].
    intros x y [j n] _ _ (s1 & -> & ->)%graft_entry_Some (s2 & -> & Heq)%graft_entry_Some.
    by apply app_inv_head in Heq as ->.
Qed.

Lemma graft_lookup_in (k k' : key) (t : tree) (s : key) :
  graft k k' t !! (k' ++ s) = t !! (k ++ s).
Proof.
  unfold graft. destruct (t !! (k ++ s)) as [n|] eqn:Hn.
  - apply elem_of_list_to_map_1; [apply graft_keys_NoDup|].
    apply list_elem_of_omap. exists (k ++ s, n).
    split; [by apply elem_of_map_to_list|]. apply graft_entry_Some. by exists s.
  - apply not_elem_of_list_to_map_1.
    intros ([j n] & Hj & (kn & Hkn & He)%list_elem_of_omap)%list_elem_of_fmap.
    simpl in Hj. subst j. apply graft_entry_Some in He as (s' & -> & Heq).
    apply app_inv_head in Heq as <-. apply elem_of_map_to_list in Hkn. congruence.
Qed.

Lemma graft_lookup_out (k k' : key) (t : tree) (j : key) :
  ¬ k' `prefix_of` j → graft k k' t !! j = None.
Proof.
  intros Hj. unfold graft. apply not_elem_of_list_to_map_1.
  intros ([j' n] & Hj' & (kn & Hkn & He)%list_elem_of_omap)%list_elem_of_fmap.
  simpl in Hj'. subst j'. apply graft_entry_Some in He as (s' & -> & ->).
  apply Hj. by apply prefix_app_r.
Qed.

(** The tree after a rename of [ko] to [kn], two keys apart. *)
Lemma renamed_lookup (ko kn : key) (t : tree) (s : key) :
  apart ko kn →
  (graft ko kn t ∪ prune kn (prune ko t)) !! (ko ++ s) = None
  ∧ (graft ko kn t ∪ prune kn (prune ko t)) !! (kn ++ s) = t !! (ko ++ s).
Proof.
  intros Hap. split.
  - apply lookup_union_None_2.
    + apply graft_lookup_out. by apply apart_not_under.
    + rewrite prune_lookup_out by (by apply apart_not_under).
      apply prune_lookup_under. by apply prefix_app_r.
  - destruct (t !! (ko ++ s)) as [n|] eqn:Hn.
    + apply lookup_union_Some_l. by rewrite graft_lookup_in.
    + apply lookup_union_None_2; [by rewrite graft_lookup_in|].
      apply prune_lookup_under. by apply prefix_app_r.
Qed.

Lemma renamed_lookup_out (ko kn : key) (t : tree) (k : key) :
  ¬ ko `prefix_of` k → ¬ kn `prefix_of` k →
  (graft ko kn t ∪ prune kn (prune ko t)) !! k = t !! k.
Proof.
  intros Ho Hn. rewrite lookup_union_r by (by apply graft_lookup_out).
  by rewrite !prune_lookup_out.
Qed.

Section Move.
Variable cwd : string.
Variable now : Z.

Lemma rename_apart t src dst ko kn :
  namei cwd t src = Ok ko → is_Some (t !! ko) → last_name src = true →
  namei cwd t dst = Ok kn → t !! kn = None → last_name dst = true → apart ko kn →
  rename_tree cwd t src dst = Ok (graft ko kn t ∪ prune kn (prune ko t)).
Proof.
  intros Ho [n Hn] Hlo Hk Hnone Hln Hap. unfold rename_tree. rewrite Ho, Hk. simpl.
  rewrite Hlo, Hln, Hn, Hnone. simpl.
  assert (ko ≠ kn) as Hne. { intros ->. by destruct Hap as [[] _]. }
  rewrite !(bool_decide_eq_false_2 (ko = kn)) by done.
  destruct n; [done|].
  rewrite bool_decide_eq_false_2; [done|]. by destruct Hap.
Qed.

Lemma move_apart t src dst ko kn :
  namei cwd t src = Ok ko → is_Some (t !! ko) → last_name src = true →
  namei cwd t dst = Ok kn → t !! kn = None → last_name dst = true → apart ko kn →
  move_tree cwd now t src dst = (graft ko kn t ∪ prune kn (prune ko t), Ok tt).
Proof.
  intros Ho Hn Hlo Hk Hnone Hln Hap. unfold move_tree.
  assert (isdir cwd t dst = false) as ->.
  { unfold isdir, stat. rewrite Hk. simpl. by rewrite Hnone. }
  by rewrite (rename_apart t src dst ko kn).
Qed.

(** A move of what is not there raises and changes nothing. *)
Lemma move_missing t src dst :
  path_exists cwd t src = false →
  ∃ e, move_tree cwd now t src dst = (t, Raise e).
Proof.
  intros Hex.
  assert (stat cwd t src ≠ OutOfFuel) as Hfuel by apply fuel_facts.stat_fuel.
  assert (∃ e, stat cwd t src = Raise e) as [e Hstat].
  { unfold path_exists in Hex. destruct (stat cwd t src); [done|by eauto|done]. }
  assert (isdir cwd t src = false) as Hisdir by (unfold isdir; by rewrite Hstat).
  assert (∀ d, samefile cwd t src d = false) as Hsame.
  { intros d. unfold samefile. unfold stat in Hstat.
    destruct (namei cwd t src) as [ka|?|]; [|done..]. simpl in Hstat.
    destruct (namei cwd t d) as [kb|?|]; [|done..].
    destruct (t !! ka) eqn:Hka; [done|].
    rewrite andb_false_iff. right. apply bool_decide_eq_false_2.
    by intros []. }
  assert (∀ d, ∃ e', rename_tree cwd t src d = Raise e') as Hren.
  { intros d. unfold rename_tree. unfold stat in Hstat.
    destruct (namei cwd t src) as [ka|e1|]; simpl in *; [|by eauto|done].
    pose proof (fuel_facts.namei_fuel cwd t d).
    destruct (namei cwd t d) as [kb|e2|]; simpl; [|by eauto|done].
    destruct (negb _); [by eauto|].
    destruct (t !! ka); [done|by eauto]. }
  assert (∀ d, ∃ e', copy2_tree cwd t src d = (t, Raise e')) as Hcopy.
  { intros d. unfold copy2_tree, copyfile_tree. rewrite Hsame, Hstat. by eauto. }
  assert (∀ real_dst, ∃ e',
    match rename_tree cwd t src real_dst with
    | Ok t1 => (t1, Ok tt)
    | OutOfFuel => (t, OutOfFuel)
    | Raise _ =>
        if isdir cwd t src then
          if destinsrc cwd src dst then (t, Raise ShutilError)
          else seq_tree (copytree_tree cwd now t src real_dst)
                        (λ t1, rmtree_tree cwd t1 src)
        else seq_tree (copy2_tree cwd t src real_dst)
                      (λ t1, remove_tree cwd t1 src)
    end = (t, Raise e')) as Hfin.
  { intros real_dst. destruct (Hren real_dst) as [e1 ->]. rewrite Hisdir.
    destruct (Hcopy real_dst) as [e2 ->]. by eauto. }
  unfold move_tree. destruct (isdir cwd t dst); [|apply Hfin].
  rewrite Hsame.
  destruct (path_exists cwd t (join dst (shutil_basename src))); [by eauto|apply Hfin].
Qed.

End Move.
End move_facts.

(** ** A call and its line, inside the [try] *)

Module guard_facts.

Section Guard.
Variable stdout : entry → option exn.

(** [try: call; print(line) except Exception as e: print(error)] *)
Lemma guarded_run c op line et sp w :
  try_except (bind (logged c op) (λ _, print stdout (Print line)))
             (λ e, print stdout (PrintError et sp e)) w
  = match op (fs w) with
    | (t1, Ok _) =>
        match stdout (Print line) with
        | None => (World t1 (log w ++ [Completed c; Print line]), Ok tt)
        | Some e =>
            match stdout (PrintError et sp e) with
            | None => (World t1 (log w ++ [Completed c; PrintError et sp e]), Ok tt)
            | Some e' => (World t1 (log w ++ [Completed c]), Raise e')
            end
        end
    | (t1, Raise e) =>
        match stdout (PrintError et sp e) with
        | None => (World t1 (log w ++ [Failed c e; PrintError et sp e]), Ok tt)
        | Some e' => (World t1 (log w ++ [Failed c e]), Raise e')
        end
    | (t1, OutOfFuel) => (World t1 (log w), OutOfFuel)
    end.
Proof.
  unfold try_except, bind, logged, print.
  destruct (op (fs w)) as [t1 [[]|e|]]; cbn [fs log]; [| |done].
  - destruct (stdout (Print line)) as [e|]; cbn [fs log];
      [|by rewrite <- List.app_assoc].
    destruct (stdout _); cbn [fs log]; by rewrite <- ?List.app_assoc.
  - destruct (stdout _); cbn [fs log]; by rewrite <- ?List.app_assoc.
Qed.

(** Whatever the standard output does, the tree is the one the call left. *)
Lemma guarded_fs c op line et sp w :
  fs (try_except (bind (logged c op) (λ _, print stdout (Print line)))
                 (λ e, print stdout (PrintError et sp e)) w).1
  = (op (fs w)).1.
Proof.
  rewrite guarded_run. destruct (op (fs w)) as [t1 [[]|e|]]; [| |done].
  - destruct (stdout (Print line)); [|done]. by destruct (stdout _).
  - by destruct (stdout _).
Qed.

Lemma try_except_ext {A} (m m' : M A) h w :
  m w = m' w → try_except m h w = try_except m' h w.
Proof. unfold try_except. by intros ->. Qed.

End Guard.
End guard_facts.

Section MovedEvent.
Import posixpath last_facts move_facts guard_facts.
Variable cwd : string.
Variable now : Z.
Variable stdout : entry → option exn.

Lemma map_path_Ok p from_root to_root q :
  map_path cwd p from_root to_root = Ok q →
  ∃ rel, relpath cwd p from_root = Ok rel ∧ q = join to_root rel.
Proof.
  unfold map_path. destruct (relpath cwd p from_root) as [rel| |]; [|done..].
  intros [= <-]. eauto.
Qed.

(** A moved event comes to one call of [shutil.move] and its line. *)
Lemma on_moved self ev t lg p_old p_new :
  event_type ev = "moved" →
  map_path cwd (src_path ev) (self_src_path self) (self_dest_path self) = Ok p_old →
  map_path cwd (dest_path ev) (self_src_path self) (self_dest_path self) = Ok p_new →
  on_any_event cwd now stdout self ev (World t lg) =
    try_except
      (bind (logged (CallMove p_old p_new) (λ t0, move_tree cwd now t0 p_old p_new))
         (λ _, print stdout (Print ("Moved: " +:+ src_path ev +:+ " -> " +:+ p_new))))
      (λ e, print stdout (PrintError (event_type ev) (src_path ev) e))
      (World t lg).
Proof.
  intros Het (rel_o & Hro & ->)%map_path_Ok (rel_n & Hrn & ->)%map_path_Ok.
  unfold on_any_event. apply try_except_ext.
  unfold handle_event, mbind, M_bind. unfold bind at 1. unfold lift.
  rewrite Hro, Het.
  repeat (rewrite bool_decide_eq_false_2 by done).
  rewrite bool_decide_eq_true_2 by done.
  unfold bind at 1. by rewrite Hrn.
Qed.

(** C3, as the code has it.  For a moved event whose mapped old path
    exists and does not end in [.] or [..], and whose mapped new path does
    not exist yet (in an existing directory, neither path inside the
    other): the mirror loses the old path, has under the new path what was
    under the old one, and is unchanged elsewhere; the call and the line
    are in the log when the standard output takes the line.  When the
    mapped old path does not exist, [shutil.move] raises and the tree is
    unchanged; the handler prints the error and returns when the standard
    output takes that line. *)
Theorem moved_event_is_mirrored self ev t lg p_old p_new :
  wf_tree t →
  event_type ev = "moved" →
  map_path cwd (src_path ev) (self_src_path self) (self_dest_path self) = Ok p_old →
  map_path cwd (dest_path ev) (self_src_path self) (self_dest_path self) = Ok p_new →
  let line := Print ("Moved: " +:+ src_path ev +:+ " -> " +:+ p_new) in
  (∀ ko kn,
     namei cwd t p_old = Ok ko → is_Some (t !! ko) → last_name p_old = true →
     namei cwd t p_new = Ok kn → t !! kn = None → apart ko kn →
     ∃ t', fs (on_any_event cwd now stdout self ev (World t lg)).1 = t'
         ∧ (∀ s, t' !! (ko ++ s) = None ∧ t' !! (kn ++ s) = t !! (ko ++ s))
         ∧ (∀ k : key, ¬ ko `prefix_of` k → ¬ kn `prefix_of` k → t' !! k = t !! k)
         ∧ (stdout line = None →
            on_any_event cwd now stdout self ev (World t lg)
            = (World t' (lg ++ [Completed (CallMove p_old p_new); line]), Ok tt)))
  ∧ (path_exists cwd t p_old = false →
     ∃ e, fs (on_any_event cwd now stdout self ev (World t lg)).1 = t
        ∧ (stdout (PrintError "moved" (src_path ev) e) = None →
           on_any_event cwd now stdout self ev (World t lg)
           = (World t (lg ++ [Failed (CallMove p_old p_new) e;
                              PrintError "moved" (src_path ev) e]), Ok tt))).
Proof.
  intros Hwf Het Ho Hn line.
  rewrite (on_moved self ev t lg p_old p_new Het Ho Hn), guarded_fs, guarded_run.
  cbn [fs log]. rewrite Het. split.
  - intros ko kn Hko Hex Hlo Hkn Hnone Hap.
    assert (last_name p_new = true) as Hln.
    { apply (namei_not_dir cwd t p_new kn); [done..|]. by rewrite Hnone. }
    rewrite (move_apart cwd now t p_old p_new ko kn) by done.
    eexists. split; [done|]. split; [intros s; by apply renamed_lookup|].
    split; [intros k; by apply renamed_lookup_out|].
    fold line. by intros ->.
  - intros Hex. destruct (move_missing cwd now t p_old p_new Hex) as [e ->].
    exists e. split; [done|]. by intros ->.
Qed.

End MovedEvent.

Lemma moved_event_is_mirrored_witness :
  let ev := Event "moved" "/A/f" "/A/g" in
  let self := Handler "/A" "/B" in
  let line := Print ("Moved: " +:+ "/A/f" +:+ " -> " +:+ "/B/g") in
  (wf_tree tree_moved_file ∧ wf_tree tree_notes
   ∧ event_type ev = "moved"
   ∧ map_path "/" (src_path ev) (self_src_path self) (self_dest_path self) = Ok "/B/f"
   ∧ map_path "/" (dest_path ev) (self_src_path self) (self_dest_path self) = Ok "/B/g")
  ∧ (namei "/" tree_moved_file "/B/f" = Ok ["B"; "f"]
     ∧ is_Some (tree_moved_file !! ["B"; "f"])
     ∧ last_name "/B/f" = true
     ∧ namei "/" tree_moved_file "/B/g" = Ok ["B"; "g"]
     ∧ tree_moved_file !! ["B"; "g"] = None
     ∧ apart ["B"; "f"] ["B"; "g"])
  ∧ (∃ t', fs (on_any_event "/" 100 stdout_open self ev (World tree_moved_file [])).1 = t'
         ∧ (∀ s, t' !! (["B"; "f"] ++ s) = None
                 ∧ t' !! (["B"; "g"] ++ s) = tree_moved_file !! (["B"; "f"] ++ s))
         ∧ (∀ k : key, ¬ ["B"; "f"] `prefix_of` k → ¬ ["B"; "g"] `prefix_of` k →
              t' !! k = tree_moved_file !! k)
         ∧ (stdout_open line = None →
            on_any_event "/" 100 stdout_open self ev (World tree_moved_file [])
            = (World t' ([] ++ [Completed (CallMove "/B/f" "/B/g"); line]), Ok tt)))
  ∧ (path_exists "/" tree_notes "/B/f" = false
     ∧ ∃ e, fs (on_any_event "/" 100 stdout_open self ev (World tree_notes [])).1
            = tree_notes
          ∧ (stdout_open (PrintError "moved" (src_path ev) e) = None →
             on_any_event "/" 100 stdout_open self ev (World tree_notes [])
             = (World tree_notes
                  ([] ++ [Failed (CallMove "/B/f" "/B/g") e;
                          PrintError "moved" (src_path ev) e]), Ok tt))).
Proof.
  intros ev self line.
  assert (wf_tree tree_moved_file) as Hwf1 by (apply (bool_decide_unpack _); by vm_compute).
  assert (wf_tree tree_notes) as Hwf2 by (apply (bool_decide_unpack _); by vm_compute).
  assert (is_Some (tree_moved_file !! ["B"; "f"])) as Hex by (by eexists).
  assert (apart ["B"; "f"] ["B"; "g"]) as Hap by (apply (bool_decide_unpack _); by vm_compute).
  split; [repeat (split; [reflexivity || assumption|]); reflexivity|].
  split; [repeat (split; [reflexivity || exact Hex|]); exact Hap|]. split.
  - apply (proj1 (moved_event_is_mirrored "/" 100 stdout_open self ev tree_moved_file []
                    "/B/f" "/B/g" Hwf1 eq_refl eq_refl eq_refl)
             ["B"; "f"] ["B"; "g"]);
      first [reflexivity | assumption].
  - split; [reflexivity|].
    by apply (proj2 (moved_event_is_mirrored "/" 100 stdout_open self ev tree_notes []
                       "/B/f" "/B/g" Hwf2 eq_refl eq_refl eq_refl)).
Defined.

(** C3 as stated fails: [/A/f] was moved into the directory [/A/d], which
    the mirror does not have.  The mapped old path exists; [shutil.move]
    cannot rename it into a directory that is not there, the copy it falls
    back to raises, the handler prints the error, and the mirror is as it
    was: [/B/f] is still there and [/B/d/f] is not. *)
Lemma moved_without_directory :
  let r := on_any_event "/" 100 stdout_open (Handler "/A" "/B")
             (Event "moved" "/A/f" "/A/d/f") (World tree_moved_deeper []) in
  map_path "/" "/A/f" "/A" "/B" = Ok "/B/f"
  ∧ map_path "/" "/A/d/f" "/A" "/B" = Ok "/B/d/f"
  ∧ path_exists "/" tree_moved_deeper "/B/f" = true
  ∧ r = (World tree_moved_deeper
           [Failed (CallMove "/B/f" "/B/d/f") FileNotFoundError;
            PrintError "moved" "/A/f" FileNotFoundError], Ok tt)
  ∧ path_exists "/" (fs r.1) "/B/f" = true
  ∧ path_exists "/" (fs r.1) "/B/d/f" = false.
Proof. by vm_compute. Qed.

(** Where the mirror already has a directory at the new path,
    [shutil.move] moves into that directory instead: [/A/x] was renamed over
    the empty directory [/A/y], and the mirror gets [/B/y/x]. *)
Lemma moved_into_existing_directory :
  let r := on_any_event "/" 100 stdout_open (Handler "/A" "/B")
             (Event "moved" "/A/x" "/A/y") (World tree_renamed []) in
  path_exists "/" tree_renamed "/B/x" = true
  ∧ r.2 = Ok tt
  ∧ fs r.1 !! ["B"; "x"] = None
  ∧ fs r.1 !! ["B"; "y"] = Some (Dir 4)
  ∧ fs r.1 !! ["B"; "y"; "f"] = None
  ∧ fs r.1 !! ["B"; "y"; "x"; "f"] = Some (File "data" 3).
Proof. by vm_compute. Qed.

(** ** The strings the handler passes to [makedirs] and [move] *)

Module mirror_paths.
Import posixpath path_facts split_facts call_facts.

Lemma rfind_split_no_sep c : has_sep c = false → rfind_split c = ("", c).
Proof.
  induction c as [|x c IH]; simpl; [done|].
  intros [Hx Hc]%orb_false_iff. rewrite (IH Hc). simpl. by rewrite Hx.
Qed.

Lemma rfind_split_after_sep z x :
  (rfind_split (z +:+ "/" +:+ x)).2 = (rfind_split x).2
  ∧ (rfind_split (z +:+ "/" +:+ x)).1 ≠ "".
Proof.
  induction z as [|c z [IH1 IH2]].
  - rewrite str_app_nil_l. change ("/" +:+ x) with (String "/" x). simpl.
    destruct (rfind_split x) as [h t]. simpl. by destruct (nonempty h).
  - rewrite str_app_cons. simpl.
    destruct (rfind_split (z +:+ "/" +:+ x)) as [h t]. simpl in *.
    apply nonempty_true in IH2. by rewrite IH2.
Qed.

Lemma str_app_inv_tail a b c : a +:+ c = b +:+ c → a = b.
Proof.
  revert b. induction a as [|x a IH]; intros [|y b] Heq; try done.
  - apply (f_equal String.length) in Heq. rewrite str_app_nil_l, str_app_cons in Heq.
    simpl in Heq. rewrite fuel_facts.str_length_app in Heq. lia.
  - apply (f_equal String.length) in Heq. rewrite str_app_nil_l, str_app_cons in Heq.
    simpl in Heq. rewrite fuel_facts.str_length_app in Heq. lia.
  - rewrite !str_app_cons in Heq. injection Heq as -> Heq. f_equal. by apply IH.
Qed.

Lemma rfind_split_snoc z c :
  has_sep c = false → rfind_split (z +:+ "/" +:+ c) = (z +:+ "/", c).
Proof.
  intros Hc. pose proof (rfind_split_after_sep z c) as [Ht _].
  pose proof (rfind_split_eq (z +:+ "/" +:+ c)) as Heq.
  destruct (rfind_split (z +:+ "/" +:+ c)) as [h t]. simpl in *.
  rewrite (rfind_split_no_sep c Hc) in Ht. simpl in Ht. subst t.
  rewrite <- str_app_assoc in Heq. by apply str_app_inv_tail in Heq as <-.
Qed.

Lemma rstrip_sep_snoc z : rstrip_sep (z +:+ "/") = rstrip_sep z.
Proof.
  induction z as [|c z IH]; [done|]. rewrite str_app_cons. simpl. by rewrite IH.
Qed.

Lemma rstrip_sep_noop s : endswith_sep s = false → rstrip_sep s = s.
Proof.
  intros He. destruct (rstrip_sep_spec s) as (j & Hj & _).
  destruct j as [|j]; [by rewrite str_app_nil_r in Hj|].
  rewrite Hj in He. rewrite endswith_sep_app_r in He by done.
  clear Hj. exfalso. induction j as [|j IH]; [done|].
  apply IH. by destruct j.
Qed.

Lemma all_sep_app a b : all_sep (a +:+ b) = all_sep a && all_sep b.
Proof.
  induction a as [|c a IH]; [done|]. rewrite str_app_cons. simpl.
  by rewrite IH, andb_assoc.
Qed.

Lemma all_sep_join_sep ns :
  ns ≠ [] → Forall proper_name ns → all_sep (join_sep ns) = false.
Proof.
  destruct ns as [|c ns]; [done|]. intros _ Hns.
  inversion Hns as [|?? (Hc & _ & _ & Hs) _]; subst.
  assert (all_sep c = false) as Hall.
  { destruct c as [|x c]; [done|]. simpl in *.
    by apply orb_false_iff in Hs as [-> _]. }
  destruct ns; [done|]. rewrite join_sep_cons by done.
  by rewrite all_sep_app, Hall.
Qed.

Lemma join_sep_snoc ns c :
  ns ≠ [] → join_sep (ns ++ [c]) = join_sep ns +:+ "/" +:+ c.
Proof.
  induction ns as [|a ns IH]; [done|]. intros _.
  destruct ns as [|b ns]; [done|].
  change ((a :: b :: ns) ++ [c]) with (a :: (b :: ns) ++ [c]).
  rewrite join_sep_cons by done. rewrite IH by done.
  rewrite (join_sep_cons a (b :: ns)) by done. by rewrite !str_app_assoc.
Qed.

Lemma join_as_prefix m x : isabs x = false → join m x = join_prefix m +:+ x.
Proof.
  intros Hx. rewrite join_rel by done. unfold join_prefix.
  destruct (_ || _); [done|]. by rewrite str_app_assoc.
Qed.





(** The head and tail [os.path.split] gives for a mapped path of two
    names or more. *)
Lemma split_mapped m ns c :
  ns ≠ [] → Forall proper_name ns → proper_name c →
  split (join m (join_sep (ns ++ [c]))) = (join m (join_sep ns), c).
Proof.
  intros Hne Hns Hc. pose proof Hc as (_ & _ & _ & Hs).
  assert (isabs (join_sep (ns ++ [c])) = false) as Habs.
  { apply join_sep_proper_not_abs, Forall_app. split; [done|by apply Forall_singleton]. }
  rewrite !join_as_prefix by auto using join_sep_proper_not_abs.
  rewrite join_sep_snoc by done. rewrite <- str_app_assoc.
  unfold split. rewrite rfind_split_snoc by done.
  set (z := join_prefix m +:+ join_sep ns).
  assert (all_sep (z +:+ "/") = false) as Hall.
  { unfold z. rewrite !all_sep_app, all_sep_join_sep by done.
    by rewrite andb_false_r. }
  assert (nonempty (z +:+ "/") = true) as Hnz by (by destruct z).
  rewrite Hnz, Hall. simpl. rewrite rstrip_sep_snoc, rstrip_sep_noop; [done|].
  unfold z. rewrite endswith_sep_app_r by (by apply join_sep_proper_nonempty).
  by apply endswith_join_sep.
Qed.

End mirror_paths.

(** ** What a call leaves alone

    [outside kM t t'] : the trees [t] and [t'] agree on every key that is
    not at or below [kM]. *)

Module frame_facts.
Import posixpath path_facts namei_facts split_facts tree_facts call_facts
       move_facts mirror_paths.

Section Frame.
Variable cwd : string.
Hypothesis cwd_abs : isabs cwd = true.
Variable now : Z.
Variable kM : key.














Lemma no_sep_not_abs c : has_sep c = false → isabs c = false.
Proof. destruct c as [|x c]; [done|]. simpl. by intros [-> _]%orb_false_iff. Qed.







Lemma wf_parent_dir t (k : key) :
  wf_tree t → is_Some (t !! k) → is_dir_node (t !! removelast k) = true.
Proof.
  intros Hwf [n Hn]. destruct (decide (k = [])) as [->|Hne]; [by apply wf_root|].
  rewrite (key_snoc_inv k Hne) in Hn. by apply wf_lookup in Hn as [? _].
Qed.


Lemma proper_split_tail D c : proper_name c → (split (join D c)).2 ≠ "".
Proof.
  intros Hc. pose proof Hc as (Hne & _ & _ & Hs).
  assert (endswith_sep c = false) as He
    by (apply (endswith_join_sep [c]); [done|by apply Forall_singleton]).
  apply basename_nonempty.
  - rewrite join_as_prefix by auto using proper_not_abs.
    destruct (join_prefix D); [done|by rewrite str_app_cons].
  - by rewrite endswith_join by auto using proper_not_abs.
Qed.


Section Mapped.
Variable M : string.
Variable t : tree.
Hypothesis M_key : namei cwd t M = Ok kM.
Hypothesis M_dir : is_dir_node (t !! kM) = true.


Lemma dot_split_tail : (split (join M ".")).2 ≠ "".
Proof.
  apply basename_nonempty.
  - rewrite join_as_prefix by done.
    destruct (join_prefix M); [done|by rewrite str_app_cons].
  - by rewrite endswith_join.
Qed.





End Mapped.

End Frame.
End frame_facts.

Section MirrorOnly.
Import posixpath path_facts namei_facts call_facts frame_facts.
Variable cwd : string.
Variable now : Z.
Variable stdout : entry → option exn.






End MirrorOnly.


(** The assumption on the mirror root is needed: when [/x/B] and [/x] do
    not exist, [os.makedirs] also makes [/x], which is not below the
    mirror root. *)
Lemma missing_mirror_root_is_made :
  let t : tree := list_to_map [([], Dir 0); (["A"], Dir 1); (["A"; "d"], Dir 2)] in
  let r := on_any_event "/" 100 stdout_open (Handler "/A" "/x/B")
             (Event "created" "/A/d" "")
             (World t []) in
  r.2 = Ok tt ∧ t !! ["x"] = None ∧ fs r.1 !! ["x"] = Some (Dir 100)
  ∧ fs r.1 !! ["x"; "B"; "d"] = Some (Dir 100).
Proof. by vm_compute. Qed.

(** * More of the handler and of the scan *)

(** ** The handler, one event type at a time *)

Module event_facts.
Import posixpath path_facts namei_facts call_facts guard_facts.

Section Events.
Variable cwd : string.
Variable now : Z.
Variable stdout : entry → option exn.

(** A [created] or [modified] event for something that is not a
    directory comes to one call of [shutil.copy2] and its line. *)
Lemma on_copy_event self ev t lg p :
  event_type ev = "created" ∨ event_type ev = "modified" →
  map_path cwd (src_path ev) (self_src_path self) (self_dest_path self) = Ok p →
  isdir cwd t (src_path ev) = false →
  on_any_event cwd now stdout self ev (World t lg) =
    try_except
      (bind (logged (CallCopy2 (src_path ev) p)
               (λ t0, copy2_tree cwd t0 (src_path ev) p))
         (λ _, print stdout (Print (copy_line (event_type ev) (src_path ev) p))))
      (λ e, print stdout (PrintError (event_type ev) (src_path ev) e))
      (World t lg).
Proof.
  intros Het Hmap Hnd.
  apply map_path_Ok in Hmap as (rel & Hrel & ->).
  set (p := join (self_dest_path self) rel).
  unfold on_any_event. apply try_except_ext. unfold handle_event. fold p.
  unfold mbind at 1. unfold M_bind, bind at 1, lift. rewrite Hrel.
  unfold copy_line. destruct Het as [Het|Het]; rewrite Het.
  - rewrite bool_decide_eq_true_2 by done.
    unfold mbind at 1. unfold M_bind, bind at 1, read. cbn [fs]. by rewrite Hnd.
  - rewrite (bool_decide_eq_false_2 ("modified" = "created")) by done.
    rewrite bool_decide_eq_true_2 by done.
    unfold mbind at 1. unfold M_bind, bind at 1, read. cbn [fs]. by rewrite Hnd.
Qed.

(** A [created] event for a directory comes to one call of
    [os.makedirs(dest_path, exist_ok=True)] and its line. *)
Lemma on_mkdir_event self ev t lg p :
  event_type ev = "created" →
  map_path cwd (src_path ev) (self_src_path self) (self_dest_path self) = Ok p →
  isdir cwd t (src_path ev) = true →
  on_any_event cwd now stdout self ev (World t lg) =
    try_except
      (bind (logged (CallMakedirs p) (λ t0, makedirs_tree cwd now true t0 p))
         (λ _, print stdout (Print ("Directory created: " +:+ src_path ev
                                    +:+ " -> " +:+ p))))
      (λ e, print stdout (PrintError (event_type ev) (src_path ev) e))
      (World t lg).
Proof.
  intros Het Hmap Hd.
  apply map_path_Ok in Hmap as (rel & Hrel & ->).
  set (p := join (self_dest_path self) rel).
  unfold on_any_event. apply try_except_ext. unfold handle_event. fold p.
  unfold mbind at 1. unfold M_bind, bind at 1, lift. rewrite Hrel, Het.
  rewrite bool_decide_eq_true_2 by done.
  unfold mbind at 1. unfold M_bind, bind at 1, read. cbn [fs]. by rewrite Hd.
Qed.

(** A [deleted] event: [shutil.rmtree] for a directory of the mirror,
    [os.remove] for anything else that exists there, nothing otherwise. *)
Lemma on_deleted_event self ev t lg p :
  event_type ev = "deleted" →
  map_path cwd (src_path ev) (self_src_path self) (self_dest_path self) = Ok p →
  on_any_event cwd now stdout self ev (World t lg) =
    if isdir cwd t p then
      try_except
        (bind (logged (CallRmtree p) (λ t0, rmtree_tree cwd t0 p))
           (λ _, print stdout (Print ("Directory deleted: " +:+ p))))
        (λ e, print stdout (PrintError (event_type ev) (src_path ev) e))
        (World t lg)
    else if path_exists cwd t p then
      try_except
        (bind (logged (CallRemove p) (λ t0, remove_tree cwd t0 p))
           (λ _, print stdout (Print ("File deleted: " +:+ p))))
        (λ e, print stdout (PrintError (event_type ev) (src_path ev) e))
        (World t lg)
    else (World t lg, Ok tt).
Proof.
  intros Het Hmap.
  apply map_path_Ok in Hmap as (rel & Hrel & ->).
  remember (join (self_dest_path self) rel) as p eqn:Hp.
  destruct (isdir cwd t p) eqn:Hd.
  - unfold on_any_event. apply try_except_ext. unfold handle_event.
    unfold mbind at 1. unfold M_bind, bind at 1, lift. rewrite Hrel, Het.
    cbv zeta. rewrite <- Hp.
    do 2 (rewrite bool_decide_eq_false_2 by done).
    rewrite bool_decide_eq_true_2 by done.
    unfold mbind at 1. unfold M_bind, bind at 1, read. cbn [fs]. by rewrite Hd.
  - destruct (path_exists cwd t p) eqn:Hex.
    + unfold on_any_event. apply try_except_ext. unfold handle_event.
      unfold mbind at 1. unfold M_bind, bind at 1, lift. rewrite Hrel, Het.
      cbv zeta. rewrite <- Hp.
      do 2 (rewrite bool_decide_eq_false_2 by done).
      rewrite bool_decide_eq_true_2 by done.
      unfold mbind at 1. unfold M_bind, bind at 1, read. cbn [fs]. rewrite Hd.
      unfold mbind at 1. unfold M_bind, bind at 1. cbn [fs]. by rewrite Hex.
    + unfold on_any_event, try_except, handle_event.
      unfold mbind at 1. unfold M_bind, bind at 1, lift. rewrite Hrel, Het.
      cbv zeta. rewrite <- Hp.
      do 2 (rewrite bool_decide_eq_false_2 by done).
      rewrite bool_decide_eq_true_2 by done.
      unfold mbind, M_bind, bind, read, ret. cbn [fs]. rewrite Hd.
      cbn [fs]. by rewrite Hex.
Qed.

End Events.
End event_facts.

Section EventTypes.
Import posixpath path_facts namei_facts last_facts call_facts guard_facts
       event_facts move_facts.
Variable cwd : string.
Variable now : Z.
Variable stdout : entry → option exn.

Lemma relpath_Ok p start : p ≠ "" → ∃ rel, relpath cwd p start = Ok rel.
Proof.
  intros Hp%nonempty_true. unfold relpath. rewrite Hp. simpl.
  destruct (_ ++ _); eauto.
Qed.

Lemma namei_insert_file t p k (kd : key) n :
  is_dir_node (t !! kd) = false →
  namei cwd t p = Ok k → namei cwd (<[kd := n]> t) p = Ok k.
Proof.
  intros Hkd. apply namei_mono. intros k0 Hk0.
  destruct (decide (k0 = kd)) as [->|Hne]; [congruence|].
  by rewrite lookup_insert_ne.
Qed.

(** X1: a [created] or [modified] event for a file puts the content and
    the modification time of the file at the mapped path, whatever the
    standard output does; it makes the one call [copy2] and, on a standard
    output that takes it, prints one line. *)
Theorem file_event_is_mirrored self ev t lg p ks kd c m :
  event_type ev = "created" ∨ event_type ev = "modified" →
  map_path cwd (src_path ev) (self_src_path self) (self_dest_path self) = Ok p →
  namei cwd t (src_path ev) = Ok ks → t !! ks = Some (File c m) →
  namei cwd t p = Ok kd → is_dir_node (t !! kd) = false → ks ≠ kd →
  let line := Print (copy_line (event_type ev) (src_path ev) p) in
  fs (on_any_event cwd now stdout self ev (World t lg)).1 = <[kd := File c m]> t
  ∧ (stdout line = None →
     on_any_event cwd now stdout self ev (World t lg)
     = (World (<[kd := File c m]> t)
          (lg ++ [Completed (CallCopy2 (src_path ev) p); line]), Ok tt)).
Proof.
  intros Het Hmap Hks Hsrc Hkd Hnd Hne line.
  rewrite (on_copy_event cwd now stdout self ev t lg p Het Hmap)
    by (by rewrite (isdir_node cwd t _ ks), Hsrc).
  rewrite guarded_fs, guarded_run. cbn [fs log].
  rewrite (copy2_file cwd t _ _ ks kd c m) by done.
  split; [done|]. fold line. by intros ->.
Qed.

(** X2: handling the same file event a second time leaves the tree the
    first handling made. *)
Theorem file_event_twice self ev t lg p ks kd c m :
  event_type ev = "created" ∨ event_type ev = "modified" →
  map_path cwd (src_path ev) (self_src_path self) (self_dest_path self) = Ok p →
  namei cwd t (src_path ev) = Ok ks → t !! ks = Some (File c m) →
  namei cwd t p = Ok kd → is_dir_node (t !! kd) = false → ks ≠ kd →
  let w1 := (on_any_event cwd now stdout self ev (World t lg)).1 in
  fs (on_any_event cwd now stdout self ev w1).1 = fs w1
  ∧ fs w1 !! kd = fs w1 !! ks.
Proof.
  intros Het Hmap Hks Hsrc Hkd Hnd Hne. cbv zeta.
  set (t1 := <[kd := File c m]> t).
  assert (fs (on_any_event cwd now stdout self ev (World t lg)).1 = t1) as Hfs.
  { rewrite (on_copy_event cwd now stdout self ev t lg p Het Hmap)
      by (by rewrite (isdir_node cwd t _ ks), Hsrc).
    rewrite guarded_fs. cbn [fs].
    by rewrite (copy2_file cwd t _ _ ks kd c m). }
  destruct (on_any_event cwd now stdout self ev (World t lg)).1 as [t1' lg1].
  cbn [fs] in *. subst t1'.
  assert (t1 !! ks = Some (File c m)) as Hsrc1
    by (unfold t1; by rewrite lookup_insert_ne).
  assert (t1 !! kd = Some (File c m)) as Hdst1
    by (unfold t1; by rewrite lookup_insert_eq).
  split; [|by rewrite Hsrc1, Hdst1].
  rewrite (on_copy_event cwd now stdout self ev t1 _ p Het Hmap).
  - rewrite guarded_fs. cbn [fs].
    rewrite (copy2_file cwd t1 _ _ ks kd c m);
      [|by apply namei_insert_file|done|by apply namei_insert_file
       |by rewrite Hdst1|done].
    cbn [fst]. unfold t1. by rewrite insert_insert_eq.
  - rewrite (isdir_node cwd t1 _ ks), Hsrc1; [done|by apply namei_insert_file].
Qed.

Lemma isdir_false_of_missing t p : path_exists cwd t p = false → isdir cwd t p = false.
Proof. unfold path_exists, isdir. by destruct (stat cwd t p) as [[|]| |]. Qed.

(** X3: a [created] or [modified] event whose copy cannot be made, the
    file being gone again or the mapped path not resolving, changes
    nothing in the tree: the handler makes no directory for the file.  It
    prints the error and returns when the standard output takes the
    line. *)
Theorem file_event_failure self ev t lg p :
  event_type ev = "created" ∨ event_type ev = "modified" →
  map_path cwd (src_path ev) (self_src_path self) (self_dest_path self) = Ok p →
  (path_exists cwd t (src_path ev) = false →
   ∃ e, fs (on_any_event cwd now stdout self ev (World t lg)).1 = t
      ∧ (stdout (PrintError (event_type ev) (src_path ev) e) = None →
         on_any_event cwd now stdout self ev (World t lg)
         = (World t (lg ++ [Failed (CallCopy2 (src_path ev) p) e;
                            PrintError (event_type ev) (src_path ev) e]), Ok tt)))
  ∧ (∀ ks c m e,
       namei cwd t (src_path ev) = Ok ks → t !! ks = Some (File c m) →
       namei cwd t p = Raise e →
       fs (on_any_event cwd now stdout self ev (World t lg)).1 = t
       ∧ (stdout (PrintError (event_type ev) (src_path ev) e) = None →
          on_any_event cwd now stdout self ev (World t lg)
          = (World t (lg ++ [Failed (CallCopy2 (src_path ev) p) e;
                             PrintError (event_type ev) (src_path ev) e]), Ok tt))).
Proof.
  intros Het Hmap. split.
  - intros Hex.
    rewrite (on_copy_event cwd now stdout self ev t lg p Het Hmap)
      by (by apply isdir_false_of_missing).
    rewrite guarded_fs, guarded_run. cbn [fs log].
    assert (∃ e, stat cwd t (src_path ev) = Raise e) as [e He].
    { unfold path_exists in Hex. pose proof (fuel_facts.stat_fuel cwd t (src_path ev)).
      destruct (stat cwd t (src_path ev)) as [?|e|]; [done|by exists e|done]. }
    exists e.
    assert (copy2_tree cwd t (src_path ev) p = (t, Raise e)) as ->.
    { unfold copy2_tree, copyfile_tree.
      assert (∀ q, samefile cwd t (src_path ev) q = false) as ->.
      { intros q. unfold samefile. unfold stat in He.
        destruct (namei cwd t (src_path ev)) as [ks| |]; [|done..]. simpl in He.
        destruct (namei cwd t q); [|done..].
        destruct (t !! ks) eqn:Hn; [done|].
        rewrite (bool_decide_eq_false_2 (is_Some _)); [by rewrite andb_false_r|].
        by intros [? ?]. }
      by rewrite He. }
    split; [done|]. by intros ->.
  - intros ks c m e Hks Hsrc Hp.
    rewrite (on_copy_event cwd now stdout self ev t lg p Het Hmap)
      by (by rewrite (isdir_node cwd t _ ks), Hsrc).
    rewrite guarded_fs, guarded_run. cbn [fs log].
    assert (copy2_tree cwd t (src_path ev) p = (t, Raise e)) as ->.
    { unfold copy2_tree, copyfile_tree, isdir, samefile, stat.
      rewrite Hp, Hks. simpl. rewrite Hp, Hsrc. simpl. by rewrite ?Hp. }
    split; [done|]. by intros ->.
Qed.

(** X4: a [modified] event for a directory is ignored: no call, no
    line. *)
Theorem modified_directory_ignored self ev t lg :
  event_type ev = "modified" → isdir cwd t (src_path ev) = true →
  on_any_event cwd now stdout self ev (World t lg) = (World t lg, Ok tt).
Proof.
  intros Het Hd.
  assert (src_path ev ≠ "") as Hp.
  { intros Hp. rewrite Hp in Hd. done. }
  destruct (relpath_Ok (src_path ev) (self_src_path self) Hp) as [rel Hrel].
  unfold on_any_event, try_except, handle_event.
  unfold mbind at 1. unfold M_bind, bind at 1, lift. rewrite Hrel, Het.
  rewrite bool_decide_eq_false_2 by done. rewrite bool_decide_eq_true_2 by done.
  unfold mbind, M_bind, bind, read, ret. cbn [fs]. by rewrite Hd.
Qed.

(** X5: an event of a type other than the four the handler knows
    ([opened] and [closed], say) is ignored. *)
Theorem other_event_ignored self ev w :
  event_type ev ≠ "created" → event_type ev ≠ "modified" →
  event_type ev ≠ "deleted" → event_type ev ≠ "moved" →
  src_path ev ≠ "" →
  on_any_event cwd now stdout self ev w = (w, Ok tt).
Proof.
  intros H1 H2 H3 H4 Hp.
  destruct (relpath_Ok (src_path ev) (self_src_path self) Hp) as [rel Hrel].
  unfold on_any_event, try_except, handle_event.
  unfold mbind at 1. unfold M_bind, bind at 1, lift. rewrite Hrel.
  by rewrite !bool_decide_eq_false_2.
Qed.

(** X6: a [deleted] event.  A directory at the mapped path goes with
    everything below it when the mapped path ends in a name.  When the
    mapped path ends in [.] or [..] (the event is for the watched root
    itself, or for a directory above it), [shutil.rmtree] empties the
    directory, [os.rmdir] refuses the path, and the directory stays, empty,
    with the error printed.  A file at the mapped path is removed; when
    there is nothing at the mapped path the handler does nothing and prints
    nothing.  The tree is as described whatever the standard output does;
    the log is, when the standard output takes the line. *)
Theorem deleted_event_is_mirrored self ev t lg p :
  event_type ev = "deleted" →
  map_path cwd (src_path ev) (self_src_path self) (self_dest_path self) = Ok p →
  let run := on_any_event cwd now stdout self ev (World t lg) in
  (∀ kd mt, namei cwd t p = Ok kd → t !! kd = Some (Dir mt) → last_name p = true →
     fs run.1 = prune kd t
     ∧ (∀ k : key, prune kd t !! k = if decide (kd `prefix_of` k) then None
                                     else t !! k)
     ∧ (stdout (Print ("Directory deleted: " +:+ p)) = None →
        run = (World (prune kd t)
                 (lg ++ [Completed (CallRmtree p);
                         Print ("Directory deleted: " +:+ p)]), Ok tt)))
  ∧ (∀ kd mt, namei cwd t p = Ok kd → t !! kd = Some (Dir mt) → last_name p = false →
       let emptied := <[kd := Dir mt]> (prune kd t) in
       ∃ e, fs run.1 = emptied
          ∧ (∀ k : key, emptied !! k
                        = if decide (k = kd) then Some (Dir mt)
                          else if decide (kd `prefix_of` k) then None else t !! k)
          ∧ (namei cwd emptied p = Ok kd → e = OSError)
          ∧ (stdout (PrintError "deleted" (src_path ev) e) = None →
             run = (World emptied
                      (lg ++ [Failed (CallRmtree p) e;
                              PrintError "deleted" (src_path ev) e]), Ok tt)))
  ∧ (∀ kd c m, namei cwd t p = Ok kd → t !! kd = Some (File c m) →
       fs run.1 = delete kd t
       ∧ (stdout (Print ("File deleted: " +:+ p)) = None →
          run = (World (delete kd t)
                   (lg ++ [Completed (CallRemove p);
                           Print ("File deleted: " +:+ p)]), Ok tt)))
  ∧ (path_exists cwd t p = false → run = (World t lg, Ok tt)).
Proof.
  intros Het Hmap run. unfold run.
  rewrite (on_deleted_event cwd now stdout self ev t lg p Het Hmap), Het.
  assert (∀ kd k : key, prune kd t !! k = if decide (kd `prefix_of` k) then None
                                          else t !! k) as Hprune.
  { intros kd k. case_decide.
    - by apply prune_lookup_under.
    - by apply prune_lookup_out. }
  split; [|split; [|split]].
  - intros kd mt Hkd Hn Hlast.
    rewrite (isdir_node cwd t p kd), Hn by done. cbn [is_dir_node].
    rewrite guarded_fs, guarded_run. cbn [fs log].
    unfold rmtree_tree. rewrite Hkd, Hn, Hlast.
    split; [done|]. split; [done|]. by intros ->.
  - intros kd mt Hkd Hn Hlast. cbv zeta.
    set (emptied := <[kd := Dir mt]> (prune kd t)).
    rewrite (isdir_node cwd t p kd), Hn by done. cbn [is_dir_node].
    rewrite guarded_fs, guarded_run. cbn [fs log].
    unfold rmtree_tree. rewrite Hkd, Hn, Hlast. cbv zeta. fold emptied.
    assert (∀ k : key, emptied !! k
                       = if decide (k = kd) then Some (Dir mt)
                         else if decide (kd `prefix_of` k) then None else t !! k)
      as Hlook.
    { intros k. unfold emptied. destruct (decide (k = kd)) as [->|Hne].
      - by rewrite lookup_insert_eq.
      - by rewrite lookup_insert_ne, Hprune. }
    pose proof (fuel_facts.namei_fuel cwd emptied p) as Hfuel.
    destruct (namei cwd emptied p) as [k1|e|]; [|clear Hfuel|done].
    + exists OSError. do 3 (split; [done|]). by intros ->.
    + exists e. do 2 (split; [done|]). split; [done|]. by intros ->.
  - intros kd c m Hkd Hn.
    rewrite (isdir_node cwd t p kd), Hn by done. cbn [is_dir_node].
    rewrite (path_exists_Some cwd t p kd) by (by rewrite ?Hn).
    rewrite guarded_fs, guarded_run. cbn [fs log].
    unfold remove_tree. rewrite Hkd, Hn.
    split; [done|]. by intros ->.
  - intros Hex. by rewrite isdir_false_of_missing, Hex.
Qed.

End EventTypes.

Lemma file_event_is_mirrored_witness :
  let self := Handler "/A" "/B" in
  let ev := Event "modified" "/A/notes/todo.txt" "" in
  let line := Print (copy_line (event_type ev) (src_path ev) "/B/notes/todo.txt") in
  (event_type ev = "created" ∨ event_type ev = "modified")
  ∧ fs (on_any_event "/" 100 stdout_open self ev (World tree_notes [])).1
    = <[["B"; "notes"; "todo.txt"] := File "new" 10]> tree_notes
  ∧ (stdout_open line = None →
     on_any_event "/" 100 stdout_open self ev (World tree_notes [])
     = (World (<[["B"; "notes"; "todo.txt"] := File "new" 10]> tree_notes)
          ([] ++ [Completed (CallCopy2 (src_path ev) "/B/notes/todo.txt"); line]),
        Ok tt)).
Proof.
  intros self ev line. split; [by right|].
  apply (file_event_is_mirrored "/" 100 stdout_open self ev tree_notes []
           "/B/notes/todo.txt"
           ["A"; "notes"; "todo.txt"] ["B"; "notes"; "todo.txt"] "new" 10);
    first [by right | reflexivity | discriminate].
Defined.

Lemma file_event_twice_witness :
  let self := Handler "/A" "/B" in
  let ev := Event "created" "/A/notes/todo.txt" "" in
  let w1 := (on_any_event "/" 100 stdout_closed self ev (World tree_notes [])).1 in
  (event_type ev = "created" ∨ event_type ev = "modified")
  ∧ fs (on_any_event "/" 100 stdout_closed self ev w1).1 = fs w1
  ∧ fs w1 !! ["B"; "notes"; "todo.txt"] = fs w1 !! ["A"; "notes"; "todo.txt"].
Proof.
  intros self ev w1. split; [by left|].
  apply (file_event_twice "/" 100 stdout_closed self ev tree_notes []
           "/B/notes/todo.txt"
           ["A"; "notes"; "todo.txt"] ["B"; "notes"; "todo.txt"] "new" 10);
    first [by left | reflexivity | discriminate].
Defined.

Lemma file_event_failure_witness :
  let self := Handler "/A" "/B" in
  let gone := Event "created" "/A/gone.txt" "" in
  let blocked := Event "created" "/A/d/f" "" in
  (path_exists "/" tree_notes "/A/gone.txt" = false
   ∧ ∃ e, fs (on_any_event "/" 100 stdout_open self gone (World tree_notes [])).1
          = tree_notes
        ∧ (stdout_open (PrintError "created" "/A/gone.txt" e) = None →
           on_any_event "/" 100 stdout_open self gone (World tree_notes [])
           = (World tree_notes
                ([] ++ [Failed (CallCopy2 "/A/gone.txt" "/B/gone.txt") e;
                        PrintError "created" "/A/gone.txt" e]), Ok tt)))
  ∧ (namei "/" tree_blocked "/B/d/f" = Raise NotADirectoryError
     ∧ fs (on_any_event "/" 100 stdout_open self blocked (World tree_blocked [])).1
       = tree_blocked
     ∧ (stdout_open (PrintError "created" "/A/d/f" NotADirectoryError) = None →
        on_any_event "/" 100 stdout_open self blocked (World tree_blocked [])
        = (World tree_blocked
             ([] ++ [Failed (CallCopy2 "/A/d/f" "/B/d/f") NotADirectoryError;
                     PrintError "created" "/A/d/f" NotADirectoryError]), Ok tt))).
Proof.
  intros self gone blocked. split; (split; [reflexivity|]).
  - apply (proj1 (file_event_failure "/" 100 stdout_open self gone
                    tree_notes [] "/B/gone.txt" (or_introl eq_refl) eq_refl)).
    reflexivity.
  - apply (proj2 (file_event_failure "/" 100 stdout_open self blocked
                    tree_blocked [] "/B/d/f" (or_introl eq_refl) eq_refl)
             ["A"; "d"; "f"] "x" 3); reflexivity.
Defined.

Lemma modified_directory_ignored_witness :
  let ev := Event "modified" "/A/notes" "" in
  isdir "/" tree_notes (src_path ev) = true
  ∧ on_any_event "/" 100 stdout_closed (Handler "/A" "/B") ev (World tree_notes [])
    = (World tree_notes [], Ok tt).
Proof.
  intros ev. split; [reflexivity|].
  apply (modified_directory_ignored "/" 100 stdout_closed); reflexivity.
Defined.

Lemma other_event_ignored_witness :
  let ev := Event "closed" "/A/notes/todo.txt" "" in
  on_any_event "/" 100 stdout_closed (Handler "/A" "/B") ev (World tree_notes [])
  = (World tree_notes [], Ok tt).
Proof.
  intros ev. apply (other_event_ignored "/" 100 stdout_closed); discriminate.
Defined.

Lemma deleted_event_is_mirrored_witness :
  let self := Handler "/A" "/B" in
  let run ev := on_any_event "/" 100 stdout_open self ev (World tree_notes []) in
  (last_name "/B/notes" = true
   ∧ run (Event "deleted" "/A/notes" "")
     = (World (prune ["B"; "notes"] tree_notes)
          ([] ++ [Completed (CallRmtree "/B/notes");
                  Print ("Directory deleted: " +:+ "/B/notes")]), Ok tt)
   ∧ prune ["B"; "notes"] tree_notes !! ["B"; "notes"; "todo.txt"] = None)
  ∧ (last_name "/B/." = false
     ∧ run (Event "deleted" "/A" "")
       = (World (<[["B"] := Dir 1]> (prune ["B"] tree_notes))
            ([] ++ [Failed (CallRmtree "/B/.") OSError;
                    PrintError "deleted" "/A" OSError]), Ok tt)
     ∧ <[["B"] := Dir 1]> (prune ["B"] tree_notes) !! ["B"] = Some (Dir 1)
     ∧ <[["B"] := Dir 1]> (prune ["B"] tree_notes) !! ["B"; "photo.png"] = None
     ∧ <[["B"] := Dir 1]> (prune ["B"] tree_notes) !! ["A"; "notes"] = Some (Dir 2))
  ∧ run (Event "deleted" "/A/photo.png" "")
    = (World (delete ["B"; "photo.png"] tree_notes)
         ([] ++ [Completed (CallRemove "/B/photo.png");
                 Print ("File deleted: " +:+ "/B/photo.png")]), Ok tt)
  ∧ run (Event "deleted" "/A/empty" "") = (World tree_notes [], Ok tt).
Proof.
  intros self run. split; [|split; [|split]].
  - destruct (proj1 (deleted_event_is_mirrored "/" 100 stdout_open self
                       (Event "deleted" "/A/notes" "") tree_notes [] "/B/notes"
                       eq_refl eq_refl) ["B"; "notes"] 2) as (_ & Hlook & Hrun);
      [reflexivity..|].
    split; [reflexivity|]. split; [exact (Hrun eq_refl)|]. rewrite Hlook. reflexivity.
  - destruct (proj1 (proj2 (deleted_event_is_mirrored "/" 100 stdout_open self
                       (Event "deleted" "/A" "") tree_notes [] "/B/."
                       eq_refl eq_refl)) ["B"] 1) as (e & _ & Hlook & He & Hrun);
      [reflexivity..|].
    assert (e = OSError) as -> by (apply He; by vm_compute).
    split; [reflexivity|]. split; [exact (Hrun eq_refl)|].
    repeat split; rewrite Hlook; reflexivity.
  - apply (proj1 (proj2 (proj2 (deleted_event_is_mirrored "/" 100 stdout_open self
                           (Event "deleted" "/A/photo.png" "") tree_notes []
                           "/B/photo.png" eq_refl eq_refl)))
             ["B"; "photo.png"] "img" 7); reflexivity.
  - apply (proj2 (proj2 (proj2 (deleted_event_is_mirrored "/" 100 stdout_open self
                           (Event "deleted" "/A/empty" "") tree_notes []
                           "/B/empty" eq_refl eq_refl)))); reflexivity.
Defined.

(** ** The scan: what else it leaves, and when it has nothing to do *)

Section ScanMore.
Import posixpath path_facts namei_facts call_facts pass_facts.
Variable cwd : string.
Variable now : Z.

(** X7: the second call of the scan at start-up (line 148) has nothing
    left to do: the start-up comes to the first call (line 147) alone. *)
Theorem second_scan_is_redundant fuel a b ka kb t lg :
  syncable cwd t fuel a b ka kb →
  startup_sync cwd now fuel a b (World t lg)
  = sync_folders_with_progress cwd now fuel a b (World t lg).
Proof.
  intros Hs. pose proof Hs as (Hcwd & _ & _ & _ & _ & _ & Hap & _).
  pose proof (syncable_sync _ _ _ _ _ _ _ Hs) as HS.
  destruct (sync_spec cwd Hcwd now fuel a b ka kb t Hap HS)
    as (t2 & HS2 & Hset & _ & _ & Hlog).
  destruct (sync_spec cwd Hcwd now fuel b a kb ka t2 (apart_sym _ _ Hap)
              (sync_flip cwd fuel _ _ _ _ _ HS2))
    as (t3 & _ & _ & _ & _ & Hlog3).
  destruct (Hlog lg) as (l & Hrun & _).
  destruct (Hlog3 (lg ++ l)) as (l3 & Hrun3 & Hq).
  destruct Hq as [-> ->].
  { intros x. by destruct (Hset x). }
  unfold startup_sync, mbind, M_bind, bind.
  by rewrite Hrun, Hrun3, List.app_nil_r.
Qed.

(** X8: the scan changes the two folders only, and leaves a tree that can
    be scanned again: well formed, the two folders directories, no file
    facing a directory. *)
Theorem scan_keeps_the_rest fuel a b ka kb t lg :
  syncable cwd t fuel a b ka kb →
  ∃ t' l,
    sync_folders_with_progress cwd now fuel a b (World t lg)
      = (World t' (lg ++ l), Ok tt)
    ∧ (∀ k : key, ¬ ka `prefix_of` k → ¬ kb `prefix_of` k → t' !! k = t !! k)
    ∧ wf_tree t'
    ∧ is_dir_node (t' !! ka) = true ∧ is_dir_node (t' !! kb) = true
    ∧ no_conflict t' ka kb.
Proof.
  intros Hs. pose proof Hs as (Hcwd & _ & _ & _ & _ & _ & Hap & _).
  pose proof (syncable_sync _ _ _ _ _ _ _ Hs) as HS.
  destruct (pass_spec cwd Hcwd now fuel a b ka kb t Hap HS)
    as (t1 & HS1 & Ht1 & Hlog1).
  destruct (pass_spec cwd Hcwd now fuel b a kb ka t1 (apart_sym _ _ Hap)
              (sync_flip cwd fuel _ _ _ _ _ HS1))
    as (t2 & HS2 & Ht2 & Hlog2).
  destruct (Hlog1 lg) as (l1 & Hrun1 & _).
  destruct (Hlog2 (lg ++ l1)) as (l2 & Hrun2 & _).
  exists t2, (l1 ++ l2). split.
  { unfold sync_folders_with_progress, mbind, M_bind, bind.
    by rewrite Hrun1, Hrun2, List.app_assoc. }
  split.
  { intros k Hka Hkb. rewrite Ht2. unfold pass_at. rewrite decide_False by done.
    rewrite Ht1. unfold pass_at. by rewrite decide_False. }
  destruct HS2 as (Hwf2 & _ & _ & Hdb & Hda & Hcomp & _).
  do 3 (split; [done|]).
  apply map_Forall_lookup_2. intros k n Hk [x ->].
  rewrite drop_app_length, <- Hk. by apply compatible_sym.
Qed.

(** X9: when neither folder is a directory (missing, or a file), the scan
    does nothing and returns: [os.walk] yields nothing for a directory it
    cannot list. *)
Theorem scan_without_folders fuel a b w :
  isdir cwd (fs w) a = false → isdir cwd (fs w) b = false →
  sync_folders_with_progress cwd now (S fuel) a b w = (w, Ok tt).
Proof.
  intros Ha Hb.
  assert (∀ p body, isdir cwd (fs w) p = false →
            walk_for cwd (S fuel) body p w = (w, Ok tt)) as Hwalk.
  { intros p body Hp. cbn [walk_for]. unfold scandir. unfold isdir, stat in Hp.
    pose proof (fuel_facts.namei_fuel cwd (fs w) p) as Hf.
    destruct (namei cwd (fs w) p) as [k|e|]; simpl in *; [|done..].
    by destruct (fs w !! k) as [[|]|]. }
  unfold sync_folders_with_progress, sync_pass, mbind, M_bind, bind.
  by rewrite !Hwalk.
Qed.

End ScanMore.

Lemma second_scan_is_redundant_witness :
  syncable "/" tree_notes 9 "/A" "/B" ["A"] ["B"]
  ∧ startup_sync "/" 100 9 "/A" "/B" (World tree_notes [])
    = sync_folders_with_progress "/" 100 9 "/A" "/B" (World tree_notes []).
Proof.
  assert (syncable "/" tree_notes 9 "/A" "/B" ["A"] ["B"]) as Hs.
  { apply (bool_decide_unpack _). by vm_compute. }
  split; [done|]. by apply (second_scan_is_redundant "/" 100 9 "/A" "/B" ["A"] ["B"]).
Defined.

Lemma scan_keeps_the_rest_witness :
  syncable "/" tree_notes 9 "/A" "/B" ["A"] ["B"]
  ∧ ∃ t' l,
      sync_folders_with_progress "/" 100 9 "/A" "/B" (World tree_notes [])
        = (World t' ([] ++ l), Ok tt)
      ∧ (∀ k : key, ¬ ["A"] `prefix_of` k → ¬ ["B"] `prefix_of` k →
           t' !! k = tree_notes !! k)
      ∧ wf_tree t'
      ∧ is_dir_node (t' !! ["A"]) = true ∧ is_dir_node (t' !! ["B"]) = true
      ∧ no_conflict t' ["A"] ["B"].
Proof.
  assert (syncable "/" tree_notes 9 "/A" "/B" ["A"] ["B"]) as Hs.
  { apply (bool_decide_unpack _). by vm_compute. }
  split; [done|]. by apply (scan_keeps_the_rest "/" 100 9 "/A" "/B" ["A"] ["B"]).
Defined.

Lemma scan_without_folders_witness :
  let w := World tree_notes [] in
  isdir "/" (fs w) "/C" = false ∧ isdir "/" (fs w) "/B/photo.png" = false
  ∧ sync_folders_with_progress "/" 100 1 "/C" "/B/photo.png" w = (w, Ok tt).
Proof.
  intros w. split; [reflexivity|]. split; [reflexivity|].
  apply (scan_without_folders "/" 100 0); reflexivity.
Defined.

(** ** [os.makedirs] on a mapped path: the whole chain of directories *)

Module makedirs_facts.
Import posixpath path_facts namei_facts split_facts tree_facts call_facts
       mirror_paths frame_facts.

Section Chain.
Variable cwd : string.
Hypothesis cwd_abs : isabs cwd = true.
Variable now : Z.
Variable M : string.
Variable kM : key.

(** [t'] is [t] with the missing directories from [kM] down to
    [kM ++ ns] made. *)
Let chain (ns : list string) (t t' : tree) : Prop :=
  (∀ p, p `prefix_of` ns → is_dir_node (t' !! (kM ++ p)) = true)
  ∧ (∀ k : key, is_Some (t !! k) → t' !! k = t !! k)
  ∧ (∀ k : key, t !! k = None → is_Some (t' !! k) →
       t' !! k = Some (Dir now) ∧ ∃ p, p `prefix_of` ns ∧ k = kM ++ p).

Lemma do_mkdir_true t name k :
  namei cwd t name = Ok k → is_file_node (t !! k) = false →
  match mkdir cwd now t name with
  | Ok t2 => (t2, Ok tt)
  | Raise e =>
      if false || negb (isdir cwd t name) then (t, Raise e) else (t, Ok tt)
  | OutOfFuel => (t, OutOfFuel)
  end = (match t !! k with None => <[k := Dir now]> t | Some _ => t end, Ok tt).
Proof.
  intros Hk Hnf. unfold mkdir. rewrite Hk. simpl.
  rewrite (isdir_node cwd t name k Hk).
  by destruct (t !! k) as [[|]|].
Qed.

Lemma chain_last t ns c :
  is_dir_node (t !! kM) = true →
  (∀ p, p `prefix_of` ns → is_dir_node (t !! (kM ++ p)) = true) →
  is_file_node (t !! (kM ++ ns ++ [c])) = false →
  chain (ns ++ [c]) t
    (match t !! (kM ++ ns ++ [c]) with
     | None => <[kM ++ ns ++ [c] := Dir now]> t
     | Some _ => t
     end).
Proof.
  intros HM Hpre Hnf. split; [|split].
  - intros p Hp. destruct (decide (p = ns ++ [c])) as [->|Hne].
    + destruct (t !! (kM ++ ns ++ [c])) as [[|]|] eqn:Hn; [done|by rewrite Hn|].
      by rewrite lookup_insert_eq.
    + assert (p `prefix_of` ns) as Hp'.
      { destruct Hp as [y Hy]. destruct y as [|d y _] using rev_ind.
        - rewrite List.app_nil_r in Hy. congruence.
        - rewrite List.app_assoc in Hy. apply app_inj_tail in Hy as [-> _].
          by apply prefix_app_r. }
      specialize (Hpre p Hp').
      destruct (t !! (kM ++ ns ++ [c])) as [n|] eqn:Hn; [done|].
      rewrite lookup_insert_ne; [done|]. intros Heq. by rewrite <- Heq, Hn in Hpre.
  - intros k [n Hk]. destruct (t !! (kM ++ ns ++ [c])) as [n'|] eqn:Hn; [done|].
    rewrite lookup_insert_ne; [done|]. intros <-. congruence.
  - intros k Hk Hsome. destruct (t !! (kM ++ ns ++ [c])) as [n'|] eqn:Hn.
    { rewrite Hk in Hsome. by destruct Hsome. }
    destruct (decide (k = kM ++ ns ++ [c])) as [->|Hne].
    + rewrite lookup_insert_eq. split; [done|]. by exists (ns ++ [c]).
    + rewrite lookup_insert_ne, Hk in Hsome by done. by destruct Hsome.
Qed.

Lemma chain_trans t t1 t2 ns c :
  chain ns t t1 → chain (ns ++ [c]) t1 t2 → chain (ns ++ [c]) t t2.
Proof.
  intros (H1i & H1k & H1n) (H2i & H2k & H2n). split; [done|]. split.
  - intros k Hk. rewrite H2k; [by apply H1k|]. by rewrite H1k.
  - intros k Hk Hsome. destruct (t1 !! k) as [n|] eqn:Hk1.
    + rewrite H2k, Hk1 by (by rewrite Hk1).
      destruct (H1n k Hk) as (Hd & p & Hp & ->); [by rewrite Hk1|].
      split; [congruence|]. exists p. split; [|done]. by apply prefix_app_r.
    + by apply H2n.
Qed.

Lemma mapped_key t ns :
  namei cwd t M = Ok kM → Forall proper_name ns →
  abs_list cwd (join M (rel_of ns)) = kM ++ ns.
Proof.
  intros HM Hns. rewrite abs_list_join_rel by done.
  by destruct (namei_abs_list cwd cwd_abs t M kM HM) as [-> _].
Qed.

(** [os.makedirs(name, exist_ok=True)] for a mapped path with no file in
    the way: every missing directory down to the path is made, and
    nothing else changes. *)
Lemma makedirs_chain t ns :
  wf_tree t → namei cwd t M = Ok kM → is_dir_node (t !! kM) = true →
  Forall proper_name ns →
  (∀ p, p `prefix_of` ns → is_file_node (t !! (kM ++ p)) = false) →
  ∀ fuel,
    (makedirs_go cwd now fuel true t (join M (rel_of ns))).2 = OutOfFuel
    ∨ ∃ t', makedirs_go cwd now fuel true t (join M (rel_of ns)) = (t', Ok tt)
            ∧ chain ns t t'.
Proof.
  intros Hwf HM HdM.
  induction ns as [|c ns IH] using rev_ind; intros Hns Hnf fuel.
  - destruct fuel as [|fuel]; [by left|]. right.
    rewrite (makedirs_go_direct cwd now fuel true t (join M (rel_of [])) kM);
      [|apply dot_split_tail|by apply namei_join_dot].
    cbn [negb]. rewrite (do_mkdir_true t _ kM);
      [|by apply namei_join_dot|by destruct (t !! kM) as [[|]|]].
    destruct (t !! kM) as [n|] eqn:Hn; [|done].
    eexists. split; [done|]. split; [|split].
    + intros p Hp%prefix_nil_inv. subst. by rewrite List.app_nil_r, Hn.
    + done.
    + intros k Hk Hsome. rewrite Hk in Hsome. by destruct Hsome.
  - apply Forall_app in Hns as [Hns Hc]. rewrite Forall_singleton in Hc.
    assert (∀ p, p `prefix_of` ns → is_file_node (t !! (kM ++ p)) = false) as Hnf'.
    { intros p Hp. apply Hnf. by apply prefix_app_r. }
    specialize (IH Hns Hnf').
    pose proof (Hnf (ns ++ [c]) ltac:(done)) as Hnfc.
    destruct fuel as [|fuel]; [by left|].
    destruct ns as [|a ns].
    { right. simpl app in *. change (rel_of [c]) with c.
      rewrite (makedirs_go_direct cwd now fuel true t (join M c) (kM ++ [c]));
        [|by apply proper_split_tail|by apply namei_join_name].
      cbn [negb]. rewrite (do_mkdir_true t _ (kM ++ [c])); [|by apply namei_join_name|done].
      eexists. split; [done|].
      apply (chain_last t [] c); [done| |done].
      intros p Hp%prefix_nil_inv. subst. by rewrite List.app_nil_r. }
    change (rel_of ((a :: ns) ++ [c])) with (join_sep ((a :: ns) ++ [c])) in *.
    change (rel_of (a :: ns)) with (join_sep (a :: ns)) in IH.
    cbn [makedirs_go]. rewrite split_mapped by done.
    pose proof Hc as (Hne%nonempty_true & Hdot & _).
    rewrite Hne. cbn [negb]. cbv iota beta.
    set (head := join M (join_sep (a :: ns))) in *.
    set (name := join M (join_sep ((a :: ns) ++ [c]))) in *.
    assert (nonempty head = true) as ->.
    { apply nonempty_true, join_nonempty. by apply join_sep_proper_nonempty. }
    cbn [andb]. rewrite ?Hne. cbn [andb].
    destruct (path_exists cwd t head) eqn:Hex; cbn [andb negb].
    + right. apply (path_exists_inv cwd) in Hex as (k' & Hk' & Hsome).
      assert (k' = kM ++ a :: ns) as ->.
      { destruct (namei_abs_list cwd cwd_abs t head k' Hk') as [<- _].
        by apply (mapped_key t (a :: ns)). }
      assert (∀ p, p `prefix_of` a :: ns → is_dir_node (t !! (kM ++ p)) = true)
        as Hpre.
      { intros p [y Hy]. destruct y as [|d y].
        - rewrite List.app_nil_r in Hy. subst p.
          specialize (Hnf' (a :: ns) ltac:(done)).
          destruct Hsome as [[|] Hn]; by rewrite Hn in *.
        - apply (wf_prefix_dir t (kM ++ p) (d :: y)); [done| |done].
          by rewrite <- List.app_assoc, <- Hy. }
      assert (namei cwd t name = Ok (kM ++ (a :: ns) ++ [c])) as Hname.
      { apply (namei_join_rel cwd cwd_abs t M kM ((a :: ns) ++ [c])); try done.
        - apply Forall_app. by rewrite Forall_singleton.
        - intros r' [y Hy] Hr'. apply Hpre.
          destruct y as [|d y _] using rev_ind.
          + rewrite List.app_nil_r in Hy. congruence.
          + rewrite List.app_assoc in Hy. apply app_inj_tail in Hy as [-> _].
            by apply prefix_app_r. }
      rewrite (do_mkdir_true t name _ Hname) by done.
      eexists. split; [done|]. by apply chain_last.
    + destruct (IH fuel) as [Hout|(t1 & Hrun & Hch)].
      { left. destruct (makedirs_go cwd now fuel true t head) as [t1 r].
        simpl in Hout. by subst r. }
      right. rewrite Hrun. rewrite bool_decide_eq_false_2 by done.
      pose proof Hch as (H1i & H1k & H1n).
      assert (namei cwd t1 M = Ok kM) as HM1.
      { eapply namei_mono; [|exact HM]. intros k0 Hk0.
        rewrite H1k; [done|]. by destruct (t !! k0). }
      assert (is_dir_node (t1 !! kM) = true) as HdM1.
      { rewrite H1k; [done|]. by destruct (t !! kM). }
      assert (namei cwd t1 name = Ok (kM ++ (a :: ns) ++ [c])) as Hname.
      { apply (namei_join_rel cwd cwd_abs t1 M kM ((a :: ns) ++ [c])); try done.
        - apply Forall_app. by rewrite Forall_singleton.
        - intros r' [y Hy] Hr'. apply H1i.
          destruct y as [|d y _] using rev_ind.
          + rewrite List.app_nil_r in Hy. congruence.
          + rewrite List.app_assoc in Hy. apply app_inj_tail in Hy as [-> _].
            by apply prefix_app_r. }
      assert (is_file_node (t1 !! (kM ++ (a :: ns) ++ [c])) = false) as Hnf1.
      { destruct (t !! (kM ++ (a :: ns) ++ [c])) as [n|] eqn:Hn.
        - rewrite H1k by (by rewrite Hn). by rewrite Hn.
        - destruct (t1 !! (kM ++ (a :: ns) ++ [c])) as [n1|] eqn:Hn1; [|done].
          destruct (H1n _ Hn) as [Hd _]; [by rewrite Hn1|]. by simplify_eq. }
      rewrite (do_mkdir_true t1 name _ Hname) by done.
      eexists. split; [done|].
      eapply chain_trans; [exact Hch|].
      by apply chain_last.
Qed.

End Chain.
End makedirs_facts.

Section DirectoryEvent.
Import posixpath path_facts namei_facts tree_facts call_facts guard_facts
       event_facts makedirs_facts.
Variable cwd : string.
Variable now : Z.
Variable stdout : entry → option exn.

(** X10: a [created] event for a directory makes, with the directory at
    the mapped path, every directory of the mirror that is missing above
    it, and changes nothing that was there ([exist_ok=True]: when the
    directory is there already the tree stays as it is), whatever the
    standard output does; the call and the line are in the log when the
    standard output takes the line. *)
Theorem directory_event_makes_the_chain self ev t lg kM ns :
  isabs cwd = true → wf_tree t →
  event_type ev = "created" → isdir cwd t (src_path ev) = true →
  namei cwd t (self_dest_path self) = Ok kM → is_dir_node (t !! kM) = true →
  abs_list cwd (src_path ev) = abs_list cwd (self_src_path self) ++ ns →
  (∀ q, q `prefix_of` ns → is_file_node (t !! (kM ++ q)) = false) →
  let p := join (self_dest_path self) (rel_of ns) in
  let line := Print ("Directory created: " +:+ src_path ev +:+ " -> " +:+ p) in
  ∃ t', fs (on_any_event cwd now stdout self ev (World t lg)).1 = t'
      ∧ (∀ q, q `prefix_of` ns → is_dir_node (t' !! (kM ++ q)) = true)
      ∧ (∀ k : key, is_Some (t !! k) → t' !! k = t !! k)
      ∧ (∀ k : key, t !! k = None → is_Some (t' !! k) →
           t' !! k = Some (Dir now) ∧ ∃ q, q `prefix_of` ns ∧ k = kM ++ q)
      ∧ (is_dir_node (t !! (kM ++ ns)) = true → t' = t)
      ∧ (stdout line = None →
         on_any_event cwd now stdout self ev (World t lg)
         = (World t' (lg ++ [Completed (CallMakedirs p); line]), Ok tt)).
Proof.
  intros Hcwd Hwf Het Hd HM HdM Hns Hnf p line.
  assert (src_path ev ≠ "") as Hsrc.
  { intros Hp. rewrite Hp in Hd. done. }
  assert (Forall proper_name ns) as Hpns.
  { pose proof (abs_list_proper cwd (src_path ev) Hcwd) as H. rewrite Hns in H.
    by apply Forall_app in H as [_ ?]. }
  destruct (map_path_below cwd (src_path ev) (self_src_path self)
              (self_dest_path self) ns Hcwd Hsrc Hns) as [Hmap _].
  rewrite (on_mkdir_event cwd now stdout self ev t lg p Het Hmap Hd).
  rewrite guarded_fs, guarded_run. cbn [fs log].
  pose proof (fuel_facts.makedirs_tree_fuel cwd now true t p) as Hfuel.
  unfold makedirs_tree in *.
  destruct (makedirs_chain cwd Hcwd now (self_dest_path self) kM t ns
              Hwf HM HdM Hpns Hnf (S (String.length p)))
    as [Hout|(t' & Hrun & Hi & Hk & Hn)]; [done|].
  fold p in Hrun. rewrite Hrun. exists t'. do 4 (split; [done|]).
  split; [|fold line; by intros ->].
  intros Hthere. apply map_eq. intros k.
  destruct (t !! k) as [n|] eqn:Hk0; [by rewrite Hk, Hk0 by (by rewrite Hk0)|].
  destruct (t' !! k) as [n'|] eqn:Hk1; [|done].
  destruct (Hn k Hk0) as (_ & q & [y Hy] & ->); [by rewrite Hk1|].
  assert (is_dir_node (t !! (kM ++ q)) = true) as Hq; [|by rewrite Hk0 in Hq].
  destruct y as [|d y].
  - rewrite List.app_nil_r in Hy. by subst q.
  - apply (wf_prefix_dir t (kM ++ q) (d :: y)); [done| |done].
    rewrite <- List.app_assoc, <- Hy. by destruct (t !! (kM ++ ns)).
Qed.

End DirectoryEvent.

Lemma directory_event_makes_the_chain_witness :
  let self := Handler "/A" "/B" in
  let ev := Event "created" "/A/x/y" "" in
  (posixpath.isabs "/" = true ∧ wf_tree tree_deep
   ∧ isdir "/" tree_deep (src_path ev) = true
   ∧ posixpath.abs_list "/" (src_path ev)
     = posixpath.abs_list "/" (self_src_path self) ++ ["x"; "y"])
  ∧ ∃ t', fs (on_any_event "/" 100 stdout_open self ev (World tree_deep [])).1 = t'
        ∧ (∀ q, q `prefix_of` ["x"; "y"] → is_dir_node (t' !! (["B"] ++ q)) = true)
        ∧ (∀ k : key, is_Some (tree_deep !! k) → t' !! k = tree_deep !! k)
        ∧ (∀ k : key, tree_deep !! k = None → is_Some (t' !! k) →
             t' !! k = Some (Dir 100)
             ∧ ∃ q, q `prefix_of` ["x"; "y"] ∧ k = ["B"] ++ q)
        ∧ (is_dir_node (tree_deep !! (["B"] ++ ["x"; "y"])) = true → t' = tree_deep)
        ∧ (stdout_open (Print ("Directory created: " +:+ src_path ev
                               +:+ " -> " +:+ "/B/x/y")) = None →
           on_any_event "/" 100 stdout_open self ev (World tree_deep [])
           = (World t' ([] ++ [Completed (CallMakedirs "/B/x/y");
                               Print ("Directory created: " +:+ src_path ev
                                      +:+ " -> " +:+ "/B/x/y")]), Ok tt)).
Proof.
  intros self ev.
  assert (wf_tree tree_deep) as Hwf by (apply (bool_decide_unpack _); by vm_compute).
  split; [split; [reflexivity|split; [exact Hwf|split; reflexivity]]|].
  apply (directory_event_makes_the_chain "/" 100 stdout_open self ev tree_deep []
           ["B"] ["x"; "y"]);
    try reflexivity; try exact Hwf.
  intros q [y Hy]. destruct q as [|a [|b [|c q]]]; simplify_eq/=; reflexivity.
Defined.

(** ** Where a mapped path lies *)

Module landing_facts.
Import posixpath path_facts frame_facts.

Lemma join_all_names a ns :
  a ≠ "" → endswith_sep a = false →
  Forall (λ c, c ≠ "" ∧ has_sep c = false) ns →
  join_all a ns = join_sep (a :: ns).
Proof.
  unfold join_all. revert a. induction ns as [|c ns IH]; intros a Ha He Hns; [done|].
  inversion Hns as [|?? [Hc Hs] Hns']; subst. cbn [fold_left].
  rewrite join_plain by auto using no_sep_not_abs.
  rewrite IH; [| |rewrite <- str_app_assoc, endswith_sep_app_r by done;
                  by apply no_sep_endswith|done].
  - destruct ns as [|d ns].
    + by rewrite (join_sep_cons a [c]).
    + rewrite (join_sep_cons _ (d :: ns)), (join_sep_cons a (c :: d :: ns)) by done.
      rewrite (join_sep_cons c (d :: ns)) by done. by rewrite !str_app_assoc.
  - by destruct a.
Qed.

Lemma removelast_take {A} (l : list A) : removelast l = take (List.length l - 1) l.
Proof.
  induction l as [|x l IH]; [done|]. destruct l as [|y l]; [done|].
  change (removelast (x :: y :: l)) with (x :: removelast (y :: l)).
  rewrite IH. simpl. by rewrite Nat.sub_0_r.
Qed.

Lemma norm_fold_dotdots n acc :
  Forall proper_name acc →
  fold_left (norm_step 1) (repeat ".." n) acc = take (List.length acc - n) acc.
Proof.
  revert acc. induction n as [|n IH]; intros acc Hacc.
  - simpl. by rewrite Nat.sub_0_r, firstn_all.
  - cbn [repeat fold_left].
    assert (norm_step 1 acc ".." = removelast acc) as ->.
    { unfold norm_step. change (is_skipped "..") with false.
      change (is_dotdot "..") with true. cbn [negb orb].
      rewrite (bool_decide_eq_false_2 (1 = 0)%nat) by done. cbn [andb orb].
      by rewrite proper_last_not_dotdot, andb_false_r. }
    rewrite IH by (by apply Forall_removelast).
    rewrite removelast_take, length_take, take_take. f_equal. lia.
Qed.

Lemma common_len_take (l1 l2 : list string) :
  take (common_len l1 l2) l1 = take (common_len l1 l2) l2.
Proof.
  revert l2. induction l1 as [|x l1 IH]; intros [|y l2]; try done.
  simpl. case_bool_decide; [|done]. subst. simpl. by rewrite IH.
Qed.

End landing_facts.

Section Landing.
Import posixpath path_facts frame_facts landing_facts.

(** X11: where [os.path.join(to_root, os.path.relpath(path, from_root))]
    lies, for every non-empty path: the components of [to_root] less as
    many as [path] climbs out of [from_root], then what [path] has after
    the components it shares with [from_root].  Mapped onto the root it
    was taken from, a path comes back to its own place. *)
Theorem map_path_lands cwd path from_root to_root :
  isabs cwd = true → path ≠ "" →
  let l1 := abs_list cwd from_root in
  let l2 := abs_list cwd to_root in
  let pl := abs_list cwd path in
  let i := common_len l1 pl in
  ∃ q, map_path cwd path from_root to_root = Ok q
       ∧ abs_list cwd q
         = take (List.length l2 - (List.length l1 - i)) l2 ++ drop i pl
       ∧ (l2 = l1 → abs_list cwd q = pl).
Proof.
  intros Hcwd Hp l1 l2 pl i.
  assert (Forall proper_name pl) as Hpl by (by apply abs_list_proper).
  assert (Forall proper_name l2) as Hl2 by (by apply abs_list_proper).
  set (n := (List.length l1 - i)%nat).
  assert (∀ q, abs_list cwd q = take (List.length l2 - n) l2 ++ drop i pl →
               l2 = l1 → abs_list cwd q = pl) as Hsame.
  { intros q -> Heq. rewrite Heq.
    pose proof (common_len_le l1 pl) as Hle. fold i in Hle.
    replace (List.length l1 - n)%nat with i by (unfold n; lia).
    unfold i. rewrite common_len_take. apply take_drop. }
  unfold map_path, relpath. apply nonempty_true in Hp. rewrite Hp.
  cbn [negb]. cbv iota zeta. fold l1 pl i n.
  destruct (repeat ".." n ++ drop i pl) as [|a rest] eqn:Hrl.
  - apply app_eq_nil in Hrl as [Hn Hd].
    assert (n = 0%nat) as Hn0 by (by destruct n).
    eexists. split; [done|].
    assert (abs_list cwd (join to_root ".")
            = take (List.length l2 - n) l2 ++ drop i pl) as Hq.
    { rewrite abs_list_join_dot by done. fold l2.
      by rewrite Hd, Hn0, Nat.sub_0_r, firstn_all, List.app_nil_r. }
    split; [exact Hq|]. by apply Hsame.
  - assert (Forall (λ c, c ≠ "" ∧ has_sep c = false) (a :: rest)) as Hnames.
    { rewrite <- Hrl. apply Forall_app. split.
      - apply Forall_forall. intros c Hc%list_elem_of_In%repeat_spec. by subst.
      - apply Forall_drop. eapply Forall_impl; [exact Hpl|].
        by intros c (? & _ & _ & ?). }
    inversion Hnames as [|?? [Ha Hs] Hrest]; subst.
    rewrite join_all_names by auto using no_sep_endswith.
    eexists. split; [done|].
    assert (abs_list cwd (join to_root (join_sep (a :: rest)))
            = take (List.length l2 - n) l2 ++ drop i pl) as Hq.
    { rewrite abs_list_join; [|done|].
      - rewrite split_sep_join_sep;
          [|done|eapply Forall_impl; [exact Hnames|by intros c [_ ?]]].
        rewrite <- Hrl, fold_left_app. fold l2.
        rewrite norm_fold_dotdots by done.
        rewrite norm_fold_proper by (by apply Forall_drop). done.
      - destruct rest; [by apply no_sep_not_abs|].
        rewrite join_sep_cons by done. rewrite isabs_app by done.
        by apply no_sep_not_abs. }
    split; [exact Hq|]. by apply Hsame.
Qed.

End Landing.

Lemma map_path_lands_witness :
  posixpath.isabs "/" = true ∧ ("/srv/c/f" : string) ≠ ""
  ∧ ∃ q, map_path "/" "/srv/c/f" "/srv/a/x" "/mnt/b/y" = Ok q
         ∧ posixpath.abs_list "/" q = ["mnt"; "c"; "f"]
         ∧ (posixpath.abs_list "/" "/mnt/b/y" = posixpath.abs_list "/" "/srv/a/x" →
            posixpath.abs_list "/" q = posixpath.abs_list "/" "/srv/c/f").
Proof.
  split; [reflexivity|]. split; [discriminate|].
  apply (map_path_lands "/" "/srv/c/f" "/srv/a/x" "/mnt/b/y"); [reflexivity|discriminate].
Defined.

(** ** A scan into a folder that is not there yet *)

Module first_run.
Import posixpath path_facts namei_facts split_facts tree_facts call_facts
       mirror_paths frame_facts pass_facts.

Section Root.
Variable cwd : string.
Hypothesis cwd_abs : isabs cwd = true.
Variable now : Z.

(** A path written with a slash at its end names a directory. *)
Lemma namei_trailing_sep t p k :
  endswith_sep p = true → namei cwd t p = Ok k → is_dir_node (t !! k) = true.
Proof.
  intros He Hk. pose proof (namei_nonempty cwd t p k Hk) as Hne.
  rewrite namei_unfold in Hk by done.
  apply endswith_sep_app in He as [p' ->].
  assert (∃ f, full_path cwd (p' +:+ "/") = f +:+ "/") as [f Hf].
  { destruct p' as [|c p']; [by exists ""|].
    exists (full_path cwd (String c p')). by apply full_path_app. }
  rewrite Hf, split_sep_snoc_sep, fold_left_app in Hk. cbn [fold_left] in Hk.
  by apply namei_step_Ok in Hk as (k0 & _ & Hd & ->).
Qed.

(** The last step to a path that does not exist goes down from an
    existing directory. *)
Lemma namei_fresh_parent t p k :
  wf_tree t → namei cwd t p = Ok k → t !! k = None →
  ∃ kp c, k = kp ++ [c] ∧ is_dir_node (t !! kp) = true ∧ proper_name c.
Proof.
  intros Hwf Hk Hnone. pose proof (namei_nonempty cwd t p k Hk) as Hne.
  destruct (namei_abs_list cwd cwd_abs t p k Hk) as [_ Hprop].
  rewrite namei_unfold in Hk by done.
  destruct (split_sep (full_path cwd p)) as [|c l _] using rev_ind.
  { simpl in Hk. injection Hk as <-. pose proof (wf_root t Hwf) as Hr.
    by rewrite Hnone in Hr. }
  rewrite fold_left_app in Hk. cbn [fold_left] in Hk.
  apply namei_step_Ok in Hk as (k0 & _ & Hd & Hk).
  destruct (is_skipped c); [subst; by rewrite Hnone in Hd|].
  destruct (is_dotdot c).
  - subst k. assert (is_dir_node (t !! removelast k0) = true) as Hp.
    { apply wf_parent_dir; [done|]. by destruct (t !! k0). }
    by rewrite Hnone in Hp.
  - exists k0, c. split; [done|]. split; [done|].
    subst k. apply Forall_app in Hprop as [_ Hc]. by rewrite Forall_singleton in Hc.
Qed.

Lemma all_sep_endswith s : s ≠ "" → all_sep s = true → endswith_sep s = true.
Proof.
  induction s as [|c s IH]; [done|]. intros _ [Hc Hs]%andb_true_iff.
  destruct s as [|d s]; [done|]. by apply IH.
Qed.

(** [os.makedirs(dest + "/.")] when [dest] is missing in an existing
    directory makes [dest]. *)
Lemma makedirs_root t dest kd :
  wf_tree t → namei cwd t dest = Ok kd → t !! kd = None →
  makedirs_tree cwd now false t (join dest ".") = (<[kd := Dir now]> t, Ok tt).
Proof.
  intros Hwf Hkd Hnone. pose proof (namei_nonempty cwd t dest kd Hkd) as Hne.
  assert (endswith_sep dest = false) as He.
  { destruct (endswith_sep dest) eqn:He; [|done].
    apply (namei_trailing_sep t dest kd) in He; [|done]. by rewrite Hnone in He. }
  assert (join dest "." = dest +:+ "/" +:+ ".") as Hname by (by apply join_plain).
  assert (split (join dest ".") = (dest, ".")) as Hsplit.
  { rewrite Hname. unfold split. rewrite rfind_split_snoc by done.
    assert (nonempty (dest +:+ "/") = true) as -> by (by destruct dest).
    assert (all_sep (dest +:+ "/") = false) as ->.
    { rewrite all_sep_app. destruct (all_sep dest) eqn:Ha; [|done].
      apply all_sep_endswith in Ha; [congruence|done]. }
    simpl. by rewrite rstrip_sep_snoc, rstrip_sep_noop. }
  unfold makedirs_tree.
  destruct (String.length (join dest ".")) as [|fuel] eqn:Hlen.
  { rewrite Hname in Hlen. by destruct dest. }
  remember (S fuel) as inner eqn:Hinner.
  cbn [makedirs_go]. rewrite Hsplit. cbn [nonempty negb]. cbv iota beta.
  apply nonempty_true in Hne as Hne'. rewrite Hne'.
  rewrite (path_exists_None cwd t dest kd) by done. cbn [andb negb].
  subst inner.
  rewrite (makedirs_go_direct cwd now fuel false t dest kd);
    [|by apply basename_nonempty|done].
  unfold mkdir. rewrite Hkd. simpl. by rewrite Hnone.
Qed.

End Root.

Section Rest.
Variable cwd : string.
Hypothesis cwd_abs : isabs cwd = true.
Variable now : Z.
Variables src dest : string.
Variables ks kd : key.
Hypothesis Hapart : apart ks kd.
Variable t0 : tree.

Let Inv (t : tree) : Prop :=
  namei cwd t src = Ok ks ∧ namei cwd t dest = Ok kd
  ∧ is_dir_node (t !! kd) = true
  ∧ ∀ x, compatible (t !! (ks ++ x)) (t !! (kd ++ x)).
Let Post (C : key → Prop) (t t' : tree) : Prop :=
  (∀ k, C k → t' !! k = pass_at now t ks kd k)
  ∧ (∀ k, ¬ C k → t' !! k = t !! k).
Let Step (C : key → Prop) (m : M unit) (t : tree) (t' : tree) : Prop :=
  wf_tree t' ∧ Post C t t'
  ∧ ∀ lg, ∃ l, m (World t lg) = (World t' (lg ++ l), Ok tt)
              ∧ ((∀ k, C k → pass_at now t ks kd k = t !! k) → l = []).
Let Ready (r : key) (top : string) (t : tree) : Prop :=
  wf_tree t ∧ Inv t
  ∧ (∀ x, t !! (ks ++ x) = t0 !! (ks ++ x))
  ∧ namei cwd t top = Ok (ks ++ r)
  ∧ (∀ r', r' `prefix_of` r → r' ≠ r → is_dir_node (t !! (kd ++ r')) = true).
Let Open (r : key) (top : string) (t : tree) : Prop :=
  Ready r top t ∧ is_dir_node (t !! (kd ++ r)) = true.

(** The walk at a directory whose destination directory is there: the
    files of the directory, then the walks of its directories. *)
Lemma step_rest fuel r top t dirs files :
  Open r top t →
  NoDup dirs → NoDup files →
  (∀ d, d ∈ dirs ↔ is_dir_node (t0 !! (ks ++ r ++ [d])) = true) →
  (∀ f, f ∈ files ↔ is_file_node (t0 !! (ks ++ r ++ [f])) = true) →
  (∀ x, is_Some (t0 !! (ks ++ r ++ x)) → (List.length x < S fuel)%nat) →
  ∃ t', Step (λ k, (kd ++ r) `prefix_of` k)
             (for_each files (sync_file cwd top (join dest (rel_of r)));;
              for_each dirs (λ d,
                walk_for cwd fuel
                  (λ src_dir _ files, sync_dir cwd now src dest src_dir files)
                  (join top d)))
             t t'.
Proof.
  intros HO Hnd_d Hnd_f Hdirs Hfiles Hdepth.
  pose proof HO as [(Hwf & HI & Hsrc & Htop & Hpre) Hkdr].
  destruct (step_files cwd cwd_abs now src dest ks kd Hapart t0 r top t files
              Hnd_f) as (t1 & HS1 & HO1); [intros f; apply Hfiles|exact HO|].
  destruct (step_for_each cwd now src dest ks kd Hapart dirs
              (λ d, walk_for cwd fuel
                      (λ src_dir _ files, sync_dir cwd now src dest src_dir files)
                      (join top d))
              (λ d k, (kd ++ r ++ [d]) `prefix_of` k) (Open r top) t1)
    as (t2 & HS2 & HO2); try done.
  - intros d k. apply under_child_dest.
  - intros d d' k. apply child_regions_apart.
  - intros d t' t'' HO' HS.
    eapply (open_stable cwd now src dest ks kd Hapart t0); [| |exact HO'|exact HS].
    + intros k. apply under_child_dest.
    + intros k. destruct (decide ((kd ++ r ++ [d]) `prefix_of` k)); auto.
  - intros d t' Hd%Hdirs HO'.
    apply (step_walk cwd cwd_abs now src dest ks kd Hapart t0 fuel
             (r ++ [d]) (join top d) t').
    + by apply (ready_child cwd cwd_abs src dest ks kd t0 r top t' d).
    + done.
    + intros x Hx. rewrite <- !List.app_assoc in Hx. simpl in Hx.
      specialize (Hdepth (d :: x) Hx). simpl in Hdepth. lia.
  - by destruct HS1.
  - exists t2.
    eapply (step_weaken now ks kd);
      [| |eapply (step_seq cwd now src dest ks kd Hapart); [| |exact HS1|exact HS2]].
    + intros k [(f & _ & ->)|(d & _ & Hk)].
      * rewrite List.app_assoc. by apply prefix_app_r.
      * etrans; [|exact Hk]. rewrite List.app_assoc. by apply prefix_app_r.
    + intros k [y ->]. rewrite <- List.app_assoc.
      destruct y as [|c y].
      { right. rewrite List.app_nil_r. split.
        - intros [(f & _ & Heq)|(d & _ & [z Hz])].
          + apply app_inv_head in Heq. apply (f_equal List.length) in Heq.
            rewrite length_app in Heq. simpl in Heq. lia.
          + rewrite <- !List.app_assoc in Hz. apply app_inv_head in Hz.
            apply (f_equal List.length) in Hz. rewrite !length_app in Hz.
            simpl in Hz. lia.
        - by apply pass_at_keeps_dir. }
      destruct (t0 !! (ks ++ r ++ [c])) as [[cc mm|mt]|] eqn:Hc.
      * destruct y as [|c' y].
        { left. left. exists c. split; [|done]. apply Hfiles. by rewrite Hc. }
        right. split.
        -- intros [(f & _ & Heq)|(d & Hd%Hdirs & Hk)].
           ++ do 2 apply app_inv_head in Heq. done.
           ++ destruct Hk as [z Hz]. rewrite <- !List.app_assoc in Hz.
              do 2 apply app_inv_head in Hz. injection Hz as -> _.
              by rewrite Hc in Hd.
        -- rewrite pass_at_under.
           replace (ks ++ r ++ c :: c' :: y) with ((ks ++ r ++ [c]) ++ c' :: y)
             by by rewrite <- !List.app_assoc.
           rewrite (wf_none_below t (ks ++ r ++ [c]) (c' :: y)), push_none;
             [done|done| |done].
           by rewrite Hsrc, Hc.
      * left. right. exists c. split; [apply Hdirs; by rewrite Hc|].
        exists y. by rewrite <- !List.app_assoc.
      * right. split.
        -- intros [(f & Hf%Hfiles & Heq)|(d & Hd%Hdirs & Hk)].
           ++ do 2 apply app_inv_head in Heq. injection Heq as -> _.
              by rewrite Hc in Hf.
           ++ destruct Hk as [z Hz]. rewrite <- !List.app_assoc in Hz.
              do 2 apply app_inv_head in Hz. injection Hz as -> _.
              by rewrite Hc in Hd.
        -- rewrite pass_at_under.
           assert (t !! (ks ++ r ++ c :: y) = None) as ->; [|by rewrite push_none].
           destruct y as [|c' y]; [by rewrite Hsrc|].
           replace (ks ++ r ++ c :: c' :: y) with ((ks ++ r ++ [c]) ++ c' :: y)
             by by rewrite <- !List.app_assoc.
           apply wf_none_below; [done| |done]. by rewrite Hsrc, Hc.
    + intros k (f & _ & ->). apply under_dest.
    + intros k (f & Hf%Hfiles & ->) (d & Hd%Hdirs & Hk).
      destruct Hk as [z Hz]. rewrite <- !List.app_assoc in Hz.
      do 2 apply app_inv_head in Hz. simpl in Hz. injection Hz as -> _.
      destruct (t0 !! (ks ++ r ++ [d])) as [[]|]; done.
Qed.

End Rest.

Section Missing.
Variable cwd : string.
Hypothesis cwd_abs : isabs cwd = true.
Variable now : Z.
Variables src dest : string.
Variables ks kd : key.
Hypothesis Hapart : apart ks kd.

(** Once the missing destination folder is made, the tree is one a pass
    can start in. *)
Lemma made_dest_open t :
  wf_tree t → namei cwd t src = Ok ks → is_dir_node (t !! ks) = true →
  namei cwd t dest = Ok kd → t !! kd = None →
  let t1 := <[kd := Dir now]> t in
  (∀ x, t1 !! (ks ++ x) = t !! (ks ++ x))
  ∧ (∀ x, x ≠ [] → t1 !! (kd ++ x) = None)
  ∧ t1 !! kd = Some (Dir now)
  ∧ wf_tree t1
  ∧ namei cwd t1 src = Ok ks ∧ namei cwd t1 dest = Ok kd
  ∧ ∀ x, compatible (t1 !! (ks ++ x)) (t1 !! (kd ++ x)).
Proof.
  intros Hwf Hks Hds Hkd Hnone t1.
  assert (∀ x, t1 !! (ks ++ x) = t !! (ks ++ x)) as Hsrc1.
  { intros x. unfold t1. rewrite lookup_insert_ne; [done|].
    intros Heq. destruct Hapart as [Hap _]. apply Hap. rewrite Heq.
    by apply prefix_app_r. }
  assert (∀ k0, is_dir_node (t !! k0) = true → is_dir_node (t1 !! k0) = true)
    as Hmono.
  { intros k0 Hk0. unfold t1. rewrite lookup_insert_ne; [done|].
    intros <-. by rewrite Hnone in Hk0. }
  assert (∀ x, x ≠ [] → t1 !! (kd ++ x) = None) as Hbelow.
  { intros x Hx. unfold t1. rewrite lookup_insert_ne.
    - apply wf_none_below; [done|by rewrite Hnone|done].
    - intros Heq. rewrite <- (List.app_nil_r kd) in Heq at 1.
      apply app_inv_head in Heq. congruence. }
  assert (t1 !! kd = Some (Dir now)) as Hkd1
    by (unfold t1; by rewrite lookup_insert_eq).
  do 3 (split; [done|]). split.
  { destruct (namei_fresh_parent cwd cwd_abs t dest kd Hwf Hkd Hnone)
      as (kp & c & Hk & Hp & Hc).
    unfold t1. rewrite Hk. apply wf_insert; try done. by rewrite <- Hk, Hnone. }
  split; [by eapply namei_mono|]. split; [by eapply namei_mono|].
  intros x. destruct x as [|c x].
  - rewrite !List.app_nil_r, Hkd1. rewrite <- (List.app_nil_r ks), Hsrc1.
    rewrite List.app_nil_r. by destruct (t !! ks) as [[|]|].
  - rewrite Hbelow by done. by destruct (t1 !! (ks ++ c :: x)) as [[|]|].
Qed.

(** One pass into a destination folder that is missing (in an existing
    directory): the folder is made, then the pass goes as into an empty
    folder. *)
Lemma pass_into_missing fuel t :
  wf_tree t → namei cwd t src = Ok ks → is_dir_node (t !! ks) = true →
  namei cwd t dest = Ok kd → t !! kd = None →
  (∀ x, is_Some (t !! (ks ++ x)) → (List.length x < fuel)%nat) →
  ∃ t', wf_tree t'
        ∧ (∀ k, t' !! k = pass_at now (<[kd := Dir now]> t) ks kd k)
        ∧ ∀ lg, ∃ l,
            sync_pass cwd now fuel src dest (World t lg)
            = (World t' (lg ++ l), Ok tt).
Proof.
  intros Hwf Hks Hds Hkd Hnone Hdepth.
  destruct fuel as [|fuel].
  { specialize (Hdepth []). rewrite List.app_nil_r in Hdepth.
    destruct (t !! ks); [|done]. specialize (Hdepth ltac:(eauto)). simpl in *. lia. }
  destruct (made_dest_open t Hwf Hks Hds Hkd Hnone)
    as (Hsrc1 & Hbelow & Hkd1 & Hwf1 & Hks1 & Hkd1' & Hcomp1).
  set (t1 := <[kd := Dir now]> t) in *.
  assert ((wf_tree t1
           ∧ (namei cwd t1 src = Ok ks ∧ namei cwd t1 dest = Ok kd
              ∧ is_dir_node (t1 !! kd) = true
              ∧ ∀ x, compatible (t1 !! (ks ++ x)) (t1 !! (kd ++ x)))
           ∧ (∀ x, t1 !! (ks ++ x) = t1 !! (ks ++ x))
           ∧ namei cwd t1 src = Ok (ks ++ [])
           ∧ (∀ r', r' `prefix_of` [] → r' ≠ [] →
                is_dir_node (t1 !! (kd ++ r')) = true))
          ∧ is_dir_node (t1 !! (kd ++ [])) = true) as HO.
  { split; [|by rewrite List.app_nil_r, Hkd1].
    split; [done|]. split; [by rewrite Hkd1|]. split; [done|].
    split; [by rewrite List.app_nil_r|].
    intros r' Hr'%prefix_nil_inv. done. }
  destruct (scandir_dir cwd t src ks Hks Hds)
    as (dirs & files & Hscan & Hnd_d & Hnd_f & Hdirs & Hfiles).
  destruct (step_rest cwd cwd_abs now src dest ks kd Hapart t1 fuel [] src t1
              dirs files HO Hnd_d Hnd_f)
    as (t' & Hwf' & [Hin Hout] & Hlog).
  { intros d. rewrite Hdirs. simpl. by rewrite Hsrc1. }
  { intros f. rewrite Hfiles. simpl. by rewrite Hsrc1. }
  { intros x Hx. simpl in Hx. rewrite Hsrc1 in Hx. by apply Hdepth. }
  rewrite List.app_nil_r in Hin, Hout.
  exists t'. split; [done|]. split.
  { intros k. destruct (decide (kd `prefix_of` k)) as [Hk|Hk]; [by apply Hin|].
    rewrite Hout by done. by rewrite pass_at_outside. }
  intros lg.
  destruct (Hlog (lg ++ [Completed (CallMakedirs (join dest "."))])) as (l & Hrun & _).
  exists (Completed (CallMakedirs (join dest ".")) :: l).
  unfold sync_pass. cbn [walk_for fs]. rewrite Hscan.
  assert (sync_dir cwd now src dest src files (World t lg)
          = for_each files (sync_file cwd src (join dest "."))
              (World t1 (lg ++ [Completed (CallMakedirs (join dest "."))]))) as Hbody.
  { unfold sync_dir. unfold mbind at 1. unfold M_bind, bind at 1, lift.
    rewrite (relpath_under cwd src src []);
      [|done|by eapply namei_nonempty|by rewrite List.app_nil_r].
    change (rel_of []) with ".".
    assert (path_exists cwd t (join dest ".") = false) as Hex.
    { unfold path_exists, stat. rewrite (namei_join cwd cwd_abs t dest "." kd) by done.
      change (split_sep ".") with ["."]. cbn [fold_left]. unfold namei_step.
      by rewrite Hnone. }
    unfold mbind at 1. unfold M_bind, bind at 1, read. cbn [fs]. rewrite Hex.
    cbn [negb]. unfold mbind, M_bind, bind at 1, logged. cbn [fs log].
    by rewrite (makedirs_root cwd now t dest kd). }
  unfold mbind, M_bind, bind in Hrun |- *. rewrite Hbody.
  destruct (for_each files _ _) as [w1 [[]|e|]]; rewrite Hrun;
    by rewrite <- List.app_assoc.
Qed.

End Missing.
End first_run.

Section FirstRun.
Import posixpath path_facts namei_facts tree_facts call_facts pass_facts first_run.
Variable cwd : string.
Variable now : Z.

Lemma push_back (s : option node) : push now (push now s None) s = s.
Proof.
  destruct s as [[c m|mt]|]; simpl; [|done..].
  by rewrite Z.gtb_ltb, Z.ltb_irrefl.
Qed.

Lemma walk_of_no_directory fuel body p w :
  isdir cwd (fs w) p = false → walk_for cwd (S fuel) body p w = (w, Ok tt).
Proof.
  intros Hp. cbn [walk_for]. unfold scandir. unfold isdir, stat in Hp.
  pose proof (fuel_facts.namei_fuel cwd (fs w) p) as Hf.
  destruct (namei cwd (fs w) p) as [k|e|]; simpl in *; [|done..].
  by destruct (fs w !! k) as [[|]|].
Qed.

Lemma shallow_depth t fuel (k : key) :
  shallow t fuel → ∀ x, is_Some (t !! (k ++ x)) → (List.length x < fuel)%nat.
Proof.
  intros Hsh x [n Hn]. pose proof (map_Forall_lookup_1 _ _ _ _ Hsh Hn) as Hlen.
  simpl in Hlen. rewrite length_app in Hlen. lia.
Qed.

(** X12: the first run.  When the folder [b] does not exist yet (its
    parent directory does), the scan makes it and fills it from [a]: every
    file of [a] is in [b] with its content and modification time, every
    directory of [a] is a directory of [b], [a] itself and everything
    outside the two folders are as before. *)
Theorem scan_into_missing_folder fuel a b ka kb t lg :
  isabs cwd = true → wf_tree t →
  namei cwd t a = Ok ka → is_dir_node (t !! ka) = true →
  namei cwd t b = Ok kb → t !! kb = None → apart ka kb → shallow t fuel →
  ∃ t' l,
    sync_folders_with_progress cwd now fuel a b (World t lg)
      = (World t' (lg ++ l), Ok tt)
    ∧ (∀ x, t' !! (ka ++ x) = t !! (ka ++ x))
    ∧ t' !! kb = Some (Dir now)
    ∧ (∀ x, x ≠ [] → t' !! (kb ++ x) = push now (t !! (ka ++ x)) None)
    ∧ (∀ k : key, ¬ ka `prefix_of` k → ¬ kb `prefix_of` k → t' !! k = t !! k).
Proof.
  intros Hcwd Hwf Hka Hda Hkb Hnone Hap Hsh.
  pose proof (shallow_depth t fuel ka Hsh) as Hdepth.
  destruct (made_dest_open cwd Hcwd now a b ka kb Hap t Hwf Hka Hda Hkb Hnone)
    as (Hsrc1 & Hbelow & Hkb1 & Hwf1 & Hka1 & Hkb1' & Hcomp1).
  destruct (pass_into_missing cwd Hcwd now a b ka kb Hap fuel t
              Hwf Hka Hda Hkb Hnone Hdepth) as (t1' & Hwf1' & Ht1' & Hlog1).
  set (t1 := <[kb := Dir now]> t) in *.
  assert (0 < fuel)%nat as Hfuel.
  { specialize (Hdepth []). rewrite List.app_nil_r in Hdepth.
    destruct (t !! ka); [|done]. specialize (Hdepth ltac:(eauto)). simpl in *. lia. }
  destruct (pass_spec cwd Hcwd now fuel a b ka kb t1 Hap)
    as (t1'' & HS1 & Ht1'' & _).
  { split; [done|]. split; [done|]. split; [done|].
    split; [by rewrite <- (List.app_nil_r ka), Hsrc1, List.app_nil_r|].
    split; [by rewrite Hkb1|]. split; [done|].
    intros x [Hx|Hx]; [rewrite Hsrc1 in Hx; by apply Hdepth|].
    destruct x as [|c x]; [done|]. rewrite Hbelow in Hx by done. by destruct Hx. }
  assert (t1'' = t1') as ->.
  { apply map_eq. intros k. by rewrite Ht1'', Ht1'. }
  destruct (pass_spec cwd Hcwd now fuel b a kb ka t1' (apart_sym _ _ Hap)
              (sync_flip cwd fuel _ _ _ _ _ HS1))
    as (t2 & HS2 & Ht2 & Hlog2).
  destruct (Hlog1 lg) as (l1 & Hrun1).
  destruct (Hlog2 (lg ++ l1)) as (l2 & Hrun2 & _).
  assert (∀ x, t1' !! (kb ++ x) = push now (t !! (ka ++ x)) (t1 !! (kb ++ x)))
    as Hb1.
  { intros x. by rewrite Ht1', pass_at_under, Hsrc1. }
  assert (∀ x, t1' !! (ka ++ x) = t !! (ka ++ x)) as Ha1.
  { intros x. rewrite Ht1', pass_at_outside by (by apply apart_not_under). done. }
  exists t2, (l1 ++ l2). split.
  { unfold sync_folders_with_progress, mbind, M_bind, bind.
    by rewrite Hrun1, Hrun2, List.app_assoc. }
  split.
  { intros x. rewrite Ht2, pass_at_under, Hb1, Ha1.
    destruct x as [|c x].
    - rewrite !List.app_nil_r, Hkb1. by destruct (t !! ka) as [[|]|].
    - rewrite Hbelow by done. apply push_back. }
  split.
  { rewrite Ht2, pass_at_outside by (by destruct Hap).
    rewrite <- (List.app_nil_r kb), Hb1, !List.app_nil_r, Hkb1.
    by destruct (t !! ka) as [[|]|]. }
  split.
  { intros x Hx. rewrite Ht2, pass_at_outside
      by (by apply apart_not_under, apart_sym).
    by rewrite Hb1, Hbelow. }
  intros k Hk1 Hk2. rewrite Ht2, pass_at_outside by done.
  rewrite Ht1', pass_at_outside by done.
  unfold t1. rewrite lookup_insert_ne; [done|]. intros <-. by apply Hk2.
Qed.

(** X13: when it is the folder [a] that does not exist, the first pass
    finds nothing to walk and the second pass makes [a] and fills it from
    [b]: what was removed on one side while the program was not running
    comes back from the other. *)
Theorem scan_from_missing_folder fuel a b ka kb t lg :
  isabs cwd = true → wf_tree t →
  namei cwd t a = Ok ka → t !! ka = None →
  namei cwd t b = Ok kb → is_dir_node (t !! kb) = true → apart ka kb →
  shallow t fuel →
  ∃ t' l,
    sync_folders_with_progress cwd now fuel a b (World t lg)
      = (World t' (lg ++ l), Ok tt)
    ∧ (∀ x, t' !! (kb ++ x) = t !! (kb ++ x))
    ∧ t' !! ka = Some (Dir now)
    ∧ (∀ x, x ≠ [] → t' !! (ka ++ x) = push now (t !! (kb ++ x)) None)
    ∧ (∀ k : key, ¬ ka `prefix_of` k → ¬ kb `prefix_of` k → t' !! k = t !! k).
Proof.
  intros Hcwd Hwf Hka Hnone Hkb Hdb Hap Hsh.
  pose proof (shallow_depth t fuel kb Hsh) as Hdepth.
  destruct (made_dest_open cwd Hcwd now b a kb ka (apart_sym _ _ Hap) t
              Hwf Hkb Hdb Hka Hnone)
    as (Hsrc1 & Hbelow & Hka1 & _).
  destruct (pass_into_missing cwd Hcwd now b a kb ka (apart_sym _ _ Hap) fuel t
              Hwf Hkb Hdb Hka Hnone Hdepth) as (t' & Hwf' & Ht' & Hlog).
  set (t1 := <[ka := Dir now]> t) in *.
  destruct fuel as [|fuel].
  { specialize (Hdepth []). rewrite List.app_nil_r in Hdepth.
    destruct (t !! kb); [|done]. specialize (Hdepth ltac:(eauto)). simpl in *. lia. }
  destruct (Hlog lg) as (l & Hrun).
  exists t', l. split.
  { unfold sync_folders_with_progress, mbind, M_bind, bind.
    unfold sync_pass at 1. rewrite walk_of_no_directory; [done|].
    cbn [fs]. rewrite (isdir_node cwd t a ka) by done. by rewrite Hnone. }
  split.
  { intros x. rewrite Ht', pass_at_outside by (by apply apart_not_under, apart_sym).
    apply Hsrc1. }
  split.
  { rewrite <- (List.app_nil_r ka), Ht', pass_at_under, !List.app_nil_r, Hka1.
    rewrite <- (List.app_nil_r kb), Hsrc1, List.app_nil_r.
    by destruct (t !! kb) as [[|]|]. }
  split.
  { intros x Hx. by rewrite Ht', pass_at_under, Hsrc1, Hbelow. }
  intros k Hk1 Hk2. rewrite Ht', pass_at_outside by done.
  unfold t1. rewrite lookup_insert_ne; [done|]. intros <-. by apply Hk1.
Qed.

End FirstRun.

Lemma scan_into_missing_folder_witness :
  (posixpath.isabs "/" = true ∧ wf_tree tree_first_run
   ∧ namei "/" tree_first_run "/A" = Ok ["A"]
   ∧ namei "/" tree_first_run "/B" = Ok ["B"]
   ∧ tree_first_run !! ["B"] = None
   ∧ apart ["A"] ["B"] ∧ shallow tree_first_run 9)
  ∧ ∃ t' l,
      sync_folders_with_progress "/" 100 9 "/A" "/B" (World tree_first_run [])
        = (World t' ([] ++ l), Ok tt)
      ∧ (∀ x, t' !! (["A"] ++ x) = tree_first_run !! (["A"] ++ x))
      ∧ t' !! ["B"] = Some (Dir 100)
      ∧ (∀ x, x ≠ [] →
           t' !! (["B"] ++ x) = push 100 (tree_first_run !! (["A"] ++ x)) None)
      ∧ (∀ k : key, ¬ ["A"] `prefix_of` k → ¬ ["B"] `prefix_of` k →
           t' !! k = tree_first_run !! k).
Proof.
  assert (wf_tree tree_first_run) as Hwf
    by (apply (bool_decide_unpack _); by vm_compute).
  assert (apart ["A"] ["B"]) as Hap by (apply (bool_decide_unpack _); by vm_compute).
  assert (shallow tree_first_run 9) as Hsh
    by (apply (bool_decide_unpack _); by vm_compute).
  split; [split; [reflexivity|split; [exact Hwf|]];
          repeat (split; [reflexivity|]); by split|].
  by apply (scan_into_missing_folder "/" 100 9 "/A" "/B" ["A"] ["B"] tree_first_run []).
Defined.

Lemma scan_from_missing_folder_witness :
  (posixpath.isabs "/" = true ∧ wf_tree tree_first_run
   ∧ namei "/" tree_first_run "/B" = Ok ["B"]
   ∧ tree_first_run !! ["B"] = None
   ∧ namei "/" tree_first_run "/A" = Ok ["A"]
   ∧ apart ["B"] ["A"] ∧ shallow tree_first_run 9)
  ∧ ∃ t' l,
      sync_folders_with_progress "/" 100 9 "/B" "/A" (World tree_first_run [])
        = (World t' ([] ++ l), Ok tt)
      ∧ (∀ x, t' !! (["A"] ++ x) = tree_first_run !! (["A"] ++ x))
      ∧ t' !! ["B"] = Some (Dir 100)
      ∧ (∀ x, x ≠ [] →
           t' !! (["B"] ++ x) = push 100 (tree_first_run !! (["A"] ++ x)) None)
      ∧ (∀ k : key, ¬ ["B"] `prefix_of` k → ¬ ["A"] `prefix_of` k →
           t' !! k = tree_first_run !! k).
Proof.
  assert (wf_tree tree_first_run) as Hwf
    by (apply (bool_decide_unpack _); by vm_compute).
  assert (apart ["B"] ["A"]) as Hap by (apply (bool_decide_unpack _); by vm_compute).
  assert (shallow tree_first_run 9) as Hsh
    by (apply (bool_decide_unpack _); by vm_compute).
  split; [split; [reflexivity|split; [exact Hwf|]];
          repeat (split; [reflexivity|]); by split|].
  by apply (scan_from_missing_folder "/" 100 9 "/B" "/A" ["B"] ["A"] tree_first_run []).
Defined.

(** ** Files moved, and events that undo each other

    As everywhere in this model a directory keeps the time stamp it was
    made with: what a system call does to the modification time of the
    directory that holds the entry is not modelled. *)

Module rename_facts.
Import posixpath path_facts namei_facts tree_facts last_facts call_facts move_facts.

(** Renaming a file is taking it out at the old key and putting it in at
    the new one. *)
Lemma rename_file_tree (t : tree) (ko kn : key) c m :
  t !! ko = Some (File c m) → ko ≠ kn →
  (∀ s, s ≠ [] → t !! (ko ++ s) = None) →
  (∀ s, s ≠ [] → t !! (kn ++ s) = None) →
  graft ko kn t ∪ prune kn (prune ko t) = <[kn := File c m]> (delete ko t).
Proof.
  intros Hko Hne Hbo Hbn. apply map_eq. intros j.
  destruct (decide (kn `prefix_of` j)) as [[s ->]|Hout].
  - destruct s as [|x s].
    + rewrite List.app_nil_r, lookup_insert_eq.
      apply lookup_union_Some_l. pose proof (graft_lookup_in ko kn t []) as Hg.
      rewrite !List.app_nil_r in Hg. by rewrite Hg.
    + rewrite lookup_union_r by (by rewrite graft_lookup_in, Hbo).
      rewrite prune_lookup_under by (by apply prefix_app_r).
      rewrite lookup_insert_ne.
      * destruct (decide (ko = kn ++ x :: s)) as [->|Hd].
        -- by rewrite lookup_delete_eq.
        -- rewrite lookup_delete_ne by done. by rewrite Hbn.
      * intros Heq. rewrite <- (List.app_nil_r kn) in Heq at 1.
        by apply app_inv_head in Heq.
  - rewrite lookup_union_r by (by apply graft_lookup_out).
    rewrite prune_lookup_out by done.
    rewrite lookup_insert_ne by (by intros <-).
    destruct (decide (ko `prefix_of` j)) as [[s ->]|Hout'].
    + rewrite prune_lookup_under by (by apply prefix_app_r).
      destruct s as [|x s].
      * by rewrite List.app_nil_r, lookup_delete_eq.
      * rewrite lookup_delete_ne, Hbo; [done|done|].
        intros Heq. rewrite <- (List.app_nil_r ko) in Heq at 1.
        by apply app_inv_head in Heq.
    + rewrite prune_lookup_out by done.
      rewrite lookup_delete_ne; [done|]. by intros <-.
Qed.

Section MoveFile.
Variable cwd : string.
Variable now : Z.

(** [shutil.move] of a file to a path that is no directory is one
    [os.rename]. *)
Lemma move_file t src dst ko kn c m :
  wf_tree t →
  namei cwd t src = Ok ko → t !! ko = Some (File c m) →
  namei cwd t dst = Ok kn → is_dir_node (t !! kn) = false → ko ≠ kn →
  move_tree cwd now t src dst = (graft ko kn t ∪ prune kn (prune ko t), Ok tt).
Proof.
  intros Hwf Hko Hn Hkn Hnd Hne. unfold move_tree.
  rewrite (isdir_node cwd t dst kn), Hnd by done.
  assert (last_name src = true) as Hls
    by (apply (namei_not_dir cwd t src ko); [done..|by rewrite Hn]).
  assert (last_name dst = true) as Hld by (by apply (namei_not_dir cwd t dst kn)).
  unfold rename_tree. rewrite Hko, Hkn. simpl. rewrite Hls, Hld, Hn. simpl.
  rewrite bool_decide_eq_false_2 by done. by rewrite Hnd.
Qed.

End MoveFile.
End rename_facts.

Section EventPairs.
Import posixpath path_facts namei_facts tree_facts call_facts move_facts
       guard_facts event_facts rename_facts first_run.
Variable cwd : string.
Variable now : Z.
Variable stdout : entry → option exn.

Lemma dispatch_two self ev1 ev2 w w1 :
  on_any_event cwd now stdout self ev1 w = (w1, Ok tt) →
  fs (dispatch cwd now stdout self [ev1; ev2] w).1
  = fs (on_any_event cwd now stdout self ev2 w1).1.
Proof.
  intros H1. unfold dispatch. cbn [for_each]. unfold bind at 1. rewrite H1.
  unfold bind, ret. by destruct (on_any_event cwd now stdout self ev2 w1) as [w2 [[]|e|]].
Qed.


(** X15: a file moved and moved back: after the two [moved] events,
    handled one after the other, the mirror is the tree it was; and so it
    is after the observer has dispatched the two, when the standard output
    takes the line of the first. *)
Theorem moved_file_there_and_back self ev1 ev2 t lg p_old p_new ko kn c m :
  posixpath.isabs cwd = true → wf_tree t →
  event_type ev1 = "moved" → event_type ev2 = "moved" →
  src_path ev2 = dest_path ev1 → dest_path ev2 = src_path ev1 →
  map_path cwd (src_path ev1) (self_src_path self) (self_dest_path self) = Ok p_old →
  map_path cwd (dest_path ev1) (self_src_path self) (self_dest_path self) = Ok p_new →
  namei cwd t p_old = Ok ko → t !! ko = Some (File c m) →
  namei cwd t p_new = Ok kn → t !! kn = None →
  fs (on_any_event cwd now stdout self ev2
        (on_any_event cwd now stdout self ev1 (World t lg)).1).1 = t
  ∧ (stdout (Print ("Moved: " +:+ src_path ev1 +:+ " -> " +:+ p_new)) = None →
     fs (dispatch cwd now stdout self [ev1; ev2] (World t lg)).1 = t).
Proof.
  intros Hcwd Hwf Het1 Het2 Hs2 Hd2 Ho Hn Hko Hfile Hkn Hnone.
  assert (ko ≠ kn) as Hne by (intros ->; congruence).
  assert (∀ s, s ≠ [] → t !! (ko ++ s) = None) as Hbo.
  { intros s Hs. apply wf_none_below; [done|by rewrite Hfile|done]. }
  assert (∀ s, s ≠ [] → t !! (kn ++ s) = None) as Hbn.
  { intros s Hs. apply wf_none_below; [done|by rewrite Hnone|done]. }
  assert (¬ ko `prefix_of` kn) as Hunder.
  { intros [s Hs].
    destruct (namei_fresh_parent cwd Hcwd t p_new kn Hwf Hkn Hnone)
      as (kp & x & Hk & Hp & _).
    destruct s as [|y s _] using rev_ind.
    - rewrite List.app_nil_r in Hs. congruence.
    - rewrite Hs, List.app_assoc in Hk. apply app_inj_tail in Hk as [<- _].
      destruct s as [|z s]; [by rewrite List.app_nil_r, Hfile in Hp|].
      by rewrite Hbo in Hp. }
  set (t1 := <[kn := File c m]> (delete ko t)).
  assert (fs (on_any_event cwd now stdout self ev1 (World t lg)).1 = t1
          ∧ (stdout (Print ("Moved: " +:+ src_path ev1 +:+ " -> " +:+ p_new)) = None →
             on_any_event cwd now stdout self ev1 (World t lg)
             = (World t1 (lg ++ [Completed (CallMove p_old p_new);
                                 Print ("Moved: " +:+ src_path ev1
                                        +:+ " -> " +:+ p_new)]), Ok tt)))
    as [Hfs1 Hrun1].
  { rewrite (on_moved cwd now stdout self ev1 t lg p_old p_new Het1 Ho Hn).
    rewrite guarded_fs, guarded_run. cbn [fs log].
    rewrite (move_file cwd now t p_old p_new ko kn c m) by (done || by rewrite Hnone).
    rewrite (rename_file_tree t ko kn c m) by done.
    split; [done|]. by intros ->. }
  assert (∀ k0, is_dir_node (t !! k0) = true → is_dir_node (t1 !! k0) = true)
    as Hmono.
  { intros k0 Hk0. unfold t1.
    rewrite lookup_insert_ne by (intros <-; by rewrite Hnone in Hk0).
    rewrite lookup_delete_ne by (intros <-; by rewrite Hfile in Hk0). done. }
  assert (t1 !! kn = Some (File c m)) as Hkn1
    by (unfold t1; by rewrite lookup_insert_eq).
  assert (t1 !! ko = None) as Hko1.
  { unfold t1. rewrite lookup_insert_ne by done. by rewrite lookup_delete_eq. }
  assert (wf_tree t1) as Hwf1.
  { destruct (namei_fresh_parent cwd Hcwd t p_new kn Hwf Hkn Hnone)
      as (kp & x & -> & Hp & Hx).
    split.
    - apply Hmono. by apply wf_root.
    - apply map_Forall_lookup_2. intros k n Hk.
      destruct (decide (k = kp ++ [x])) as [->|Hk1].
      + right. rewrite removelast_last, last_last. split; [by apply Hmono|done].
      + unfold t1 in Hk. rewrite lookup_insert_ne in Hk by done.
        apply lookup_delete_Some in Hk as [_ Hk].
        destruct (decide (k = [])) as [->|Hnil]; [by left|right].
        rewrite (key_snoc_inv k Hnil) in Hk.
        apply (wf_lookup _ _ _ _ Hwf) in Hk as [Hd Hpn]. split; [by apply Hmono|done]. }
  assert (∀ lg', fs (on_any_event cwd now stdout self ev2 (World t1 lg')).1 = t)
    as Hback.
  { intros lg'. rewrite <- Hs2 in Hn. rewrite <- Hd2 in Ho.
    rewrite (on_moved cwd now stdout self ev2 t1 lg' p_new p_old Het2 Hn Ho).
    rewrite guarded_fs. cbn [fs].
    rewrite (move_file cwd now t1 p_new p_old kn ko c m);
      [|done|by eapply namei_mono|done|by eapply namei_mono|by rewrite Hko1|done].
    rewrite (rename_file_tree t1 kn ko c m); [|done|done| |].
    - cbn [fst]. unfold t1.
      rewrite delete_insert_id by (by rewrite lookup_delete_ne).
      by rewrite insert_delete_eq, insert_id.
    - intros s Hs. unfold t1. rewrite lookup_insert_ne.
      + destruct (decide (ko = kn ++ s)) as [->|Hd].
        * by rewrite lookup_delete_eq.
        * rewrite lookup_delete_ne by done. by apply Hbn.
      + intros Heq. rewrite <- (List.app_nil_r kn) in Heq at 1.
        by apply app_inv_head in Heq.
    - intros s Hs. unfold t1. rewrite lookup_insert_ne.
      + rewrite lookup_delete_ne; [by apply Hbo|].
        intros Heq. rewrite <- (List.app_nil_r ko) in Heq at 1.
        by apply app_inv_head in Heq.
      + intros Heq. apply Hunder. rewrite Heq. by apply prefix_app_r. }
  split.
  - destruct (on_any_event cwd now stdout self ev1 (World t lg)).1 as [t1' lg1].
    cbn [fs] in Hfs1. subst t1'. apply Hback.
  - intros Hout. rewrite (dispatch_two self ev1 ev2 _ _ (Hrun1 Hout)). apply Hback.
Qed.

(** X16: a file created and deleted again: after the [created] (or
    [modified]) event and the [deleted] event, handled one after the other,
    the mirror, which did not have the file, is the tree it was; and so it
    is after the observer has dispatched the two, when the standard output
    takes the line of the first. *)
Theorem created_then_deleted self ev1 ev2 t lg p ks kd c m :
  event_type ev1 = "created" ∨ event_type ev1 = "modified" →
  event_type ev2 = "deleted" → src_path ev2 = src_path ev1 →
  map_path cwd (src_path ev1) (self_src_path self) (self_dest_path self) = Ok p →
  namei cwd t (src_path ev1) = Ok ks → t !! ks = Some (File c m) →
  namei cwd t p = Ok kd → t !! kd = None →
  fs (on_any_event cwd now stdout self ev2
        (on_any_event cwd now stdout self ev1 (World t lg)).1).1 = t
  ∧ (stdout (Print (copy_line (event_type ev1) (src_path ev1) p)) = None →
     fs (dispatch cwd now stdout self [ev1; ev2] (World t lg)).1 = t).
Proof.
  intros Het1 Het2 Hs2 Hmap Hks Hfile Hkd Hnone.
  assert (ks ≠ kd) as Hne by (intros ->; congruence).
  set (t1 := <[kd := File c m]> t).
  assert (fs (on_any_event cwd now stdout self ev1 (World t lg)).1 = t1
          ∧ (stdout (Print (copy_line (event_type ev1) (src_path ev1) p)) = None →
             on_any_event cwd now stdout self ev1 (World t lg)
             = (World t1 (lg ++ [Completed (CallCopy2 (src_path ev1) p);
                                 Print (copy_line (event_type ev1) (src_path ev1) p)]),
                Ok tt))) as [Hfs1 Hrun1].
  { rewrite (on_copy_event cwd now stdout self ev1 t lg p Het1 Hmap)
      by (by rewrite (isdir_node cwd t _ ks), Hfile).
    rewrite guarded_fs, guarded_run. cbn [fs log].
    rewrite (copy2_file cwd t _ _ ks kd c m) by (done || by rewrite Hnone).
    split; [done|]. by intros ->. }
  assert (namei cwd t1 p = Ok kd) as Hkd1.
  { eapply namei_mono; [|exact Hkd]. intros k0 Hk0. unfold t1.
    rewrite lookup_insert_ne; [done|]. intros <-. by rewrite Hnone in Hk0. }
  assert (t1 !! kd = Some (File c m)) as Hn1
    by (unfold t1; by rewrite lookup_insert_eq).
  assert (∀ lg', fs (on_any_event cwd now stdout self ev2 (World t1 lg')).1 = t)
    as Hback.
  { intros lg'. rewrite <- Hs2 in Hmap.
    rewrite (on_deleted_event cwd now stdout self ev2 t1 lg' p Het2 Hmap).
    rewrite (isdir_node cwd t1 p kd), Hn1 by done. cbn [is_dir_node].
    rewrite (path_exists_Some cwd t1 p kd) by (by rewrite ?Hn1).
    rewrite guarded_fs. cbn [fs].
    unfold remove_tree. rewrite Hkd1, Hn1. cbn [fst].
    unfold t1. by apply delete_insert_id. }
  split.
  - destruct (on_any_event cwd now stdout self ev1 (World t lg)).1 as [t1' lg1].
    cbn [fs] in Hfs1. subst t1'. apply Hback.
  - intros Hout. rewrite (dispatch_two self ev1 ev2 _ _ (Hrun1 Hout)). apply Hback.
Qed.


End EventPairs.


Lemma moved_file_there_and_back_witness :
  let self := Handler "/A" "/B" in
  let ev1 := Event "moved" "/A/f" "/A/g" in
  let ev2 := Event "moved" "/A/g" "/A/f" in
  (wf_tree tree_moved_file
   ∧ namei "/" tree_moved_file "/B/f" = Ok ["B"; "f"]
   ∧ tree_moved_file !! ["B"; "f"] = Some (File "data" 3)
   ∧ namei "/" tree_moved_file "/B/g" = Ok ["B"; "g"]
   ∧ tree_moved_file !! ["B"; "g"] = None
   ∧ stdout_open (Print ("Moved: " +:+ src_path ev1 +:+ " -> " +:+ "/B/g")) = None)
  ∧ fs (on_any_event "/" 100 stdout_closed self ev2
          (on_any_event "/" 100 stdout_closed self ev1 (World tree_moved_file [])).1).1
    = tree_moved_file
  ∧ fs (dispatch "/" 100 stdout_open self [ev1; ev2] (World tree_moved_file [])).1
    = tree_moved_file.
Proof.
  intros self ev1 ev2.
  assert (wf_tree tree_moved_file) as Hwf
    by (apply (bool_decide_unpack _); by vm_compute).
  split; [split; [exact Hwf|]; repeat (split; [reflexivity|]); reflexivity|].
  split.
  - apply (moved_file_there_and_back "/" 100 stdout_closed self ev1 ev2
             tree_moved_file [] "/B/f" "/B/g" ["B"; "f"] ["B"; "g"] "data" 3);
      first [exact Hwf | reflexivity].
  - apply (moved_file_there_and_back "/" 100 stdout_open self ev1 ev2
             tree_moved_file [] "/B/f" "/B/g" ["B"; "f"] ["B"; "g"] "data" 3);
      first [exact Hwf | reflexivity].
Defined.

Lemma created_then_deleted_witness :
  let self := Handler "/A" "/B" in
  let ev1 := Event "created" "/A/g" "" in
  let ev2 := Event "deleted" "/A/g" "" in
  (namei "/" tree_moved_file "/A/g" = Ok ["A"; "g"]
   ∧ tree_moved_file !! ["A"; "g"] = Some (File "data" 3)
   ∧ namei "/" tree_moved_file "/B/g" = Ok ["B"; "g"]
   ∧ tree_moved_file !! ["B"; "g"] = None
   ∧ stdout_open (Print (copy_line "created" "/A/g" "/B/g")) = None)
  ∧ fs (on_any_event "/" 100 stdout_closed self ev2
          (on_any_event "/" 100 stdout_closed self ev1 (World tree_moved_file [])).1).1
    = tree_moved_file
  ∧ fs (dispatch "/" 100 stdout_open self [ev1; ev2] (World tree_moved_file [])).1
    = tree_moved_file.
Proof.
  intros self ev1 ev2.
  split; [repeat (split; [reflexivity|]); reflexivity|].
  split.
  - apply (created_then_deleted "/" 100 stdout_closed self ev1 ev2 tree_moved_file []
             "/B/g" ["A"; "g"] ["B"; "g"] "data" 3);
      first [by left | reflexivity].
  - apply (created_then_deleted "/" 100 stdout_open self ev1 ev2 tree_moved_file []
             "/B/g" ["A"; "g"] ["B"; "g"] "data" 3);
      first [by left | reflexivity].
Defined.

